(** * ValidaEJA (app.py): the text heuristics and the approval rule

    A shallow embedding of [app.py]: the five extraction functions
    ([classify_document], [extract_cid], [extract_registry],
    [check_afastamento], [check_signature]), the approval rule and
    the checklist of [display_results] and the session-state
    transitions of [main], [display_uploader] and [display_results].

    Python strings are sequences of Unicode code points; the regular
    expressions of the program are given as the trees [re] parses them
    into and run by a backtracking matcher that follows [re]'s
    priorities (leftmost start, greedy repeats, ordered branches) under
    [re.IGNORECASE], the only flag the program passes. *)

From Stdlib Require Import String Ascii NArith Arith Bool Lia List.
Import ListNotations.

Set Implicit Arguments.
Local Open Scope N_scope.

(* ================================================================= *)
(** ** Python [str] *)

(** A [str] is a sequence of code points. *)
Definition str := list N.

(** Source literals are written as in [app.py] and decoded from the
    UTF-8 bytes of the Rocq string. *)
Fixpoint utf8_decode (bs : list N) : str :=
  match bs with
  | [] => []
  | b0 :: t0 =>
    if b0 <? 0x80 then b0 :: utf8_decode t0
    else
      match t0 with
      | [] => [0xFFFD]
      | b1 :: t1 =>
        if b0 <? 0xE0 then ((b0 - 0xC0) * 64 + (b1 - 0x80)) :: utf8_decode t1
        else
          match t1 with
          | [] => [0xFFFD]
          | b2 :: t2 =>
            if b0 <? 0xF0
            then ((b0 - 0xE0) * 4096 + (b1 - 0x80) * 64 + (b2 - 0x80))
                   :: utf8_decode t2
            else
              match t2 with
              | [] => [0xFFFD]
              | b3 :: t3 =>
                ((b0 - 0xF0) * 262144 + (b1 - 0x80) * 4096
                 + (b2 - 0x80) * 64 + (b3 - 0x80)) :: utf8_decode t3
              end
          end
      end
  end.

Definition py (s : string) : str :=
  utf8_decode (map N_of_ascii (list_ascii_of_string s)).
Arguments py s%_string.

(** [s[a:b]] for [0 <= a <= b]. *)
Definition slice (s : str) (a b : nat) : str := firstn (b - a) (skipn a s).

Definition str_eqb (s t : str) : bool :=
  if list_eq_dec N.eq_dec s t then true else false.

Fixpoint startswith (p s : str) : bool :=
  match p, s with
  | [], _ => true
  | a :: p', b :: s' => (a =? b) && startswith p' s'
  | _ :: _, [] => false
  end.

(** [p in s] *)
Fixpoint str_in (p s : str) : bool :=
  startswith p s || match s with [] => false | _ :: s' => str_in p s' end.

(** A string is true unless it is empty; [None] is false. *)
Definition truthy (o : option str) : bool :=
  match o with
  | Some (_ :: _) => true
  | _ => false
  end.

(* ================================================================= *)
(** ** The Unicode character database *)

(** The database is Python's, not the program's, so it is a parameter.
    CPython answers every query below for a code point under 128 from
    fixed ASCII tables; those are written out, and only the code points
    from 128 on are looked up in [UnicodeData]. *)
Class UnicodeData := {
  uc_isalnum : N -> bool;          (* str.isalnum of one code point *)
  uc_isdecimal : N -> bool;        (* str.isdecimal *)
  uc_isspace : N -> bool;          (* str.isspace *)
  uc_tolower : N -> N;             (* simple lower-case mapping *)
  uc_toupper : N -> N;             (* simple upper-case mapping *)
  uc_tolower_full : N -> str;      (* full lower-case mapping *)
  uc_toupper_full : N -> str;      (* full upper-case mapping *)
  uc_iscased : N -> bool;          (* property Cased *)
  uc_iscaseignorable : N -> bool;  (* property Case_Ignorable *)
  uc_extra_cases : N -> list N     (* re._casefix._EXTRA_CASES *)
}.

Definition between (a b c : N) : bool := (a <=? c) && (c <=? b).

Definition ascii_isupper (c : N) : bool := between 0x41 0x5A c.
Definition ascii_islower (c : N) : bool := between 0x61 0x7A c.
Definition ascii_isalpha (c : N) : bool := ascii_isupper c || ascii_islower c.
Definition ascii_isdigit (c : N) : bool := between 0x30 0x39 c.
Definition ascii_isspace (c : N) : bool := between 0x09 0x0D c || between 0x1C 0x20 c.
Definition ascii_tolower (c : N) : N := if ascii_isupper c then c + 32 else c.
Definition ascii_toupper (c : N) : N := if ascii_islower c then c - 32 else c.
Definition ascii_iscaseignorable (c : N) : bool :=
  existsb (N.eqb c) [0x27; 0x2E; 0x3A; 0x5E; 0x60].

Fixpoint mem (c : N) (l : list N) : bool :=
  match l with
  | [] => false
  | x :: l' => (c =? x) || mem c l'
  end.

(** The code points [a], [a+1], ..., [b]. *)
Definition N_range (a b : N) : list N :=
  map N.of_nat (seq (N.to_nat a) (N.to_nat (b + 1 - a))).

Section Unicode.
Context {U : UnicodeData}.

Definition isspace (c : N) : bool := if c <? 128 then ascii_isspace c else uc_isspace c.
Definition isdecimal (c : N) : bool := if c <? 128 then ascii_isdigit c else uc_isdecimal c.
Definition isalnum (c : N) : bool :=
  if c <? 128 then ascii_isalpha c || ascii_isdigit c else uc_isalnum c.
Definition tolower (c : N) : N := if c <? 128 then ascii_tolower c else uc_tolower c.
Definition toupper (c : N) : N := if c <? 128 then ascii_toupper c else uc_toupper c.
Definition iscased (c : N) : bool := if c <? 128 then ascii_isalpha c else uc_iscased c.
Definition iscaseignorable (c : N) : bool :=
  if c <? 128 then ascii_iscaseignorable c else uc_iscaseignorable c.

(** *** [str.upper] *)
Definition toupper_full (c : N) : str :=
  if c <? 128 then [ascii_toupper c] else uc_toupper_full c.

Definition py_upper (s : str) : str := flat_map toupper_full s.

(** *** [str.lower]

    Every code point is replaced by its full lower-case mapping, but
    for capital sigma, whose image depends on whether it ends a word. *)
Fixpoint skip_ignorable (s : str) : str :=
  match s with
  | c :: s' => if iscaseignorable c then skip_ignorable s' else s
  | [] => []
  end.

(** [before] holds the code points to the left, nearest first. *)
Definition final_sigma (before after : str) : bool :=
  match skip_ignorable before with
  | c :: _ =>
    iscased c &&
    match skip_ignorable after with
    | d :: _ => negb (iscased d)
    | [] => true
    end
  | [] => false
  end.

Definition tolower_full (before : str) (c : N) (after : str) : str :=
  if c <? 128 then [ascii_tolower c]
  else if c =? 0x3A3 then [if final_sigma before after then 0x3C2 else 0x3C3]
  else uc_tolower_full c.

Fixpoint lower_from (before s : str) : str :=
  match s with
  | [] => []
  | c :: s' => tolower_full before c s' ++ lower_from (c :: before) s'
  end.

Definition py_lower (s : str) : str := lower_from [] s.

(** *** Character tests of [re] for [str] patterns *)

(** [\w] *)
Definition sre_isword (c : N) : bool := isalnum c || (c =? 0x5F).

(** [_sre.unicode_iscased] *)
Definition sre_iscased (c : N) : bool :=
  negb (c =? tolower c) || negb (c =? toupper c).

(** [_EXTRA_CASES]: lower-case code points with the same upper case
    as the given lower-case code point. *)
Definition extra_cases (lo : N) : list N :=
  if lo <? 128 then
    if lo =? 0x69 then [0x131] else if lo =? 0x73 then [0x17F] else []
  else uc_extra_cases lo.

(** The code points a pattern character [av] stands for once lower
    case is taken. *)
Definition fix_set (av : N) : list N :=
  let lo := tolower av in lo :: extra_cases lo.
End Unicode.

(* ================================================================= *)
(** ** Regular expressions *)

Inductive category := CATEGORY_DIGIT | CATEGORY_SPACE | CATEGORY_WORD.

(** The members of a character set [[...]]. *)
Inductive set_item :=
| SET_LITERAL (av : N)
| SET_RANGE (lo hi : N)
| SET_CATEGORY (cat : category).

(** Parsed patterns, with the operator names of [re._parser]. *)
Inductive regex :=
| Empty
| LITERAL (av : N)
| IN (items : list set_item)
| AT_BOUNDARY
| Seq (r1 r2 : regex)
| BRANCH (r1 r2 : regex)
| MAX_REPEAT (lo : nat) (hi : option nat) (r : regex)
| SUBPATTERN (g : nat) (r : regex).

(** A run of literals, as a pattern without special characters parses. *)
Definition literals (s : str) : regex := fold_right (fun c r => Seq (LITERAL c) r) Empty s.

(** The matcher's position in the text: the index, the code point just
    before it and the text from it on. *)
Record cursor := { pos : nat; behind : option N; ahead : str }.

(** Group number to span. The most recent entry of a group counts. *)
Definition marks := list (nat * (nat * nat)).

Fixpoint lookup (g : nat) (ms : marks) : option (nat * nat) :=
  match ms with
  | [] => None
  | (g', sp) :: ms' => if Nat.eqb g g' then Some sp else lookup g ms'
  end.

Definition outcome := option (cursor * marks).
Definition cont := cursor -> marks -> outcome.

Definition step (c : cursor) (x : N) (rest : str) : cursor :=
  {| pos := S (pos c); behind := Some x; ahead := rest |}.

(** The matcher moved on from [c] to [c']. *)
Definition progress (c c' : cursor) : bool := (length (ahead c') <? length (ahead c))%nat.

Section Repeat.
Variable body : cursor -> marks -> cont -> outcome.

(** Exactly [n] rounds of [body]. *)
Fixpoint repeat_min (n : nat) (c : cursor) (ms : marks) (k : cont) : outcome :=
  match n with
  | O => k c ms
  | S n' => body c ms (fun c' ms' => repeat_min n' c' ms' k)
  end.

(** At most [n] further rounds, as many as possible first; a round
    that consumes nothing is not repeated. *)
Fixpoint repeat_max (n : nat) (c : cursor) (ms : marks) (k : cont) : outcome :=
  match n with
  | O => k c ms
  | S n' =>
    match body c ms (fun c' ms' =>
            if progress c c' then repeat_max n' c' ms' k else None) with
    | Some res => Some res
    | None => k c ms
    end
  end.
End Repeat.

Section Sre.
Context {U : UnicodeData}.

Definition in_category (cat : category) (c : N) : bool :=
  match cat with
  | CATEGORY_DIGIT => isdecimal c
  | CATEGORY_SPACE => isspace c
  | CATEGORY_WORD => sre_isword c
  end.

(** A literal under IGNORECASE: compared as it is when it has no
    case, and through lower case otherwise. *)
Definition literal_ignore (av c : N) : bool :=
  if sre_iscased av then mem (tolower c) (fix_set av) else c =? av.

Definition item_iscased (it : set_item) : bool :=
  match it with
  | SET_LITERAL av => sre_iscased av
  | SET_RANGE lo hi => existsb sre_iscased (N_range lo hi)
  | SET_CATEGORY _ => false
  end.

Definition item_test (ch : N) (it : set_item) : bool :=
  match it with
  | SET_LITERAL av => mem ch (fix_set av)
  | SET_RANGE lo hi => existsb (fun i => mem ch (fix_set i)) (N_range lo hi)
  | SET_CATEGORY cat => in_category cat ch
  end.

(** A set under IGNORECASE: its members are taken to lower case when
    it is compiled; the text's code point is, when a member has case. *)
Definition in_ignore (items : list set_item) (c : N) : bool :=
  existsb (item_test (if existsb item_iscased items then tolower c else c)) items.

Definition isword_opt (o : option N) : bool :=
  match o with Some c => sre_isword c | None => false end.

(** [\b]: exactly one side is a word character. *)
Definition boundary (l r : option N) : bool := xorb (isword_opt l) (isword_opt r).

Definition at_boundary (c : cursor) : bool :=
  boundary (behind c) (hd_error (ahead c)).

Fixpoint sre_match (r : regex) (c : cursor) (ms : marks) (k : cont) : outcome :=
  match r with
  | Empty => k c ms
  | LITERAL av =>
    match ahead c with
    | x :: rest => if literal_ignore av x then k (step c x rest) ms else None
    | [] => None
    end
  | IN items =>
    match ahead c with
    | x :: rest => if in_ignore items x then k (step c x rest) ms else None
    | [] => None
    end
  | AT_BOUNDARY => if at_boundary c then k c ms else None
  | Seq r1 r2 => sre_match r1 c ms (fun c' ms' => sre_match r2 c' ms' k)
  | BRANCH r1 r2 =>
    match sre_match r1 c ms k with
    | Some res => Some res
    | None => sre_match r2 c ms k
    end
  | MAX_REPEAT lo hi r' =>
    repeat_min (sre_match r') lo c ms (fun c1 ms1 =>
      repeat_max (sre_match r')
        (match hi with Some h => h - lo | None => length (ahead c1) end)%nat
        c1 ms1 k)
  | SUBPATTERN g r' =>
    sre_match r' c ms (fun c' ms' => k c' ((g, (pos c, pos c')) :: ms'))
  end.

(** A match object: the text, the span of the whole match and the
    spans of the groups that took part. *)
Record match_object := { m_string : str; m_start : nat; m_end : nat; m_marks : marks }.

Definition accept : cont := fun c ms => Some (c, ms).

Definition match_at (p : regex) (text : str) (c : cursor) : option match_object :=
  match sre_match p c [] accept with
  | Some (c', ms) =>
    Some {| m_string := text; m_start := pos c; m_end := pos c'; m_marks := ms |}
  | None => None
  end.

(** [re.search]: the first start, from the left, at which the pattern
    matches; the end of the text is a start too. *)
Fixpoint search_from (p : regex) (text : str) (i : nat) (prev : option N) (rest : str)
  : option match_object :=
  match match_at p text {| pos := i; behind := prev; ahead := rest |} with
  | Some m => Some m
  | None =>
    match rest with
    | [] => None
    | x :: rest' => search_from p text (S i) (Some x) rest'
    end
  end.

Definition re_search (p : regex) (text : str) : option match_object :=
  search_from p text 0 None text.

(** [m.group(g)] for [g >= 1]; [None] when the group took no part. *)
Definition group (m : match_object) (g : nat) : option str :=
  match lookup g (m_marks m) with
  | Some (a, b) => Some (slice (m_string m) a b)
  | None => None
  end.
End Sre.

(** Pattern syntax. *)
Definition ch (a : ascii) : N := N_of_ascii a.
Arguments ch a%_char.

Definition Optional (r : regex) : regex := MAX_REPEAT 0 (Some 1%nat) r.   (* r? *)
Definition Star (r : regex) : regex := MAX_REPEAT 0 None r.               (* r* *)
Definition Plus (r : regex) : regex := MAX_REPEAT 1 None r.               (* r+ *)
Definition Space : set_item := SET_CATEGORY CATEGORY_SPACE.               (* \s *)
Definition Digit : set_item := SET_CATEGORY CATEGORY_DIGIT.               (* \d *)
Definition Word : set_item := SET_CATEGORY CATEGORY_WORD.                 (* \w *)

Declare Scope regex_scope.
Delimit Scope regex_scope with re.
Notation "r1 ';;' r2" := (Seq r1 r2) (at level 61, right associativity) : regex_scope.

(* ================================================================= *)
(** ** Exceptions *)

Inductive exn := Exception (message : str).

Definition str_of_exn (e : exn) : str := match e with Exception m => m end.

Inductive result (A : Type) :=
| Ok (a : A)
| Raise (e : exn).
Arguments Ok {A} a.
Arguments Raise {A} e.

Definition bind {A B : Type} (x : result A) (f : A -> result B) : result B :=
  match x with
  | Ok a => f a
  | Raise e => Raise e
  end.

Notation "x <- e1 ; e2" := (bind e1 (fun x => e2))
  (at level 100, e1 at next level, right associativity).

(** What [None.upper()] raises. *)
Definition AttributeError_upper : exn :=
  Exception (py "'NoneType' object has no attribute 'upper'").

(* ================================================================= *)
(** ** Extraction and validation functions *)

Section Extraction.
Context {U : UnicodeData}.
Local Open Scope regex_scope.

Definition exam_keywords : list str :=
  [py "exame"; py "resultado de"; py "hemograma"; py "ressonância magnética";
   py "raio-x"; py "tomografia"].

Definition report_keywords : list str :=
  [py "laudo"; py "atestado"; py "relatório médico"; py "declaração"].

Definition classify_document (text : str) : str :=
  let lower_text := py_lower text in
  if existsb (fun word => str_in word lower_text) exam_keywords then
    if existsb (fun word => str_in word lower_text) report_keywords then
      py "Laudo com Exame"
    else py "Exame"
  else if existsb (fun word => str_in word lower_text) report_keywords then
    py "Laudo"
  else py "Desconhecido".

(** [cid[-\s]?10?\s*[:\-\s]?\s*([a-zA-Z]\d{1,2}(\.\d{1,2})?)] *)
Definition cid_code : regex :=
  IN [SET_RANGE (ch "a") (ch "z"); SET_RANGE (ch "A") (ch "Z")] ;;
  MAX_REPEAT 1 (Some 2%nat) (IN [Digit]) ;;
  Optional (SUBPATTERN 2 (LITERAL (ch ".") ;; MAX_REPEAT 1 (Some 2%nat) (IN [Digit]))).

Definition cid_pattern : regex :=
  literals (py "cid") ;;
  Optional (IN [SET_LITERAL (ch "-"); Space]) ;;
  LITERAL (ch "1") ;;
  Optional (LITERAL (ch "0")) ;;
  Star (IN [Space]) ;;
  Optional (IN [SET_LITERAL (ch ":"); SET_LITERAL (ch "-"); Space]) ;;
  Star (IN [Space]) ;;
  SUBPATTERN 1 cid_code.

Definition extract_cid (text : str) : result (option str) :=
  match re_search cid_pattern text with
  | Some m =>
    match group m 1 with
    | Some code => Ok (Some (py_upper code))
    | None => Raise AttributeError_upper
    end
  | None => Ok None
  end.

(** [\b(CRM|CRP|CREFITO|CRO|COREN)\b[\s/]*([A-Z]{2})?[\s/]*(\d+)] *)
Definition registry_types : regex :=
  BRANCH (literals (py "CRM"))
 (BRANCH (literals (py "CRP"))
 (BRANCH (literals (py "CREFITO"))
 (BRANCH (literals (py "CRO"))
         (literals (py "COREN"))))).

Definition pattern : regex :=
  AT_BOUNDARY ;;
  SUBPATTERN 1 registry_types ;;
  AT_BOUNDARY ;;
  Star (IN [Space; SET_LITERAL (ch "/")]) ;;
  Optional (SUBPATTERN 2 (MAX_REPEAT 2 (Some 2%nat) (IN [SET_RANGE (ch "A") (ch "Z")]))) ;;
  Star (IN [Space; SET_LITERAL (ch "/")]) ;;
  SUBPATTERN 3 (Plus (IN [Digit])).

(** A value inside an f-string: [None] prints as its name. *)
Definition format (o : option str) : str :=
  match o with Some s => s | None => py "None" end.

Definition extract_registry (text : str) : result (option str * option str) :=
  match re_search pattern text with
  | Some m =>
    let registry_type := group m 1 in
    let state := group m 2 in
    let number := group m 3 in
    match registry_type with
    | Some t =>
      let registry_str :=
        py_upper t ++ py "/"
        ++ (if truthy state then py_upper (format state) else [])
        ++ py " " ++ format number in
      let status := py "Ativo" in
      Ok (Some registry_str, Some status)
    | None => Raise AttributeError_upper
    end
  | None => Ok (None, None)
  end.

Definition keywords : list str :=
  [py "afastamento"; py "repouso"; py "suspensão de suas atividades";
   py "impossibilitado de comparecer"; py "afastar-se"].

(** [r'\b' + keyword + r'\b']: the keywords hold no character that is
    special in a pattern, so each parses as a run of literals. *)
Definition keyword_pattern (keyword : str) : regex :=
  AT_BOUNDARY ;; literals keyword ;; AT_BOUNDARY.

Definition check_afastamento (text : str) : bool :=
  existsb (fun keyword =>
             match re_search (keyword_pattern keyword) text with
             | Some _ => true
             | None => false
             end) keywords.

(** [ass\w*:] *)
Definition signature_pattern : regex :=
  literals (py "ass") ;; Star (IN [Word]) ;; LITERAL (ch ":").

Definition check_signature (text : str) : bool :=
  match re_search signature_pattern text with
  | Some _ => true
  | None => false
  end.

(* =============================================================== *)
(** ** The application *)

(** The dictionary [results] of [display_uploader]. *)
Record analysis := {
  doc_type : str;
  cid : option str;
  registry_info : option str * option str;
  afastamento : bool;
  signature : bool;
  raw_text : str
}.

Definition analyse (text : str) : result analysis :=
  let doc_type := classify_document text in
  cid <- extract_cid text;
  registry_info <- extract_registry text;
  Ok {| doc_type := doc_type; cid := cid; registry_info := registry_info;
        afastamento := check_afastamento text;
        signature := check_signature text;
        raw_text := text |}.

(** [st.session_state], once its three entries exist. *)
Record session_state := {
  analysis_complete : bool;
  results : option analysis;
  error_message : option str
}.

Definition initial_state : session_state :=
  {| analysis_complete := false; results := None; error_message := None |}.

(** What a run of the script leaves: the session state, the banner it
    drew, and whether it asked to be run again. *)
Inductive banner := Success (msg : str) | Error (msg : str).

Record run := { state : session_state; shown : option banner; rerun : bool }.

(** The approval rules of [display_results]. *)
Definition is_valid_type (res : analysis) : bool :=
  existsb (str_eqb (doc_type res)) [py "Laudo"; py "Laudo com Exame"].

Definition is_active_registry (res : analysis) : bool :=
  let '(registry, registry_status) := registry_info res in
  match registry_status with
  | Some s => str_eqb s (py "Ativo")
  | None => false
  end.

(** [all([is_valid_type, res['cid'], is_active_registry,
          res['afastamento'], res['signature']])] *)
Definition is_approved (res : analysis) : bool :=
  forallb (fun b : bool => b)
    [is_valid_type res; truthy (cid res); is_active_registry res;
     afastamento res; signature res].

(** [button] tells whether "Analisar Novo Documento" was pressed. *)
Definition display_results (ss : session_state) (button : bool) : option run :=
  match results ss with
  | None => None   (* [res['registry_info']] on [None] *)
  | Some res =>
    let verdict :=
      if is_approved res
      then Success (py "**APROVADO:** O trancamento pode seguir.")
      else Error (py "**REPROVADO:** O documento possui pendências.") in
    if button
    then Some {| state := initial_state; shown := Some verdict; rerun := true |}
    else Some {| state := ss; shown := Some verdict; rerun := false |}
  end.

(** The marks and the words of the checklist. *)
Definition tick (b : bool) : str := if b then py "✅" else py "❌".

Definition found (b : bool) : str := if b then py "Encontrada" else py "Não encontrada".

(** The markdown that [display_results] draws under the banner: the
    f-string of the checklist, a line feed and four spaces before each
    item and after the last one. *)
Definition checklist (res : analysis) : str :=
  let '(registry, registry_status) := registry_info res in
  [10%N] ++ py "    - " ++ tick (is_valid_type res)
    ++ py " **Tipo de Documento:** " ++ doc_type res ++
  [10%N] ++ py "    - " ++ tick (truthy (cid res))
    ++ py " **Diagnóstico (CID):** "
    ++ (if truthy (cid res) then format (cid res) else py "Não encontrado") ++
  [10%N] ++ py "    - " ++ tick (is_active_registry res)
    ++ py " **Registro Profissional:** "
    ++ (if truthy registry
        then format registry ++ py " (Status: " ++ format registry_status ++ py ")"
        else py "Não encontrado") ++
  [10%N] ++ py "    - " ++ tick (afastamento res)
    ++ py " **Indicação de Afastamento:** " ++ found (afastamento res) ++
  [10%N] ++ py "    - " ++ tick (signature res)
    ++ py " **Assinatura do Responsável:** " ++ found (signature res) ++
  [10%N] ++ py "    ".

Section Collaborators.
(** The uploaded file, the image library and the OCR engine are
    outside the program; opening and reading may raise. *)
Variables file image : Type.
Variable Image_open : file -> result image.
Variable image_to_string : image -> result str.

Definition display_uploader (ss : session_state) (uploaded_file : option file) : run :=
  match uploaded_file with
  | Some f =>
    let attempt :=
      image <- Image_open f;
      text <- image_to_string image;
      analyse text in
    match attempt with
    | Ok results =>
      {| state := {| analysis_complete := true;
                     results := Some results;
                     error_message := None |};
         shown := None; rerun := true |}
    | Raise e =>
      {| state := {| analysis_complete := analysis_complete ss;
                     results := results ss;
                     error_message :=
                       Some (py "Ocorreu um erro ao processar o arquivo: "
                             ++ str_of_exn e) |};
         shown := None; rerun := true |}
    end
  | None =>
    {| state := ss;
       shown := match error_message ss with
                | Some ((_ :: _) as msg) => Some (Error msg)
                | _ => None
                end;
       rerun := false |}
  end.

(** One run of [main]; [session] is [None] before the first run. *)
Definition main (session : option session_state)
           (uploaded_file : option file) (button : bool) : option run :=
  let ss := match session with Some ss => ss | None => initial_state end in
  if analysis_complete ss
  then display_results ss button
  else Some (display_uploader ss uploaded_file).
End Collaborators.
End Extraction.

(* ================================================================= *)
(** ** A concrete database: Latin-1 *)

(** The rows of the Unicode database for the Latin-1 Supplement
    (U+0080..U+00FF) and for the code points beyond it that the case
    mappings of Latin-1 and ASCII letters lead to; every other code
    point is left as unassigned.  It serves to run the program on
    Portuguese text. *)
Definition latin1_letter (c : N) : bool :=
  between 0xC0 0xFF c && negb (c =? 0xD7) && negb (c =? 0xF7).

Definition latin1_beyond : list N := [0x130; 0x131; 0x178; 0x17F; 0x39C; 0x3BC; 0x212A].

Definition latin1_tolower (c : N) : N :=
  if between 0xC0 0xDE c && negb (c =? 0xD7) then c + 32
  else if c =? 0x130 then 0x69
  else if c =? 0x178 then 0xFF
  else if c =? 0x39C then 0x3BC
  else if c =? 0x212A then 0x6B
  else c.

Definition latin1_toupper (c : N) : N :=
  if between 0xE0 0xFE c && negb (c =? 0xF7) then c - 32
  else if c =? 0xB5 then 0x39C
  else if c =? 0xFF then 0x178
  else if c =? 0x131 then 0x49
  else if c =? 0x17F then 0x53
  else if c =? 0x3BC then 0x39C
  else c.

Definition latin1 : UnicodeData := {|
  uc_isalnum c :=
    mem c [0xAA; 0xB2; 0xB3; 0xB5; 0xB9; 0xBA; 0xBC; 0xBD; 0xBE]
    || latin1_letter c || mem c latin1_beyond;
  uc_isdecimal c := false;
  uc_isspace c := mem c [0x85; 0xA0];
  uc_tolower := latin1_tolower;
  uc_toupper := latin1_toupper;
  uc_tolower_full c := if c =? 0x130 then [0x69; 0x307] else [latin1_tolower c];
  uc_toupper_full c := if c =? 0xDF then [0x53; 0x53] else [latin1_toupper c];
  uc_iscased c := mem c [0xAA; 0xB5; 0xBA] || latin1_letter c || mem c latin1_beyond;
  uc_iscaseignorable c := mem c [0xA8; 0xAD; 0xAF; 0xB4; 0xB7; 0xB8; 0x307];
  uc_extra_cases lo :=
    if lo =? 0xB5 then [0x3BC]
    else if lo =? 0x131 then [0x69]
    else if lo =? 0x17F then [0x73]
    else if lo =? 0x3BC then [0xB5]
    else []
|}.

(* ================================================================= *)
(** ** Concrete inputs *)

(** The scenario of the specification. *)
Definition scenario : str :=
  py "LAUDO MÉDICO ... CID-10: J45.0 ... CRM/RJ 98765 ... paciente necessita de afastamento ... Assinatura: Dr. Silva".

Definition scenario_without_cid : str :=
  py "LAUDO MÉDICO ... CRM/RJ 98765 ... paciente necessita de afastamento ... Assinatura: Dr. Silva".

(** The result of the scenario, with a registry that is not active. *)
Definition inactive_record : analysis :=
  {| doc_type := py "Laudo"; cid := Some (py "J45.0");
     registry_info := (Some (py "CRM/RJ 98765"), Some (py "Inativo"));
     afastamento := true; signature := true; raw_text := scenario |}.

(** An uploader whose file is readable or not, and an OCR engine that
    reads what the image says. *)
Definition demo_open (readable : bool) : result str :=
  if readable then Ok scenario
  else Raise (Exception (py "cannot identify image file")).

Definition demo_ocr (image : str) : result str := Ok image.

(* ================================================================= *)
(** ** What a pattern denotes *)

(** The code point to the left once [w] has been read. *)
Fixpoint last_char (l : option N) (w : str) : option N :=
  match w with
  | [] => l
  | c :: w' => last_char (Some c) w'
  end.

Section Iter.
Variable P : option N -> str -> str -> Prop.

(** [n] rounds of [P] in a row; when [strict], none of them empty. *)
Fixpoint Iter (strict : bool) (n : nat) (l : option N) (w rt : str) : Prop :=
  match n with
  | O => w = []
  | S n' =>
    exists w1 w2,
      w = w1 ++ w2 /\ (strict = true -> w1 <> []) /\
      P l w1 (w2 ++ rt) /\ Iter strict n' (last_char l w1) w2 rt
  end.
End Iter.

Section Language.
Context {U : UnicodeData}.

(** [Matches r l w rt]: the pattern [r] matches the word [w] when the
    code point before it is [l] and the text goes on with [rt]. *)
Fixpoint Matches (r : regex) (l : option N) (w rt : str) : Prop :=
  match r with
  | Empty => w = []
  | LITERAL av => exists c, w = [c] /\ literal_ignore av c = true
  | IN items => exists c, w = [c] /\ in_ignore items c = true
  | AT_BOUNDARY => w = [] /\ boundary l (hd_error rt) = true
  | Seq r1 r2 =>
    exists w1 w2,
      w = w1 ++ w2 /\ Matches r1 l w1 (w2 ++ rt) /\ Matches r2 (last_char l w1) w2 rt
  | BRANCH r1 r2 => Matches r1 l w rt \/ Matches r2 l w rt
  | MAX_REPEAT lo hi r' =>
    exists w1 w2 n,
      w = w1 ++ w2 /\
      Iter (Matches r') false lo l w1 (w2 ++ rt) /\
      match hi with Some h => (n <= h - lo)%nat | None => True end /\
      Iter (Matches r') true n (last_char l w1) w2 rt
  | SUBPATTERN _ r' => Matches r' l w rt
  end.

(** The pattern matches somewhere in the text: [w], between [pre]
    and [post]. *)
Definition Occurs (r : regex) (pre w post : str) : Prop :=
  Matches r (last_char None pre) w post.

(** Two words of the same length that agree up to the case of
    their letters, as IGNORECASE compares a literal. *)
Definition same_ignore (kw w : str) : Prop := Forall2 (fun av c => literal_ignore av c = true) kw w.
End Language.

(** The cursor reached from [c] by reading [w]. *)
Definition reaches (c : cursor) (w : str) (c' : cursor) : Prop :=
  ahead c = w ++ ahead c' /\
  pos c' = (length w + pos c)%nat /\
  behind c' = last_char (behind c) w.

(** Marks are only ever added. *)
Definition extends (ms ms' : marks) : Prop := exists l, ms' = l ++ ms.

(* ================================================================= *)
(** ** The vocabulary of the statements *)

Section Vocabulary.
Context {U : UnicodeData}.
Local Open Scope nat_scope.

(** [p] is a substring of [s]. *)
Definition Contains (p s : str) : Prop := exists pre post, s = pre ++ p ++ post.

(** The cursor is a position of [text]. *)
Definition valid (text : str) (c : cursor) : Prop :=
  exists before, text = before ++ ahead c /\ pos c = length before.

(** The cursor between [before] and [rest]. *)
Definition cursor_at (before rest : str) : cursor :=
  {| pos := length before; behind := last_char None before; ahead := rest |}.

(** [body] only succeeds by reading a word of [P] and handing over
    to its continuation. *)
Definition sound_body (P : option N -> str -> str -> Prop)
           (body : cursor -> marks -> cont -> outcome) : Prop :=
  forall c ms k res,
    body c ms k = Some res ->
    exists w c' ms',
      P (behind c) w (ahead c') /\ reaches c w c' /\ extends ms ms' /\
      k c' ms' = Some res.

(** [body] succeeds on every word of [P] after which its
    continuation cannot fail. *)
Definition complete_body (P : option N -> str -> str -> Prop)
           (body : cursor -> marks -> cont -> outcome) : Prop :=
  forall l w rt c ms k,
    P l w rt -> behind c = l -> ahead c = w ++ rt ->
    (forall c' ms', reaches c w c' -> ahead c' = rt -> k c' ms' <> None) ->
    body c ms k <> None.

(** An [AnalysisResult] as the data model has it: the code is absent
    or a string that is not empty, and the registry is absent, label
    and status, or a label with whatever status. *)
Definition well_formed (res : analysis) : Prop :=
  (cid res = None \/ exists x code, cid res = Some (x :: code)) /\
  (registry_info res = (None, None) \/
   exists registry status, registry_info res = (Some registry, status)).

(** One of the keywords is a substring of the lower-cased text. *)
Definition mentions (kws : list str) (text : str) : Prop :=
  exists kw, In kw kws /\ Contains kw (py_lower text).

(** [w] is [kw] up to the case of ASCII letters. *)
Definition ascii_caseless (kw w : str) : Prop :=
  Forall (fun c => (c < 128)%N) w /\ map ascii_tolower w = kw.

(** The keyword occurs as [w], and is set off by a word boundary on
    each side. *)
Definition standalone (pre w post : str) : Prop :=
  boundary (last_char None pre) (hd_error (w ++ post)) = true /\
  boundary (last_char None (pre ++ w)) (hd_error post) = true.

(** The occurrence [w] runs on into a word character on the left or on
    the right: it lies inside a longer word. *)
Definition inside_word (pre w post : str) : Prop :=
  isword_opt (last_char None pre) = true /\ isword_opt (hd_error w) = true \/
  isword_opt (last_char None w) = true /\ isword_opt (hd_error post) = true.

(** The letters a, s, s in any case, then word characters. *)
Definition stem_run (x y z : N) (ws : str) : Prop :=
  literal_ignore (ch "a") x = true /\ literal_ignore (ch "s") y = true /\
  literal_ignore (ch "s") z = true /\ Forall (fun c => sre_isword c = true) ws.

(** A word that begins with the stem and is followed by a colon: the
    letters a, s, s at a word boundary, then word characters, then the
    colon. *)
Definition StemWordColon (text : str) : Prop :=
  exists pre x y z ws post,
    text = pre ++ x :: y :: z :: ws ++ ch ":" :: post /\
    boundary (last_char None pre) (Some x) = true /\ stem_run x y z ws.

(** A pattern that reads one code point, accepted by the test [t]. *)
Definition single (t : N -> bool) (a : regex) : Prop :=
  forall c ms k,
    sre_match a c ms k =
    match ahead c with
    | x :: rest => if t x then k (step c x rest) ms else None
    | [] => None
    end.

(** The cursor after [run], with [rest] still to read. *)
Definition skip (c : cursor) (run rest : str) : cursor :=
  {| pos := length run + pos c; behind := last_char (behind c) run; ahead := rest |}.

(** The text does not go on with a code point that passes [t]. *)
Definition stops (t : N -> bool) (rest : str) : Prop :=
  match rest with
  | [] => True
  | y :: _ => t y = false
  end.

(** [o] is a decimal digit. *)
Definition isdecimal_opt (o : option N) : bool :=
  match o with Some c => isdecimal c | None => false end.

(** The longest run of at most [n] decimal digits at the start of [s]. *)
Fixpoint take_digits (n : nat) (s : str) : str :=
  match n, s with
  | S n', d :: s' => if isdecimal d then d :: take_digits n' s' else []
  | _, _ => []
  end.

(** The fraction at the start of [s]: a dot and one or two digits, or
    nothing. *)
Definition fraction_at (s : str) : str :=
  match s with
  | dot :: s3 =>
    if (dot =? ch ".")%N then
      match take_digits 2 s3 with
      | [] => []
      | fs => dot :: fs
      end
    else []
  | [] => []
  end.

(** The code at the start of [s]: a letter, one or two digits and the
    fraction that follows them. *)
Definition code_at (s : str) : option str :=
  match s with
  | l :: s1 =>
    if ascii_isalpha l then
      match take_digits 2 s1 with
      | [] => None
      | ds => Some (l :: ds ++ fraction_at (skipn (length ds) s1))
      end
    else None
  | [] => None
  end.

Definition cid_fraction : regex :=
  Optional (SUBPATTERN 2 (Seq (LITERAL (ch ".")) (MAX_REPEAT 1 (Some 2) (IN [Digit])))).

(** Nothing, or one code point that passes [t]. *)
Definition optional_of (t : N -> bool) (s : str) : Prop :=
  s = [] \/ exists x, s = [x] /\ t x = true.

Definition spaces (s : str) : Prop := Forall (fun x => isspace x = true) s.

Definition dash_or_space (x : N) : bool := (x =? ch "-")%N || isspace x.

Definition separator (x : N) : bool := (x =? ch ":")%N || (x =? ch "-")%N || isspace x.

(** The pattern as the specification words it, read so that its own
    example "CID-10: M54.5" is of the shape: the marker, optionally
    "-10" or "10", separators (colons, dashes, white space), the code. *)
Definition cid_claimed : regex :=
  Seq (literals (py "cid"))
 (Seq (Optional (BRANCH (literals (py "-10")) (literals (py "10"))))
 (Seq (Star (IN [SET_LITERAL (ch ":"); SET_LITERAL (ch "-"); Space]))
      (SUBPATTERN 1 cid_code))).

(** The pattern with the digits 1 and 0 each left optional. *)
Definition cid_relaxed : regex :=
  Seq (literals (py "cid"))
 (Seq (Optional (IN [SET_LITERAL (ch "-"); Space]))
 (Seq (Optional (LITERAL (ch "1")))
 (Seq (Optional (LITERAL (ch "0")))
 (Seq (Star (IN [Space]))
 (Seq (Optional (IN [SET_LITERAL (ch ":"); SET_LITERAL (ch "-"); Space]))
 (Seq (Star (IN [Space]))
      (SUBPATTERN 1 cid_code))))))).

(** No match of [p] starts in [text] before the end of [pre]. *)
Definition first_start (p : regex) (text pre : str) : Prop :=
  forall pre' w' post',
    text = pre' ++ w' ++ post' -> Occurs p pre' w' post' -> length pre <= length pre'.

(** [same_ignore], decided. *)
Fixpoint same_ignore_b (kw w : str) : bool :=
  match kw, w with
  | [], [] => true
  | av :: kw', c :: w' => literal_ignore av c && same_ignore_b kw' w'
  | _, _ => false
  end.
End Vocabulary.

(* ================================================================= *)
(** ** The vocabulary of the further properties *)

Local Open Scope nat_scope.


(** The pattern has no group. *)
Fixpoint plain (r : regex) : bool :=
  match r with
  | Seq r1 r2 | BRANCH r1 r2 => plain r1 && plain r2
  | MAX_REPEAT _ _ r' => plain r'
  | SUBPATTERN _ _ => false
  | _ => true
  end.

(** [body] only succeeds by reading a word of [P] and handing over to
    its continuation with the marks it was given. *)
Definition plain_body (P : option N -> str -> str -> Prop)
           (body : cursor -> marks -> cont -> outcome) : Prop :=
  forall c ms k res,
    body c ms k = Some res ->
    exists w c', P (behind c) w (ahead c') /\ reaches c w c' /\ k c' ms = Some res.


(** Two code points that are equal, or ASCII letters that differ in
    case only. *)
Definition same_letter (a b : N) : Prop :=
  a = b \/ ((a < 128)%N /\ (b < 128)%N /\ ascii_tolower a = ascii_tolower b).

(** Two texts that differ in the case of ASCII letters only. *)
Definition same_text (s t : str) : Prop := Forall2 same_letter s t.

(** [same_text], decided. *)
Definition same_letter_b (a b : N) : bool :=
  (a =? b)%N || ((a <? 128)%N && (b <? 128)%N && (ascii_tolower a =? ascii_tolower b)%N).

Fixpoint same_text_b (s t : str) : bool :=
  match s, t with
  | [], [] => true
  | a :: s', b :: t' => same_letter_b a b && same_text_b s' t'
  | _, _ => false
  end.

(** The character sets of a pattern. *)
Fixpoint sets_of (r : regex) : list (list set_item) :=
  match r with
  | IN items => [items]
  | Seq r1 r2 | BRANCH r1 r2 => sets_of r1 ++ sets_of r2
  | MAX_REPEAT _ _ r' | SUBPATTERN _ r' => sets_of r'
  | _ => []
  end.

(** The code points behind two such cursors. *)
Definition sim_behind (o1 o2 : option N) : Prop :=
  match o1, o2 with
  | Some a, Some b => same_letter a b
  | None, None => True
  | _, _ => False
  end.

(** Two cursors at the same position of two such texts. *)
Definition sim_cursor (c1 c2 : cursor) : Prop :=
  pos c1 = pos c2 /\ sim_behind (behind c1) (behind c2) /\ same_text (ahead c1) (ahead c2).

(** Two outcomes: both fail, or both end at the same position with
    the same marks. *)
Definition sim_outcome (o1 o2 : outcome) : Prop :=
  match o1, o2 with
  | Some (c1, m1), Some (c2, m2) => sim_cursor c1 c2 /\ m1 = m2
  | None, None => True
  | _, _ => False
  end.

(** Continuations, and matchers, that treat two such cursors alike. *)
Definition sim_cont (k1 k2 : cont) : Prop :=
  forall c1 c2 ms, sim_cursor c1 c2 -> sim_outcome (k1 c1 ms) (k2 c2 ms).

Definition sim_body (b1 b2 : cursor -> marks -> cont -> outcome) : Prop :=
  forall c1 c2 ms k1 k2,
    sim_cursor c1 c2 -> sim_cont k1 k2 -> sim_outcome (b1 c1 ms k1) (b2 c2 ms k2).

(** Two match objects with the same spans. *)
Definition sim_match (t1 t2 : str) (o1 o2 : option match_object) : Prop :=
  match o1, o2 with
  | Some m1, Some m2 =>
    m_string m1 = t1 /\ m_string m2 = t2 /\ m_start m1 = m_start m2 /\
    m_end m1 = m_end m2 /\ m_marks m1 = m_marks m2
  | None, None => True
  | _, _ => False
  end.


(** An ASCII white-space character or a slash. *)
Definition ascii_sep (c : N) : bool := ascii_isspace c || (c =? ch "/")%N.

(** A text of ASCII code points. *)
Definition is_ascii (s : str) : Prop := Forall (fun c => (c < 128)%N) s.

Section Pieces.
Context {U : UnicodeData}.

(** The tokens of the registry pattern. *)
Definition registry_tokens : list str :=
  [py "CRM"; py "CRP"; py "CREFITO"; py "CRO"; py "COREN"].

(** A code point that [[A-Z]] accepts under IGNORECASE. *)
Definition state_letter (c : N) : bool := in_ignore [SET_RANGE (ch "A") (ch "Z")] c.

(** A code point that [[a-zA-Z]] accepts under IGNORECASE. *)
Definition code_letter (c : N) : bool :=
  in_ignore [SET_RANGE (ch "a") (ch "z"); SET_RANGE (ch "A") (ch "Z")] c.

(** A code point that [[\s/]] accepts. *)
Definition space_or_slash (c : N) : bool := in_ignore [Space; SET_LITERAL (ch "/")] c.

(** One or two decimal digits. *)
Definition digits12 (ds : str) : Prop :=
  1 <= length ds <= 2 /\ Forall (fun c => isdecimal c = true) ds.

(** The pattern matches somewhere in the text. *)
Definition occurs_in (p : regex) (text : str) : Prop :=
  exists pre w post, text = pre ++ w ++ post /\ Occurs p pre w post.

(** Every set of the pattern takes an ASCII code point as it takes
    its lower case. *)
Definition case_blind (r : regex) : bool :=
  forallb (fun items =>
             forallb (fun c => Bool.eqb (in_ignore items c)
                                        (in_ignore items (ascii_tolower c)))
                     (N_range 0 127))
          (sets_of r).
End Pieces.

(** *** The checklist *)

(** One item of the checklist: the mark, the title and the value. *)
Definition item (ok : bool) (title value : str) : str :=
  [10%N] ++ py "    - " ++ tick ok ++ py " **" ++ title ++ py ":** " ++ value.

Definition present (o : option str) : bool :=
  match o with Some _ => true | None => false end.

(** The value of an item: what was found, or "Não encontrado". *)
Definition value_of (o : option str) : str :=
  match o with Some s => s | None => py "Não encontrado" end.

(** *** Runs of the script *)

Section Runs.
Context {U : UnicodeData}.
Variables file image : Type.
Variable Image_open : file -> result image.
Variable image_to_string : image -> result str.

(** The session a run starts from: a fresh one gets the three entries. *)
Definition entries (session : option session_state) : session_state :=
  match session with Some ss => ss | None => initial_state end.

(** The sessions that runs of the script lead to, from a fresh one. *)
Inductive reachable : option session_state -> Prop :=
| reachable_fresh : reachable None
| reachable_run session uploaded_file button r :
    reachable session ->
    main Image_open image_to_string session uploaded_file button = Some r ->
    reachable (Some (state r)).

(** The results come from a file that opened and read well. *)
Definition from_upload (res : analysis) : Prop :=
  exists f img text,
    Image_open f = Ok img /\ image_to_string img = Ok text /\ analyse text = Ok res.

(** The flag is set exactly when results are stored, and stored
    results come from an upload and leave no error message. *)
Definition settled (ss : session_state) : Prop :=
  match results ss with
  | Some res => analysis_complete ss = true /\ error_message ss = None /\ from_upload res
  | None => analysis_complete ss = false
  end.

(** The banner of [display_results]. *)
Definition verdict (res : analysis) : banner :=
  if is_approved res
  then Success (py "**APROVADO:** O trancamento pode seguir.")
  else Error (py "**REPROVADO:** O documento possui pendências.").
End Runs.

(** The session after a readable file has been analysed. *)
Definition demo_session : session_state :=
  state (@display_uploader latin1 bool str demo_open demo_ocr initial_state (Some true)).

(* ================================================================= *)
(** * Properties *)

Local Open Scope nat_scope.

(** ** Cursors and marks *)

Lemma last_char_app l w1 w2 :
  last_char l (w1 ++ w2) = last_char (last_char l w1) w2.
Proof. revert l; induction w1 as [|x w1 IH]; intro l; simpl; auto. Qed.

Lemma reaches_refl c : reaches c [] c.
Proof. repeat split. Qed.

Lemma reaches_trans c w1 c1 w2 c2 :
  reaches c w1 c1 -> reaches c1 w2 c2 -> reaches c (w1 ++ w2) c2.
Proof.
  intros (Ha & Hp & Hb) (Ha' & Hp' & Hb'). repeat split.
  - rewrite Ha, Ha'. apply app_assoc.
  - rewrite Hp', Hp, length_app. lia.
  - rewrite Hb', Hb. symmetry. apply last_char_app.
Qed.

Lemma reaches_step c x rest :
  ahead c = x :: rest -> reaches c [x] (step c x rest).
Proof. intro H. repeat split. exact H. Qed.

Lemma reaches_shorter c w c' :
  reaches c w c' -> w <> [] -> length (ahead c') < length (ahead c).
Proof.
  intros (Ha & _) Hw. rewrite Ha, length_app.
  destruct w; [congruence | simpl; lia].
Qed.

Lemma reaches_same_length c w c' :
  reaches c w c' -> length (ahead c') < length (ahead c) -> w <> [].
Proof.
  intros (Ha & _) Hlt ->. rewrite Ha in Hlt. simpl in Hlt. lia.
Qed.

Lemma extends_refl ms : extends ms ms.
Proof. exists []. reflexivity. Qed.

Lemma extends_trans ms1 ms2 ms3 :
  extends ms1 ms2 -> extends ms2 ms3 -> extends ms1 ms3.
Proof. intros [l ->] [l' ->]. exists (l' ++ l). apply app_assoc. Qed.

Lemma extends_cons ms ms' e : extends ms ms' -> extends ms (e :: ms').
Proof. intros [l ->]. exists (e :: l). reflexivity. Qed.

Lemma lookup_extends g ms ms' sp :
  extends ms ms' -> lookup g ms = Some sp -> exists sp', lookup g ms' = Some sp'.
Proof.
  intros [l ->] H. induction l as [|[g' s'] l IH]; simpl.
  - eauto.
  - destruct (Nat.eqb g g'); eauto.
Qed.

Create HintDb sre.
#[local] Hint Resolve reaches_refl extends_refl extends_cons : sre.

(** ** The matcher finds what the pattern denotes, and nothing else *)

Section MatcherFacts.
Context {U : UnicodeData}.

Lemma repeat_min_sound P body :
  sound_body P body ->
  forall n, sound_body (Iter P false n) (repeat_min body n).
Proof.
  intros Hb n. induction n as [|n IH]; intros c ms k res H; simpl in H.
  - exists [], c, ms. simpl. auto with sre.
  - apply Hb in H. destruct H as (w1 & c1 & ms1 & HP & Hr1 & He1 & H).
    apply IH in H. destruct H as (w2 & c2 & ms2 & HI & Hr2 & He2 & H).
    exists (w1 ++ w2), c2, ms2. split; [|split; [|split]].
    + simpl. exists w1, w2. repeat split.
      * discriminate.
      * destruct Hr2 as (<- & _). exact HP.
      * destruct Hr1 as (_ & _ & <-). exact HI.
    + eapply reaches_trans; eauto.
    + eapply extends_trans; eauto.
    + exact H.
Qed.

Lemma repeat_max_sound P body :
  sound_body P body ->
  forall n c ms k res,
    repeat_max body n c ms k = Some res ->
    exists j w c' ms',
      j <= n /\ Iter P true j (behind c) w (ahead c') /\ reaches c w c' /\
      extends ms ms' /\ k c' ms' = Some res.
Proof.
  intros Hb n. induction n as [|n IH]; intros c ms k res H; simpl in H.
  - exists 0, [], c, ms. simpl. auto with sre.
  - destruct (body c ms _) as [res'|] eqn:E.
    + injection H as ->. apply Hb in E.
      destruct E as (w1 & c1 & ms1 & HP & Hr1 & He1 & H).
      destruct (progress c c1) eqn:Hlt; [|discriminate].
      apply Nat.ltb_lt in Hlt.
      apply IH in H. destruct H as (j & w2 & c2 & ms2 & Hj & HI & Hr2 & He2 & H).
      exists (S j), (w1 ++ w2), c2, ms2. split; [|split; [|split; [|split]]].
      * lia.
      * simpl. exists w1, w2. repeat split.
        -- intros _. eapply reaches_same_length; eauto.
        -- destruct Hr2 as (<- & _). exact HP.
        -- destruct Hr1 as (_ & _ & <-). exact HI.
      * eapply reaches_trans; eauto.
      * eapply extends_trans; eauto.
      * exact H.
    + exists 0, [], c, ms. simpl. split; [lia|]. auto with sre.
Qed.

Theorem sre_match_sound r : sound_body (Matches r) (sre_match r).
Proof.
  induction r as [|av|items| |r1 IH1 r2 IH2|r1 IH1 r2 IH2|lo hi r IH|g r IH];
    intros c ms k res H; simpl in H.
  - exists [], c, ms. simpl. auto with sre.
  - destruct (ahead c) as [|x rest] eqn:E; [discriminate|].
    destruct (literal_ignore av x) eqn:T; [|discriminate].
    exists [x], (step c x rest), ms. repeat split; simpl; eauto with sre.
  - destruct (ahead c) as [|x rest] eqn:E; [discriminate|].
    destruct (in_ignore items x) eqn:T; [|discriminate].
    exists [x], (step c x rest), ms. repeat split; simpl; eauto with sre.
  - destruct (at_boundary c) eqn:T; [|discriminate].
    exists [], c, ms. simpl. auto with sre.
  - apply IH1 in H. destruct H as (w1 & c1 & ms1 & HM1 & Hr1 & He1 & H).
    apply IH2 in H. destruct H as (w2 & c2 & ms2 & HM2 & Hr2 & He2 & H).
    exists (w1 ++ w2), c2, ms2. split; [|split; [|split]].
    + simpl. exists w1, w2. repeat split.
      * destruct Hr2 as (<- & _). exact HM1.
      * destruct Hr1 as (_ & _ & <-). exact HM2.
    + eapply reaches_trans; eauto.
    + eapply extends_trans; eauto.
    + exact H.
  - destruct (sre_match r1 c ms k) as [res'|] eqn:E.
    + injection H as ->. apply IH1 in E.
      destruct E as (w & c' & ms' & HM & Hr & He & H).
      exists w, c', ms'. simpl. auto.
    + apply IH2 in H. destruct H as (w & c' & ms' & HM & Hr & He & H).
      exists w, c', ms'. simpl. auto.
  - apply (repeat_min_sound IH) in H.
    destruct H as (w1 & c1 & ms1 & HI1 & Hr1 & He1 & H).
    apply (repeat_max_sound IH) in H.
    destruct H as (j & w2 & c2 & ms2 & Hj & HI2 & Hr2 & He2 & H).
    exists (w1 ++ w2), c2, ms2. split; [|split; [|split]].
    + simpl. exists w1, w2, j. repeat split.
      * destruct Hr2 as (<- & _). exact HI1.
      * destruct hi; [exact Hj | exact I].
      * destruct Hr1 as (_ & _ & <-). exact HI2.
    + eapply reaches_trans; eauto.
    + eapply extends_trans; eauto.
    + exact H.
  - apply IH in H. destruct H as (w & c' & ms' & HM & Hr & He & H).
    exists w, c', ((g, (pos c, pos c')) :: ms'). simpl. auto with sre.
Qed.
Lemma Iter_strict_length P n l w rt : Iter P true n l w rt -> n <= length w.
Proof.
  revert l w. induction n as [|n IH]; intros l w H; simpl in H.
  - lia.
  - destruct H as (w1 & w2 & -> & Hne & _ & H). apply IH in H.
    rewrite length_app. destruct w1; [exfalso; apply Hne; reflexivity | simpl; lia].
Qed.

Lemma repeat_min_complete P body :
  complete_body P body ->
  forall n, complete_body (Iter P false n) (repeat_min body n).
Proof.
  intros Hb n. induction n as [|n IH]; intros l w rt c ms k H Hl Ha Hk; simpl in *.
  - subst w. apply Hk; auto with sre.
  - destruct H as (w1 & w2 & -> & _ & HP & HI).
    rewrite <- app_assoc in Ha.
    apply (Hb l w1 (w2 ++ rt)); auto.
    intros c1 ms1 Hr1 Ha1.
    apply (IH (last_char l w1) w2 rt); auto.
    + destruct Hr1 as (_ & _ & ->). congruence.
    + intros c2 ms2 Hr2 Ha2. apply Hk; auto. eapply reaches_trans; eauto.
Qed.

Lemma repeat_max_complete P body :
  complete_body P body ->
  forall n j l w rt c ms k,
    j <= n -> Iter P true j l w rt -> behind c = l -> ahead c = w ++ rt ->
    (forall c' ms', reaches c w c' -> ahead c' = rt -> k c' ms' <> None) ->
    repeat_max body n c ms k <> None.
Proof.
  intros Hb n. induction n as [|n IH]; intros j l w rt c ms k Hj H Hl Ha Hk.
  - assert (j = 0) by lia. subst j. simpl in *. subst w. apply Hk; auto with sre.
  - simpl. destruct j as [|j]; simpl in H.
    + subst w. destruct (body c ms _); [discriminate|]. apply Hk; auto with sre.
    + destruct H as (w1 & w2 & -> & Hne & HP & HI).
      rewrite <- app_assoc in Ha.
      match goal with |- context [body c ms ?k1] =>
        assert (Hbody : body c ms k1 <> None) end.
      { apply (Hb l w1 (w2 ++ rt)); auto.
        intros c1 ms1 Hr1 Ha1.
        assert (Hlt : length (ahead c1) < length (ahead c))
          by (eapply reaches_shorter; eauto).
        apply Nat.ltb_lt in Hlt. fold (progress c c1) in Hlt. rewrite Hlt.
        apply (IH j (last_char l w1) w2 rt); auto; try lia.
        - destruct Hr1 as (_ & _ & ->). congruence.
        - intros c2 ms2 Hr2 Ha2. apply Hk; auto. eapply reaches_trans; eauto. }
      destruct (body c ms _); [discriminate | congruence].
Qed.

Theorem sre_match_complete r : complete_body (Matches r) (sre_match r).
Proof.
  induction r as [|av|items| |r1 IH1 r2 IH2|r1 IH1 r2 IH2|lo hi r IH|g r IH];
    intros l w rt c ms k H Hl Ha Hk; simpl in *.
  - subst w. apply Hk; auto with sre.
  - destruct H as (x & -> & T). simpl in Ha. rewrite Ha, T.
    apply Hk; auto. apply reaches_step; auto.
  - destruct H as (x & -> & T). simpl in Ha. rewrite Ha, T.
    apply Hk; auto. apply reaches_step; auto.
  - destruct H as (-> & T). simpl in Ha. unfold at_boundary. rewrite Hl, Ha, T.
    apply Hk; auto with sre.
  - destruct H as (w1 & w2 & -> & H1 & H2). rewrite <- app_assoc in Ha.
    apply (IH1 l w1 (w2 ++ rt)); auto.
    intros c1 ms1 Hr1 Ha1.
    apply (IH2 (last_char l w1) w2 rt); auto.
    + destruct Hr1 as (_ & _ & ->). congruence.
    + intros c2 ms2 Hr2 Ha2. apply Hk; auto. eapply reaches_trans; eauto.
  - destruct H as [H|H].
    + pose proof (IH1 l w rt c ms k H Hl Ha Hk) as Hm.
      destruct (sre_match r1 c ms k); [discriminate | congruence].
    + destruct (sre_match r1 c ms k); [discriminate|].
      apply (IH2 l w rt); auto.
  - destruct H as (w1 & w2 & n & -> & HI1 & Hn & HI2). rewrite <- app_assoc in Ha.
    apply repeat_min_complete with (P := Matches r) (l := l) (w := w1) (rt := w2 ++ rt); auto.
    intros c1 ms1 Hr1 Ha1.
    apply repeat_max_complete with (P := Matches r) (j := n) (l := last_char l w1) (w := w2) (rt := rt); auto.
    + destruct hi; [exact Hn|]. apply Iter_strict_length in HI2.
      rewrite Ha1, length_app. lia.
    + destruct Hr1 as (_ & _ & ->). congruence.
    + intros c2 ms2 Hr2 Ha2. apply Hk; auto. eapply reaches_trans; eauto.
  - apply (IH l w rt); auto.
Qed.

(** *** Searching *)

Lemma cursor_at_snoc before x :
  length (before ++ [x]) = S (length before) /\
  last_char None (before ++ [x]) = Some x.
Proof. rewrite length_app, last_char_app. simpl. split; [lia | reflexivity]. Qed.

Lemma search_from_cursor p text before rest :
  search_from p text (length before) (last_char None before) rest =
  match match_at p text (cursor_at before rest) with
  | Some m => Some m
  | None =>
    match rest with
    | [] => None
    | x :: rest' =>
      search_from p text (length (before ++ [x])) (last_char None (before ++ [x])) rest'
    end
  end.
Proof.
  destruct (cursor_at_snoc before) as [E1 E2] || idtac.
  destruct rest as [|x rest']; simpl; [reflexivity|].
  destruct (cursor_at_snoc before x) as [-> ->]. reflexivity.
Qed.

(** A search that succeeds stops at the first start that matches. *)
Lemma search_from_some p text m rest : forall before,
  search_from p text (length before) (last_char None before) rest = Some m ->
  exists mid rest',
    rest = mid ++ rest' /\
    match_at p text (cursor_at (before ++ mid) rest') = Some m /\
    forall mid1 x mid2,
      mid = mid1 ++ x :: mid2 ->
      match_at p text (cursor_at (before ++ mid1) (x :: mid2 ++ rest')) = None.
Proof.
  induction rest as [|x rest IH]; intros before H; rewrite search_from_cursor in H.
  - destruct (match_at p text (cursor_at before [])) eqn:E; [|discriminate].
    injection H as ->. exists [], [].
    split; [reflexivity | split; [rewrite app_nil_r; exact E |]].
    intros [|] ? ? ?; discriminate.
  - destruct (match_at p text (cursor_at before (x :: rest))) eqn:E.
    + injection H as ->. exists [], (x :: rest).
      split; [reflexivity | split; [rewrite app_nil_r; exact E |]].
      intros [|] ? ? ?; discriminate.
    + apply IH in H. destruct H as (mid & rest' & -> & Hm & Hfirst).
      exists (x :: mid), rest'. rewrite <- app_assoc in Hm.
      split; [reflexivity | split; [exact Hm |]].
      intros [|y mid1] z mid2 Hsplit; simpl in Hsplit; injection Hsplit as -> ->.
      * rewrite app_nil_r. exact E.
      * specialize (Hfirst mid1 z mid2 eq_refl).
        rewrite <- app_assoc in Hfirst. exact Hfirst.
Qed.

(** A search fails only when no start matches. *)
Lemma search_from_none p text rest : forall before,
  search_from p text (length before) (last_char None before) rest = None ->
  forall mid rest',
    rest = mid ++ rest' -> match_at p text (cursor_at (before ++ mid) rest') = None.
Proof.
  induction rest as [|x rest IH]; intros before H mid rest' Hsplit;
    rewrite search_from_cursor in H.
  - destruct mid; [|discriminate]. simpl in Hsplit. subst rest'.
    rewrite app_nil_r. destruct (match_at _ _ _); [discriminate | reflexivity].
  - destruct (match_at p text (cursor_at before (x :: rest))) eqn:E; [discriminate|].
    destruct mid as [|y mid]; simpl in Hsplit.
    + subst rest'. rewrite app_nil_r. exact E.
    + injection Hsplit as -> ->.
      specialize (IH _ H mid rest' eq_refl). rewrite <- app_assoc in IH. exact IH.
Qed.

Lemma re_search_start p text :
  re_search p text = search_from p text (length (@nil N)) (last_char None []) text.
Proof. reflexivity. Qed.

(** What [match_at] returns, in terms of the matcher. *)
Lemma match_at_some p text c m :
  match_at p text c = Some m ->
  exists w c',
    Matches p (behind c) w (ahead c') /\ reaches c w c' /\
    sre_match p c [] accept = Some (c', m_marks m) /\
    m_string m = text /\ m_start m = pos c /\ m_end m = pos c'.
Proof.
  unfold match_at. intro H.
  destruct (sre_match p c [] accept) as [[c' ms]|] eqn:E; [|discriminate].
  injection H as <-. simpl.
  pose proof (sre_match_sound _ _ _ _ E) as (w & c1 & ms1 & HM & Hr & _ & Hk).
  injection Hk as -> ->. exists w, c'. repeat split; auto; apply Hr.
Qed.

Lemma match_at_complete p text pre w post :
  Occurs p pre w post -> match_at p text (cursor_at pre (w ++ post)) <> None.
Proof.
  intro H. unfold match_at.
  assert (E : sre_match p (cursor_at pre (w ++ post)) [] accept <> None).
  { apply (sre_match_complete p (l := last_char None pre) (w := w) (rt := post)); auto.
    discriminate. }
  destruct (sre_match _ _ _ _) as [[? ?]|]; [discriminate | congruence].
Qed.

(** [re.search] finds a match exactly when the pattern occurs in the
    text, and then the leftmost one. *)
Theorem re_search_none p text :
  re_search p text = None <->
  (forall pre w post, text = pre ++ w ++ post -> ~ Occurs p pre w post).
Proof.
  split.
  - intros H pre w post -> Hocc. rewrite re_search_start in H.
    apply search_from_none with (before := []) (mid := pre) (rest' := w ++ post) in H; auto.
    simpl in H. eapply match_at_complete; eauto.
  - intro H. destruct (re_search p text) as [m|] eqn:E; [exfalso | reflexivity].
    rewrite re_search_start in E.
    apply search_from_some in E. destruct E as (pre & rest & -> & Hm & _).
    simpl in Hm. apply match_at_some in Hm.
    destruct Hm as (w & c' & HM & (Ha & _) & _). simpl in Ha, HM.
    apply (H pre w (ahead c')); [congruence | exact HM].
Qed.

Theorem re_search_some p text m :
  re_search p text = Some m ->
  exists pre w post,
    text = pre ++ w ++ post /\ Occurs p pre w post /\
    m_string m = text /\ m_start m = length pre /\ m_end m = length pre + length w /\
    sre_match p (cursor_at pre (w ++ post)) [] accept
      = Some ({| pos := length pre + length w; behind := last_char None (pre ++ w);
                 ahead := post |}, m_marks m) /\
    (forall pre' w' post',
        text = pre' ++ w' ++ post' -> Occurs p pre' w' post' -> length pre <= length pre').
Proof.
  intro E. rewrite re_search_start in E.
  apply search_from_some in E. destruct E as (pre & rest & -> & Hm & Hfirst).
  simpl in Hm, Hfirst. pose proof Hm as Hm'. apply match_at_some in Hm.
  destruct Hm as (w & c' & HM & (Ha & Hp & Hb) & Hrun & Hs & Hst & He).
  simpl in Ha, Hp, Hb, HM, Hst. subst rest.
  exists pre, w, (ahead c'). repeat split; auto.
  - rewrite He, Hp. lia.
  - rewrite Hrun. f_equal. f_equal. destruct c' as [p' b' a']; simpl in *.
    subst. f_equal; [lia | symmetry; apply last_char_app].
  - intros pre' w' post' Hsplit Hocc.
    destruct (le_lt_dec (length pre) (length pre')) as [|Hlt]; [assumption|exfalso].
    apply app_eq_app in Hsplit. destruct Hsplit as (l & [(E1 & E2) | (E1 & E2)]).
    + destruct l as [|x mid2].
      * rewrite app_nil_r in E1. subst pre'. lia.
      * specialize (Hfirst pre' x mid2 E1). simpl in E2. rewrite <- E2 in Hfirst.
        eapply match_at_complete; eauto.
    + subst pre'. rewrite length_app in Hlt. lia.
Qed.

End MatcherFacts.

(* ================================================================= *)
(** ** Strings *)

Lemma startswith_spec p : forall s,
  startswith p s = true <-> exists rest, s = p ++ rest.
Proof.
  induction p as [|a p IH]; intros [|b s]; simpl.
  - split; eauto.
  - split; eauto.
  - split; [discriminate | intros [rest H]; discriminate].
  - rewrite andb_true_iff, N.eqb_eq, IH. split.
    + intros [-> [rest ->]]. eauto.
    + intros [rest H]. injection H as -> ->. eauto.
Qed.

Lemma str_in_spec p : forall s, str_in p s = true <-> Contains p s.
Proof.
  induction s as [|b s IH]; simpl; rewrite orb_true_iff, startswith_spec.
  - split.
    + intros [[rest H]|H]; [|discriminate]. exists [], rest. exact H.
    + intros (pre & post & H). left. destruct pre; [eauto | discriminate].
  - rewrite IH. split.
    + intros [[rest H]|(pre & post & ->)].
      * exists [], rest. exact H.
      * exists (b :: pre), post. reflexivity.
    + intros ([|x pre] & post & H); simpl in H.
      * left. eauto.
      * right. injection H as -> ->. exists pre, post. reflexivity.
Qed.

Lemma str_eqb_eq s t : str_eqb s t = true <-> s = t.
Proof. unfold str_eqb. destruct (list_eq_dec N.eq_dec s t); split; congruence. Qed.

Lemma slice_app (a b c : str) :
  slice (a ++ b ++ c) (length a) (length b + length a) = b.
Proof.
  unfold slice. rewrite skipn_app, skipn_all, Nat.sub_diag. simpl.
  replace (length b + length a - length a) with (length b) by lia.
  rewrite firstn_app, firstn_all, Nat.sub_diag. simpl. apply app_nil_r.
Qed.

(** ** Groups *)

Lemma valid_cursor_at pre rest : valid (pre ++ rest) (cursor_at pre rest).
Proof. exists pre. split; reflexivity. Qed.

Lemma reaches_valid text c w c' :
  valid text c -> reaches c w c' -> valid text c' /\ slice text (pos c) (pos c') = w.
Proof.
  intros (before & -> & Hp) (Ha & Hp' & _). split.
  - exists (before ++ w). rewrite Ha, <- app_assoc, length_app. split; [reflexivity | lia].
  - rewrite Ha, Hp', Hp. apply slice_app.
Qed.

Section GroupFacts.
Context {U : UnicodeData}.

Lemma sre_match_Seq r1 r2 c ms k res :
  sre_match (Seq r1 r2) c ms k = Some res ->
  exists w c1 ms1,
    Matches r1 (behind c) w (ahead c1) /\ reaches c w c1 /\ extends ms ms1 /\
    sre_match r2 c1 ms1 k = Some res.
Proof. intro H. simpl in H. apply sre_match_sound in H. exact H. Qed.

Lemma sre_match_SUBPATTERN g r c ms k res :
  sre_match (SUBPATTERN g r) c ms k = Some res ->
  exists w c' ms',
    Matches r (behind c) w (ahead c') /\ reaches c w c' /\ extends ms ms' /\
    k c' ((g, (pos c, pos c')) :: ms') = Some res.
Proof. intro H. simpl in H. apply sre_match_sound in H. exact H. Qed.

Lemma sre_match_Seq_SUBPATTERN g r r2 c ms k res :
  sre_match (Seq (SUBPATTERN g r) r2) c ms k = Some res ->
  exists w c' ms',
    Matches r (behind c) w (ahead c') /\ reaches c w c' /\ extends ms ms' /\
    sre_match r2 c' ((g, (pos c, pos c')) :: ms') k = Some res.
Proof. intro H. simpl in H. apply sre_match_sound in H. exact H. Qed.

Lemma lookup_head g sp ms : lookup g ((g, sp) :: ms) = Some sp.
Proof. simpl. rewrite Nat.eqb_refl. reflexivity. Qed.

(** Peel the leading part of a sequence off a successful run. *)
Ltac peel H w c ms :=
  let HM := fresh "HM" in
  let Hr := fresh "Hr" in
  let He := fresh "He" in
  apply sre_match_Seq in H; destruct H as (w & c & ms & HM & Hr & He & H).

(** Whenever the CID pattern matches, group 1 took part, and it holds
    at least the letter of the code. *)
Lemma cid_pattern_group text m :
  re_search cid_pattern text = Some m ->
  exists x code, group m 1 = Some (x :: code).
Proof.
  intro Hs. apply re_search_some in Hs.
  destruct Hs as (pre & w & post & -> & _ & Hstr & _ & _ & H & _).
  pose proof (valid_cursor_at pre (w ++ post)) as Hv.
  unfold cid_pattern in H.
  peel H w1 c1 ms1. peel H w2 c2 ms2. peel H w3 c3 ms3. peel H w4 c4 ms4.
  peel H w5 c5 ms5. peel H w6 c6 ms6. peel H w7 c7 ms7.
  apply sre_match_SUBPATTERN in H. destruct H as (code & c8 & ms8 & HMg & Hrg & Heg & H).
  injection H as _ Hm. unfold group. rewrite Hstr, <- Hm, lookup_head.
  assert (Hv7 : valid (pre ++ w ++ post) c7).
  { repeat match goal with
           | Hr' : reaches ?c _ ?c', Hv' : valid _ ?c |- _ =>
             lazymatch goal with
             | _ : valid _ c' |- _ => fail
             | _ => pose proof (proj1 (reaches_valid Hv' Hr'))
             end
           end. assumption. }
  destruct (reaches_valid Hv7 Hrg) as [_ ->].
  unfold cid_code in HMg. destruct HMg as (wl & wr & -> & (x & -> & _) & _).
  exists x, wr. reflexivity.
Qed.

(** Whenever the registry pattern matches, groups 1 and 3 took part. *)
Lemma pattern_groups text m :
  re_search pattern text = Some m ->
  exists t number, group m 1 = Some t /\ group m 3 = Some number.
Proof.
  intro Hs. apply re_search_some in Hs.
  destruct Hs as (pre & w & post & -> & _ & Hstr & _ & _ & H & _).
  unfold pattern in H.
  peel H w1 c1 ms1.
  apply sre_match_Seq_SUBPATTERN in H.
  destruct H as (t & c2 & ms2 & HMt & Hrt & Het & H).
  peel H w3 c3 ms3. peel H w4 c4 ms4. peel H w5 c5 ms5. peel H w6 c6 ms6.
  apply sre_match_SUBPATTERN in H. destruct H as (n & c7 & ms7 & HMn & Hrn & Hen & H).
  injection H as _ Hm. unfold group. rewrite <- Hm, lookup_head.
  assert (Hext : extends ((1, (pos c1, pos c2)) :: ms2) ((3, (pos c6, pos c7)) :: ms7)).
  { apply extends_cons. repeat (eapply extends_trans; [eassumption|]). apply extends_refl. }
  destruct (@lookup_extends 1 _ _ _ Hext (lookup_head _ _ _)) as [[a b] ->].
  eauto.
Qed.
End GroupFacts.

(* ================================================================= *)
(** ** Classification *)

Section Classification.
Context {U : UnicodeData}.

Lemma existsb_mentions kws text :
  existsb (fun word => str_in word (py_lower text)) kws = true <-> mentions kws text.
Proof.
  rewrite existsb_exists. unfold mentions.
  split; intros (kw & Hin & H); exists kw; split; auto; apply str_in_spec; exact H.
Qed.

Lemma existsb_not_mentions kws text :
  existsb (fun word => str_in word (py_lower text)) kws = false <-> ~ mentions kws text.
Proof.
  rewrite <- existsb_mentions. destruct (existsb _ kws); split; congruence.
Qed.

(** Lower case of a text that begins with a word of ASCII characters. *)
Lemma lower_from_ascii w : forall before post,
  Forall (fun c => (c < 128)%N) w ->
  lower_from before (w ++ post) =
  map ascii_tolower w ++ lower_from (rev w ++ before) post.
Proof.
  induction w as [|c w IH]; intros before post Hw; simpl.
  - reflexivity.
  - inversion Hw as [|? ? Hc Hw']; subst.
    unfold tolower_full at 1. apply N.ltb_lt in Hc. rewrite Hc. simpl.
    rewrite IH by assumption. rewrite <- app_assoc. reflexivity.
Qed.

Lemma lower_from_prefix pre : forall before rest,
  exists pre', lower_from before (pre ++ rest) = pre' ++ lower_from (rev pre ++ before) rest.
Proof.
  induction pre as [|c pre IH]; intros before rest; simpl.
  - exists []. reflexivity.
  - destruct (IH (c :: before) rest) as [pre' ->].
    exists (tolower_full before c (pre ++ rest) ++ pre').
    rewrite <- !app_assoc. reflexivity.
Qed.

(** A keyword written in any mix of upper and lower case ASCII
    letters is found in the lower-cased text. *)
Lemma py_lower_contains pre w post :
  Forall (fun c => (c < 128)%N) w ->
  Contains (map ascii_tolower w) (py_lower (pre ++ w ++ post)).
Proof.
  intro Hw. unfold py_lower.
  destruct (lower_from_prefix pre [] (w ++ post)) as [pre' ->].
  rewrite lower_from_ascii by assumption.
  exists pre', (lower_from (rev w ++ rev pre ++ []) post). reflexivity.
Qed.

(** C3.  [classify_document] follows the precedence: an exam keyword
    and a report keyword present give 'Laudo com Exame'; else an exam
    keyword gives 'Exame'; else a report keyword gives 'Laudo'; else
    'Desconhecido'.  Presence is substring search in the lower-cased
    text, so that a keyword of ASCII letters counts in any case. *)
Theorem classify_document_precedence text :
  (mentions exam_keywords text -> mentions report_keywords text ->
   classify_document text = py "Laudo com Exame") /\
  (mentions exam_keywords text -> ~ mentions report_keywords text ->
   classify_document text = py "Exame") /\
  (~ mentions exam_keywords text -> mentions report_keywords text ->
   classify_document text = py "Laudo") /\
  (~ mentions exam_keywords text -> ~ mentions report_keywords text ->
   classify_document text = py "Desconhecido") /\
  (forall kws kw pre w post,
      In kw kws -> text = pre ++ w ++ post ->
      Forall (fun c => (c < 128)%N) w -> map ascii_tolower w = kw ->
      mentions kws text).
Proof.
  unfold classify_document. repeat split.
  - intros He Hr. apply existsb_mentions in He, Hr. rewrite He, Hr. reflexivity.
  - intros He Hr. apply existsb_mentions in He. apply existsb_not_mentions in Hr.
    rewrite He, Hr. reflexivity.
  - intros He Hr. apply existsb_not_mentions in He. apply existsb_mentions in Hr.
    rewrite He, Hr. reflexivity.
  - intros He Hr. apply existsb_not_mentions in He, Hr. rewrite He, Hr. reflexivity.
  - intros kws kw pre w post Hin -> Hw <-. exists (map ascii_tolower w).
    split; [assumption | apply py_lower_contains; assumption].
Qed.
End Classification.

(* ================================================================= *)
(** ** Totality, the registry status and the approval rule *)

Section Extractors.
Context {U : UnicodeData}.

Lemma extract_cid_cases text :
  extract_cid text = Ok None /\ re_search cid_pattern text = None \/
  exists m x code,
    re_search cid_pattern text = Some m /\ group m 1 = Some (x :: code) /\
    extract_cid text = Ok (Some (py_upper (x :: code))).
Proof.
  unfold extract_cid. destruct (re_search cid_pattern text) as [m|] eqn:E.
  - right. destruct (cid_pattern_group _ E) as (x & code & Hg).
    exists m, x, code. rewrite Hg. auto.
  - left. auto.
Qed.

Lemma extract_registry_cases text :
  extract_registry text = Ok (None, None) /\ re_search pattern text = None \/
  exists m label,
    re_search pattern text = Some m /\
    extract_registry text = Ok (Some label, Some (py "Ativo")).
Proof.
  unfold extract_registry. destruct (re_search pattern text) as [m|] eqn:E.
  - right. destruct (pattern_groups _ E) as (t & number & Hg1 & Hg3).
    exists m. rewrite Hg1. eexists. split; reflexivity.
  - left. auto.
Qed.

Lemma classify_document_labels text :
  In (classify_document text)
     [py "Exame"; py "Laudo"; py "Laudo com Exame"; py "Desconhecido"].
Proof.
  unfold classify_document.
  destruct (existsb _ exam_keywords); destruct (existsb _ report_keywords);
    simpl; auto.
Qed.

(** C8.  The five extraction functions return a value of their result
    type on every string and never raise: a label among the four, an
    optional code, an optional pair, a boolean; on the empty string
    these are 'Desconhecido', no code, no registry, false and false. *)
Theorem extraction_total text :
  In (classify_document text)
     [py "Exame"; py "Laudo"; py "Laudo com Exame"; py "Desconhecido"] /\
  (exists code, extract_cid text = Ok code) /\
  (exists registry status, extract_registry text = Ok (registry, status)) /\
  (check_afastamento text = true \/ check_afastamento text = false) /\
  (check_signature text = true \/ check_signature text = false) /\
  classify_document [] = py "Desconhecido" /\
  extract_cid [] = Ok None /\
  extract_registry [] = Ok (None, None) /\
  check_afastamento [] = false /\
  check_signature [] = false.
Proof.
  split; [apply classify_document_labels|].
  split.
  { destruct (extract_cid_cases text) as [[-> _]|(m & x & code & _ & _ & ->)]; eauto. }
  split.
  { destruct (extract_registry_cases text) as [[-> _]|(m & label & _ & ->)]; eauto. }
  split; [destruct (check_afastamento text); auto|].
  split; [destruct (check_signature text); auto|].
  repeat split; vm_compute; reflexivity.
Qed.

(** C5.  [extract_registry] gives the status 'Ativo' whenever the
    registry pattern matches somewhere in the text, and the pair
    (None, None) when it matches nowhere; the status is 'Ativo'
    exactly when the label is present. *)
Theorem extract_registry_status text :
  exists registry status,
    extract_registry text = Ok (registry, status) /\
    ((exists pre w post, text = pre ++ w ++ post /\ Occurs pattern pre w post) ->
     registry <> None /\ status = Some (py "Ativo")) /\
    ((forall pre w post, text = pre ++ w ++ post -> ~ Occurs pattern pre w post) ->
     registry = None /\ status = None) /\
    (status = Some (py "Ativo") <-> registry <> None).
Proof.
  destruct (extract_registry_cases text) as [[-> Hs]|(m & label & Hs & ->)].
  - exists None, None. split; [reflexivity|]. repeat split; try congruence.
    + exfalso. destruct H as (pre & w & post & Ht & Ho).
      rewrite re_search_none in Hs. exact (Hs _ _ _ Ht Ho).
    + exfalso. destruct H as (pre & w & post & Ht & Ho).
      rewrite re_search_none in Hs. exact (Hs _ _ _ Ht Ho).
  - exists (Some label), (Some (py "Ativo")). split; [reflexivity|].
    repeat split; try congruence.
    + exfalso. apply re_search_none in H. congruence.
    + exfalso. apply re_search_none in H. congruence.
Qed.

Lemma py_upper_nonempty x code :
  (forall c, uc_toupper_full c <> []) -> py_upper (x :: code) <> [].
Proof.
  intros Hup. unfold py_upper. simpl. unfold toupper_full.
  destruct (x <? 128)%N.
  - discriminate.
  - specialize (Hup x). destruct (uc_toupper_full x); [congruence | discriminate].
Qed.

(** The results that [display_uploader] stores are those of the five
    functions on the text read. *)
Lemma analyse_fields text res :
  analyse text = Ok res ->
  doc_type res = classify_document text /\
  extract_cid text = Ok (cid res) /\
  extract_registry text = Ok (registry_info res) /\
  afastamento res = check_afastamento text /\
  signature res = check_signature text /\
  raw_text res = text.
Proof.
  unfold analyse, bind. intro H.
  destruct (extract_cid text) as [c|]; [|discriminate].
  destruct (extract_registry text) as [r|]; [|discriminate].
  injection H as <-. simpl. auto 10.
Qed.

Lemma analyse_total text : exists res, analyse text = Ok res.
Proof.
  unfold analyse, bind.
  destruct (extract_cid_cases text) as [[-> _]|(m & x & code & _ & _ & ->)];
    destruct (extract_registry_cases text) as [[-> _]|(m' & label & _ & ->)]; eauto.
Qed.

Lemma is_valid_type_iff res :
  is_valid_type res = true <->
  doc_type res = py "Laudo" \/ doc_type res = py "Laudo com Exame".
Proof.
  unfold is_valid_type. simpl existsb.
  rewrite !orb_true_iff, !str_eqb_eq. intuition congruence.
Qed.

Lemma is_active_registry_iff res :
  is_active_registry res = true <-> snd (registry_info res) = Some (py "Ativo").
Proof.
  unfold is_active_registry. destruct (registry_info res) as [registry [status|]]; simpl.
  - rewrite str_eqb_eq. split; congruence.
  - split; discriminate.
Qed.

(** The results of the analysis are within the data model. *)
Lemma analyse_well_formed text res :
  (forall c, uc_toupper_full c <> []) -> analyse text = Ok res -> well_formed res.
Proof.
  intros Hup Hres. destruct (analyse_fields _ Hres) as (_ & Hc & Hr & _). split.
  - destruct (extract_cid_cases text) as [[E _]|(m & x & code & _ & _ & E)];
      rewrite E in Hc; injection Hc as <-; [left; reflexivity | right].
    pose proof (py_upper_nonempty x code Hup) as Hne.
    change (toupper_full x ++ py_upper code) with (py_upper (x :: code)).
    destruct (py_upper (x :: code)) as [|y w]; [congruence | eauto].
  - destruct (extract_registry_cases text) as [[E _]|(m & label & _ & E)];
      rewrite E in Hr; injection Hr as <-; [left; reflexivity | right; eauto].
Qed.

(** C1.  For every record, the verdict is approval exactly when the
    type is 'Laudo' or 'Laudo com Exame', the code is a string that is
    not empty, the status is the string 'Ativo', the absence flag is
    true and the signature flag is true.  For every AnalysisResult of
    the data model (a code absent or not empty, a registry absent or
    with its label), whatever its status, this is the conjunction of
    the five criteria: a valid type, a code present, a registry present
    with status 'Ativo', and the two flags.  The results of analysing a
    text are such results.  (For the last part, no code point has an
    empty upper case.) *)
Theorem is_approved_iff :
  (forall res,
      is_approved res = true <->
      (doc_type res = py "Laudo" \/ doc_type res = py "Laudo com Exame") /\
      truthy (cid res) = true /\
      snd (registry_info res) = Some (py "Ativo") /\
      afastamento res = true /\
      signature res = true) /\
  (forall res,
      well_formed res ->
      (is_approved res = true <->
       (doc_type res = py "Laudo" \/ doc_type res = py "Laudo com Exame") /\
       cid res <> None /\
       (exists registry, registry_info res = (Some registry, Some (py "Ativo"))) /\
       afastamento res = true /\
       signature res = true)) /\
  ((forall c, uc_toupper_full c <> []) ->
   forall text res, analyse text = Ok res -> well_formed res).
Proof.
  assert (Hcode : forall res,
             is_approved res = true <->
             (doc_type res = py "Laudo" \/ doc_type res = py "Laudo com Exame") /\
             truthy (cid res) = true /\
             snd (registry_info res) = Some (py "Ativo") /\
             afastamento res = true /\
             signature res = true).
  { intro res. unfold is_approved. simpl forallb.
    rewrite !andb_true_iff, is_valid_type_iff, is_active_registry_iff. intuition. }
  split; [exact Hcode|].
  split; [|intros Hup text res Hres; exact (@analyse_well_formed text res Hup Hres)].
  intros res [Hcid Hreg]. rewrite Hcode.
  assert (Hc : truthy (cid res) = true <-> cid res <> None).
  { destruct Hcid as [->|(x & code & ->)]; simpl; split; congruence. }
  assert (Hr : snd (registry_info res) = Some (py "Ativo") <->
               exists registry, registry_info res = (Some registry, Some (py "Ativo"))).
  { destruct Hreg as [->|(registry & status & ->)]; simpl.
    - split; [discriminate | intros [? ?]; discriminate].
    - split; [intros ->; eauto | intros [? H]; congruence]. }
  rewrite Hc, Hr. reflexivity.
Qed.
End Extractors.

(* ================================================================= *)
(** ** The session *)

Section Session.
Context {U : UnicodeData}.
Variables file image : Type.
Variable Image_open : file -> result image.
Variable image_to_string : image -> result str.

(** Opening the file or reading it raises [e]. *)
Definition ingestion_fails (f : file) (e : exn) : Prop :=
  Image_open f = Raise e \/
  exists img, Image_open f = Ok img /\ image_to_string img = Raise e.

(** The file opens and reads as [text]. *)
Definition ingestion_gives (f : file) (text : str) : Prop :=
  exists img, Image_open f = Ok img /\ image_to_string img = Ok text.

(** C9.  When opening the image or the OCR step raises, the run
    records one error message and leaves the stored results and the
    completion flag as they were, so that a session awaiting input
    still awaits input; a later run on a file that reads well clears
    the message and stores, in one step, the results of all five
    functions with the completion flag. *)
Theorem display_uploader_error_then_success ss f e :
  ingestion_fails f e ->
  let r := display_uploader Image_open image_to_string ss (Some f) in
  error_message (state r)
    = Some (py "Ocorreu um erro ao processar o arquivo: " ++ str_of_exn e) /\
  results (state r) = results ss /\
  analysis_complete (state r) = analysis_complete ss /\
  (analysis_complete ss = false ->
   forall uploaded_file button,
     main Image_open image_to_string (Some (state r)) uploaded_file button
     = Some (display_uploader Image_open image_to_string (state r) uploaded_file)) /\
  (forall f' text,
      ingestion_gives f' text ->
      exists res,
        analyse text = Ok res /\
        state (display_uploader Image_open image_to_string (state r) (Some f'))
        = {| analysis_complete := true; results := Some res; error_message := None |} /\
        doc_type res = classify_document text /\
        extract_cid text = Ok (cid res) /\
        extract_registry text = Ok (registry_info res) /\
        afastamento res = check_afastamento text /\
        signature res = check_signature text /\
        raw_text res = text).
Proof.
  intros Hfail r.
  assert (Hr : state r = {| analysis_complete := analysis_complete ss;
                            results := results ss;
                            error_message :=
                              Some (py "Ocorreu um erro ao processar o arquivo: "
                                    ++ str_of_exn e) |}).
  { subst r. unfold display_uploader, bind.
    destruct Hfail as [-> | (img & -> & ->)]; reflexivity. }
  rewrite Hr. simpl. repeat split.
  - intros Hidle uploaded_file button. unfold main. simpl. rewrite Hidle. reflexivity.
  - intros f' text (img & Ho & Ht).
    destruct (analyse_total text) as [res Hres]. exists res.
    split; [exact Hres|]. split.
    + unfold display_uploader, bind. rewrite Ho, Ht.
      unfold bind in Hres. fold (analyse text). rewrite Hres. reflexivity.
    + apply analyse_fields. exact Hres.
Qed.
End Session.

(* ================================================================= *)
(** ** Words of the keyword and signature patterns *)

Lemma last_char_nonempty l w : w <> [] -> last_char l w = last_char None w.
Proof. destruct w; [congruence | reflexivity]. Qed.

Lemma hd_error_app (w rt : str) : w <> [] -> hd_error (w ++ rt) = hd_error w.
Proof. destruct w; [congruence | reflexivity]. Qed.

Lemma existsb_false {A} (f : A -> bool) l :
  existsb f l = false <-> forall x, In x l -> f x = false.
Proof.
  induction l as [|a l IH]; simpl.
  - split; [intros _ x [] | reflexivity].
  - rewrite orb_false_iff, IH. split.
    + intros [Ha Hl] x [<-|Hx]; auto.
    + intro H. split; auto.
Qed.

Section Words.
Context {U : UnicodeData}.

Lemma Matches_literals kw : forall l w rt,
  Matches (literals kw) l w rt <-> same_ignore kw w.
Proof.
  unfold same_ignore. induction kw as [|a kw IH]; intros l w rt; simpl.
  - split; [intros ->; constructor | intro H; inversion H; reflexivity].
  - split.
    + intros (w1 & w2 & -> & (c & -> & Hc) & H). apply IH in H. constructor; assumption.
    + intro H. inversion H as [|? c ? w2 Hc H2]; subst.
      exists [c], w2. repeat split; eauto. apply IH. exact H2.
Qed.

Lemma Iter_single (t : N -> bool) P strict :
  (forall l w rt, P l w rt <-> exists c, w = [c] /\ t c = true) ->
  forall n l w rt,
    Iter P strict n l w rt <-> length w = n /\ Forall (fun c => t c = true) w.
Proof.
  intros HP n. induction n as [|n IH]; intros l w rt; simpl.
  - split.
    + intros ->. split; [reflexivity | constructor].
    + intros [H _]. destruct w; [reflexivity | discriminate].
  - split.
    + intros (w1 & w2 & -> & _ & H1 & H2). apply HP in H1. destruct H1 as (c & -> & Hc).
      apply IH in H2. destruct H2 as [<- H2]. split; [reflexivity | constructor; assumption].
    + intros [Hlen H]. destruct w as [|c w]; [discriminate|].
      inversion H as [|? ? Hc Hw]; subst. injection Hlen as Hlen.
      exists [c], w. repeat split.
      * discriminate.
      * apply HP. eauto.
      * apply IH. auto.
Qed.

(** [[...]*] matches the runs of members of the set. *)
Lemma Matches_Star_IN items l w rt :
  Matches (Star (IN items)) l w rt <-> Forall (fun c => in_ignore items c = true) w.
Proof.
  unfold Star. simpl. split.
  - intros (w1 & w2 & n & -> & -> & _ & H). simpl.
    apply (Iter_single (in_ignore items)) in H; [apply H|]. intros; simpl; tauto.
  - intro H. exists [], w, (length w). simpl. repeat split.
    apply (Iter_single (in_ignore items)); [intros; simpl; tauto | auto].
Qed.

Lemma in_ignore_Word c : in_ignore [Word] c = sre_isword c.
Proof. unfold in_ignore. simpl. apply orb_false_r. Qed.

Lemma in_ignore_Digit c : in_ignore [Digit] c = isdecimal c.
Proof. unfold in_ignore. simpl. apply orb_false_r. Qed.

Lemma in_ignore_Space c : in_ignore [Space] c = isspace c.
Proof. unfold in_ignore. simpl. apply orb_false_r. Qed.

Lemma literal_ignore_colon c : literal_ignore (ch ":") c = true <-> c = ch ":".
Proof.
  unfold literal_ignore.
  replace (sre_iscased (ch ":")) with false by (vm_compute; reflexivity).
  apply N.eqb_eq.
Qed.

Lemma ascii_islower_bounds k : ascii_islower k = true -> (97 <= k <= 122)%N.
Proof.
  unfold ascii_islower, between. intro H. apply andb_true_iff in H.
  destruct H as [H1 H2]. apply N.leb_le in H1, H2. lia.
Qed.

Lemma ascii_tolower_lower k : ascii_islower k = true -> ascii_tolower k = k.
Proof.
  intro H. apply ascii_islower_bounds in H. unfold ascii_tolower, ascii_isupper, between.
  destruct (_ && _) eqn:E; [|reflexivity].
  apply andb_true_iff in E. destruct E as [_ E]. apply N.leb_le in E. lia.
Qed.

(** An ASCII letter stands for itself in either case. *)
Lemma literal_ignore_ascii k c :
  ascii_islower k = true -> (c < 128)%N -> ascii_tolower c = k ->
  literal_ignore k c = true.
Proof.
  intros Hk Hc Hlow. unfold literal_ignore, sre_iscased, fix_set, tolower, toupper.
  pose proof (ascii_islower_bounds _ Hk) as Hb.
  assert (Hk128 : (k <? 128)%N = true) by (apply N.ltb_lt; lia).
  apply N.ltb_lt in Hc. rewrite Hk128, Hc, Hlow, (ascii_tolower_lower _ Hk).
  assert (Hup : (k =? ascii_toupper k)%N = false).
  { unfold ascii_toupper. rewrite Hk. apply N.eqb_neq. lia. }
  rewrite Hup, orb_true_r. simpl. rewrite N.eqb_refl. reflexivity.
Qed.

Lemma isword_ascii_letter c :
  (c < 128)%N -> ascii_islower (ascii_tolower c) = true -> sre_isword c = true.
Proof.
  intros Hc Hl. unfold sre_isword, isalnum. apply N.ltb_lt in Hc. rewrite Hc.
  unfold ascii_isalpha. unfold ascii_tolower in Hl.
  destruct (ascii_isupper c) eqn:E; simpl.
  - reflexivity.
  - rewrite Hl. reflexivity.
Qed.

Lemma same_ignore_ascii kw w :
  forallb ascii_islower kw = true -> ascii_caseless kw w -> same_ignore kw w.
Proof.
  intros Hkw [Hw <-]. unfold same_ignore.
  induction w as [|c w IH]; simpl in *; constructor.
  - apply andb_true_iff in Hkw. inversion Hw; subst.
    apply literal_ignore_ascii; tauto.
  - apply andb_true_iff in Hkw. inversion Hw; subst. apply IH; tauto.
Qed.

(** *** The keyword patterns *)

Lemma Matches_keyword_pattern kw l w rt :
  Matches (keyword_pattern kw) l w rt <->
  same_ignore kw w /\
  boundary l (hd_error (w ++ rt)) = true /\
  boundary (last_char l w) (hd_error rt) = true.
Proof.
  unfold keyword_pattern. simpl. split.
  - intros (w1 & w2 & -> & [-> Hb1] & w3 & w4 & -> & H & -> & Hb2).
    simpl in *. rewrite app_nil_r in *. apply Matches_literals in H. auto.
  - intros (H & Hb1 & Hb2). exists [], w. simpl. repeat split; auto.
    exists w, []. rewrite app_nil_r. repeat split; auto.
    apply Matches_literals. exact H.
Qed.

Lemma inside_word_not_standalone pre w post :
  inside_word pre w post -> ~ standalone pre w post.
Proof.
  intros [[H1 H2]|[H1 H2]] [Hb1 Hb2]; unfold boundary in *.
  - assert (Hw : w <> []) by (destruct w; [discriminate | congruence]).
    rewrite hd_error_app, H1, H2 in Hb1 by assumption. discriminate.
  - assert (Hw : w <> []) by (destruct w; [discriminate | congruence]).
    rewrite last_char_app, last_char_nonempty, H1, H2 in Hb2 by assumption.
    discriminate.
Qed.

Theorem check_afastamento_iff text :
  check_afastamento text = true <->
  exists keyword pre w post,
    In keyword keywords /\ text = pre ++ w ++ post /\
    same_ignore keyword w /\ standalone pre w post.
Proof.
  unfold check_afastamento. rewrite existsb_exists. split.
  - intros (kw & Hin & H).
    destruct (re_search (keyword_pattern kw) text) as [m|] eqn:E; [|discriminate].
    apply re_search_some in E. destruct E as (pre & w & post & -> & Ho & _).
    apply Matches_keyword_pattern in Ho. destruct Ho as (Hs & Hb1 & Hb2).
    exists kw, pre, w, post. unfold standalone. rewrite last_char_app. auto.
  - intros (kw & pre & w & post & Hin & -> & Hs & Hb1 & Hb2).
    exists kw. split; [assumption|].
    destruct (re_search (keyword_pattern kw) (pre ++ w ++ post)) eqn:E; [reflexivity|].
    exfalso. rewrite re_search_none in E. apply (E pre w post eq_refl).
    apply Matches_keyword_pattern. rewrite <- last_char_app. auto.
Qed.

(** C6.  [check_afastamento] is true on every text where "afastamento"
    stands as a word of its own, in any case: no word character right
    before it nor right after it.  It is false when every occurrence
    of every phrase of the list lies inside a longer word. *)
Theorem check_afastamento_word_boundary text :
  (forall pre w post,
      text = pre ++ w ++ post ->
      ascii_caseless (py "afastamento") w ->
      isword_opt (last_char None pre) = false ->
      isword_opt (hd_error post) = false ->
      check_afastamento text = true) /\
  ((forall keyword pre w post,
       In keyword keywords -> text = pre ++ w ++ post ->
       same_ignore keyword w -> inside_word pre w post) ->
   check_afastamento text = false).
Proof.
  split.
  - intros pre w post Ht Hw Hpre Hpost. apply check_afastamento_iff.
    exists (py "afastamento"), pre, w, post.
    split; [left; reflexivity|]. split; [assumption|].
    split; [apply same_ignore_ascii; [reflexivity | assumption]|].
    destruct Hw as [Hw Hmap].
    do 11 (destruct w as [|? w]; [discriminate|]). destruct w; [|discriminate].
    injection Hmap as Ha _ _ _ _ _ _ _ _ _ Ho.
    repeat match goal with H : Forall _ (_ :: _) |- _ => inversion_clear H end.
    unfold standalone, boundary. rewrite last_char_app. simpl.
    rewrite Hpre, Hpost.
    rewrite !isword_ascii_letter; auto; [rewrite Ho | rewrite Ha]; reflexivity.
  - intro H. destruct (check_afastamento text) eqn:E; [exfalso | reflexivity].
    apply check_afastamento_iff in E.
    destruct E as (kw & pre & w & post & Hin & Ht & Hs & Hst).
    exact (inside_word_not_standalone (H kw pre w post Hin Ht Hs) Hst).
Qed.
End Words.

(** Literals of the source are brought to their code points. *)
Ltac py_compute :=
  repeat match goal with
         | |- context [py ?s] =>
           let v := eval vm_compute in (py s) in change (py s) with v
         | H : context [py ?s] |- _ =>
           let v := eval vm_compute in (py s) in change (py s) with v in H
         | |- context [ch ?a] =>
           let v := eval vm_compute in (ch a) in change (ch a) with v
         | H : context [ch ?a] |- _ =>
           let v := eval vm_compute in (ch a) in change (ch a) with v in H
         end.

Section Signature.
Context {U : UnicodeData}.

Lemma Matches_signature_pattern l w rt :
  Matches signature_pattern l w rt <->
  exists x y z ws, w = x :: y :: z :: ws ++ [ch ":"] /\ stem_run x y z ws.
Proof.
  unfold signature_pattern, stem_run.
  change (Matches (Seq ?a (Seq ?b ?c)) l w rt)
    with (exists w1 w2, w = w1 ++ w2 /\ Matches a l w1 (w2 ++ rt) /\
          exists w3 w4, w2 = w3 ++ w4 /\ Matches b (last_char l w1) w3 (w4 ++ rt) /\
                        Matches c (last_char (last_char l w1) w3) w4 rt).
  split.
  - intros (w1 & w2 & -> & H1 & w3 & w4 & -> & H2 & H3).
    apply Matches_literals in H1. apply Matches_Star_IN in H2.
    destruct H3 as (c & -> & Hc). apply literal_ignore_colon in Hc. subst c.
    unfold same_ignore in H1. py_compute.
    inversion H1 as [|? x ? t1 Hx H1']; subst.
    inversion H1' as [|? y ? t2 Hy H1'']; subst.
    inversion H1'' as [|? z ? t3 Hz H1''']; subst.
    inversion H1'''; subst.
    exists x, y, z, w3. repeat split; auto.
    eapply Forall_impl; [|exact H2]. intros a Ha. rewrite <- in_ignore_Word. exact Ha.
  - intros (x & y & z & ws & -> & Hx & Hy & Hz & Hws).
    exists [x; y; z], (ws ++ [ch ":"]). repeat split.
    + apply Matches_literals. unfold same_ignore. py_compute.
      repeat constructor; assumption.
    + exists ws, [ch ":"]. repeat split.
      * apply Matches_Star_IN. eapply Forall_impl; [|exact Hws].
        intros a Ha. rewrite in_ignore_Word. exact Ha.
      * exists (ch ":"). split; [reflexivity | apply literal_ignore_colon; reflexivity].
Qed.

Theorem check_signature_iff text :
  check_signature text = true <->
  exists pre x y z ws post,
    text = pre ++ x :: y :: z :: ws ++ ch ":" :: post /\ stem_run x y z ws.
Proof.
  unfold check_signature. split.
  - destruct (re_search signature_pattern text) as [m|] eqn:E; [intros _ | discriminate].
    apply re_search_some in E. destruct E as (pre & w & post & -> & Ho & _).
    apply Matches_signature_pattern in Ho. destruct Ho as (x & y & z & ws & -> & H).
    exists pre, x, y, z, ws, post. split; [|exact H].
    simpl. rewrite <- app_assoc. reflexivity.
  - intros (pre & x & y & z & ws & post & -> & H).
    destruct (re_search signature_pattern _) eqn:E; [reflexivity | exfalso].
    rewrite re_search_none in E.
    apply (E pre (x :: y :: z :: ws ++ [ch ":"]) post).
    + simpl. rewrite <- app_assoc. reflexivity.
    + apply Matches_signature_pattern. eauto 10.
Qed.

Lemma StemWordColon_search text :
  StemWordColon text <-> re_search (Seq AT_BOUNDARY signature_pattern) text <> None.
Proof.
  split.
  - intros (pre & x & y & z & ws & post & -> & Hb & H) E.
    rewrite re_search_none in E.
    apply (E pre (x :: y :: z :: ws ++ [ch ":"]) post).
    + simpl. rewrite <- app_assoc. reflexivity.
    + exists [], (x :: y :: z :: ws ++ [ch ":"]). repeat split; auto.
      apply Matches_signature_pattern. eauto 10.
  - intro H. destruct (re_search _ text) as [m|] eqn:E; [|congruence].
    apply re_search_some in E. destruct E as (pre & w & post & -> & Ho & _).
    destruct Ho as (w1 & w2 & -> & [-> Hb] & Ho). simpl in *.
    apply Matches_signature_pattern in Ho. destruct Ho as (x & y & z & ws & -> & Hr).
    exists pre, x, y, z, ws, post. simpl in *. rewrite <- app_assoc. auto.
Qed.

(** C10.  The signature pattern has no word boundary in front: the
    letters a, s, s anywhere in the text, also inside a word, followed
    by word characters and a colon make [check_signature] true; so it
    is on "ele passou:", where no word begins with the stem. *)
Theorem check_signature_inside_word text :
  (forall pre x y z ws post,
      text = pre ++ x :: y :: z :: ws ++ ch ":" :: post ->
      stem_run x y z ws ->
      check_signature text = true) /\
  check_signature (py "ele passou:") = true /\
  ~ StemWordColon (py "ele passou:").
Proof.
  split; [|split].
  - intros pre x y z ws post Ht H. apply check_signature_iff. eauto 10.
  - vm_compute. reflexivity.
  - rewrite StemWordColon_search. intro H. apply H. vm_compute. reflexivity.
Qed.

(** C7, as amended.  [check_signature] is true on every text that
    holds "Assinatura:" in any case, and false on every text in which
    no occurrence of the letters a, s, s, wherever it lies, is
    followed by word characters and then a colon. *)
Theorem check_signature_colon text :
  (forall pre w post,
      text = pre ++ w ++ post -> ascii_caseless (py "assinatura:") w ->
      check_signature text = true) /\
  ((forall pre x y z ws post,
       text = pre ++ x :: y :: z :: ws ++ ch ":" :: post -> ~ stem_run x y z ws) ->
   check_signature text = false).
Proof.
  split.
  - intros pre w post -> [Hw Hmap]. apply check_signature_iff.
    destruct w as [|a w]; [discriminate|]. destruct w as [|s1 w]; [discriminate|].
    destruct w as [|s2 w]; [discriminate|]. destruct w as [|i w]; [discriminate|].
    destruct w as [|n w]; [discriminate|]. destruct w as [|a2 w]; [discriminate|].
    destruct w as [|t w]; [discriminate|]. destruct w as [|u w]; [discriminate|].
    destruct w as [|r w]; [discriminate|]. destruct w as [|a3 w]; [discriminate|].
    destruct w as [|c w]; [discriminate|]. destruct w; [|discriminate].
    revert Hmap. py_compute. intro Hmap.
    injection Hmap as Ha Hs1 Hs2 Hi Hn Ha2 Ht Hu Hr Ha3 Hc.
    repeat match goal with H : Forall _ (_ :: _) |- _ => inversion_clear H end.
    assert (c = 58%N) as ->.
    { unfold ascii_tolower in Hc. destruct (ascii_isupper c) eqn:E; [|assumption].
      unfold ascii_isupper, between in E. apply andb_true_iff in E.
      destruct E as [E1 E2]. apply N.leb_le in E1, E2. lia. }
    exists pre, a, s1, s2, [i; n; a2; t; u; r; a3], post.
    split; [reflexivity|]. unfold stem_run. py_compute.
    repeat split; try (apply literal_ignore_ascii; auto; reflexivity).
    repeat constructor;
      apply isword_ascii_letter; auto;
      match goal with H : ascii_tolower ?c = _ |- context [ascii_tolower ?c] =>
                      rewrite H; reflexivity end.
  - intro H. destruct (check_signature text) eqn:E; [exfalso | reflexivity].
    apply check_signature_iff in E.
    destruct E as (pre & x & y & z & ws & post & Ht & Hr).
    exact (H _ _ _ _ _ _ Ht Hr).
Qed.
End Signature.

(* ================================================================= *)
(** ** Running the patterns *)

Section Evaluation.
Context {U : UnicodeData}.

Lemma single_LITERAL av : single (literal_ignore av) (LITERAL av).
Proof. intros c ms k. reflexivity. Qed.

Lemma single_IN items : single (in_ignore items) (IN items).
Proof. intros c ms k. reflexivity. Qed.

Lemma skip_nil c : skip c [] (ahead c) = c.
Proof. destruct c. reflexivity. Qed.

Lemma skip_step c x run rest tail :
  skip (step c x tail) run rest = skip c (x :: run) rest.
Proof. unfold skip, step. simpl. f_equal. lia. Qed.

Lemma skip_skip c r1 r2 mid rest :
  skip (skip c r1 mid) r2 rest = skip c (r1 ++ r2) rest.
Proof.
  unfold skip. simpl. rewrite length_app, last_char_app. f_equal. lia.
Qed.

Lemma reaches_skip c run rest : ahead c = run ++ rest -> reaches c run (skip c run rest).
Proof. intro H. repeat split. exact H. Qed.

Lemma progress_step c x rest : ahead c = x :: rest -> progress c (step c x rest) = true.
Proof. intro H. unfold progress. rewrite H. simpl. apply Nat.ltb_lt. lia. Qed.

Lemma single_stops t a c ms k :
  single t a -> stops t (ahead c) -> sre_match a c ms k = None.
Proof.
  intros Ha Hs. rewrite Ha. destruct (ahead c) as [|y rest]; [reflexivity|].
  simpl in Hs. rewrite Hs. reflexivity.
Qed.

Lemma repeat_min_run t a :
  single t a ->
  forall run c ms k rest,
    ahead c = run ++ rest -> Forall (fun x => t x = true) run ->
    repeat_min (sre_match a) (length run) c ms k = k (skip c run rest) ms.
Proof.
  intros Ha run. induction run as [|x run IH]; intros c ms k rest Hc Hrun; simpl.
  - simpl in Hc. rewrite <- Hc, skip_nil. reflexivity.
  - inversion Hrun as [|? ? Hx Hrun']; subst. simpl in Hc.
    rewrite Ha, Hc, Hx. rewrite IH with (rest := rest); auto.
    rewrite skip_step. reflexivity.
Qed.

(** A greedy repeat reads a run as far as it goes, or as far as it may,
    when what follows succeeds there. *)
Lemma repeat_max_run t a :
  single t a ->
  forall run n c ms k rest res,
    ahead c = run ++ rest -> Forall (fun x => t x = true) run ->
    length run = n \/ length run < n /\ stops t rest ->
    k (skip c run rest) ms = Some res ->
    repeat_max (sre_match a) n c ms k = Some res.
Proof.
  intros Ha run. induction run as [|x run IH]; intros n c ms k rest res Hc Hrun Hn Hk.
  - simpl in Hc. rewrite <- Hc, skip_nil in Hk.
    destruct n as [|n]; simpl; [exact Hk|].
    destruct Hn as [Hn|[_ Hs]]; [discriminate|].
    assert (E : forall k', sre_match a c ms k' = None)
      by (intro; eapply single_stops; eauto; rewrite Hc; exact Hs).
    rewrite E. exact Hk.
  - inversion Hrun as [|? ? Hx Hrun']; subst. simpl in Hc.
    destruct n as [|n]; [simpl in Hn; lia|]. simpl.
    rewrite Ha, Hc, Hx, progress_step by exact Hc.
    rewrite IH with (rest := rest) (res := res); auto.
    + simpl in Hn. destruct Hn as [Hn|[Hn Hs]]; [left | right; split; auto]; lia.
    + rewrite skip_step. exact Hk.
Qed.

Lemma MAX_REPEAT_run t a lo hi :
  single t a ->
  forall run c ms k rest res,
    ahead c = run ++ rest -> Forall (fun x => t x = true) run ->
    lo <= length run ->
    match hi with
    | Some h => length run = h \/ length run < h /\ stops t rest
    | None => stops t rest
    end ->
    k (skip c run rest) ms = Some res ->
    sre_match (MAX_REPEAT lo hi a) c ms k = Some res.
Proof.
  intros Ha run c ms k rest res Hc Hrun Hlo Hhi Hk. simpl.
  rewrite <- (firstn_skipn lo run) in Hc, Hrun, Hk.
  set (r1 := firstn lo run) in *. set (r2 := skipn lo run) in *.
  assert (Hl1 : length r1 = lo) by (unfold r1; rewrite length_firstn; lia).
  assert (Hl2 : length r2 = length run - lo) by (unfold r2; apply length_skipn).
  apply Forall_app in Hrun. destruct Hrun as [Hrun1 Hrun2].
  rewrite <- app_assoc in Hc. rewrite <- Hl1.
  rewrite repeat_min_run with (t := t) (rest := r2 ++ rest); auto.
  apply repeat_max_run with (t := t) (run := r2) (rest := rest); auto.
  - simpl. destruct hi as [h|].
    + destruct Hhi as [Hh|[Hh Hs]]; [left | right; split; auto]; lia.
    + rewrite length_app. destruct rest as [|y rest]; [left; simpl; lia|].
      right. split; [simpl; lia | exact Hhi].
  - rewrite skip_skip. exact Hk.
Qed.

Lemma MAX_REPEAT_fail t a lo hi c ms k :
  single t a -> stops t (ahead c) -> sre_match (MAX_REPEAT (S lo) hi a) c ms k = None.
Proof. intros Ha Hs. simpl. apply single_stops with (t := t); assumption. Qed.

Lemma Optional_skip r c ms k :
  (forall k', sre_match r c ms k' = None) -> sre_match (Optional r) c ms k = k c ms.
Proof. intro H. simpl. rewrite H. reflexivity. Qed.

Lemma Optional_take r c ms k res :
  sre_match r c ms (fun c' ms' => if progress c c' then k c' ms' else None) = Some res ->
  sre_match (Optional r) c ms k = Some res.
Proof. intro H. simpl. rewrite H. reflexivity. Qed.

Lemma BRANCH_first r1 r2 c ms k res :
  sre_match r1 c ms k = Some res -> sre_match (BRANCH r1 r2) c ms k = Some res.
Proof. intro H. simpl. rewrite H. reflexivity. Qed.

Lemma literals_run kw : forall run c ms k rest,
  ahead c = run ++ rest -> same_ignore kw run ->
  sre_match (literals kw) c ms k = k (skip c run rest) ms.
Proof.
  unfold same_ignore. induction kw as [|a kw IH]; intros run c ms k rest Hc Hrun.
  - inversion Hrun; subst. simpl in *. rewrite <- Hc, skip_nil. reflexivity.
  - inversion Hrun as [|? x ? run' Hx Hrun']; subst. simpl in Hc.
    change (sre_match (literals (a :: kw)) c ms k)
      with (sre_match (LITERAL a) c ms (fun c' ms' => sre_match (literals kw) c' ms' k)).
    simpl. rewrite Hc, Hx. rewrite IH with (run := run') (rest := rest); auto.
    rewrite skip_step. reflexivity.
Qed.

Lemma progress_skip c run rest :
  run <> [] -> ahead c = run ++ rest -> progress c (skip c run rest) = true.
Proof.
  intros Hne Hc. unfold progress. rewrite Hc. simpl. rewrite length_app.
  apply Nat.ltb_lt. destruct run; [congruence | simpl; lia].
Qed.

Lemma sre_match_Seq_eq r1 r2 c ms k :
  sre_match (Seq r1 r2) c ms k = sre_match r1 c ms (fun c' ms' => sre_match r2 c' ms' k).
Proof. reflexivity. Qed.

Lemma sre_match_SUBPATTERN_eq g r c ms k :
  sre_match (SUBPATTERN g r) c ms k =
  sre_match r c ms (fun c' ms' => k c' ((g, (pos c, pos c')) :: ms')).
Proof. reflexivity. Qed.

Lemma sre_match_AT_BOUNDARY c ms k :
  at_boundary c = true -> sre_match AT_BOUNDARY c ms k = k c ms.
Proof. intro H. simpl. rewrite H. reflexivity. Qed.

(** [re.search] returns the match at the first start that has one. *)
Lemma re_search_at p pre rest m :
  (forall pre' w' post',
      pre ++ rest = pre' ++ w' ++ post' -> Occurs p pre' w' post' ->
      length pre <= length pre') ->
  match_at p (pre ++ rest) (cursor_at pre rest) = Some m ->
  re_search p (pre ++ rest) = Some m.
Proof.
  intros Hfirst Hm. destruct (re_search p (pre ++ rest)) as [m'|] eqn:E.
  - rewrite re_search_start in E. apply search_from_some in E.
    destruct E as (mid & rest' & Ht & Hm' & Hnone). simpl in Hm', Hnone.
    pose proof Hm' as Ho. apply match_at_some in Ho.
    destruct Ho as (w & c' & HM & (Ha & _) & _). simpl in Ha, HM.
    assert (Hle : length pre <= length mid).
    { apply (Hfirst mid w (ahead c')); [rewrite Ht, Ha; reflexivity | exact HM]. }
    apply app_eq_app in Ht. destruct Ht as (l & [(E1 & E2) | (E1 & E2)]).
    + destruct l as [|x l].
      * rewrite app_nil_r in E1. simpl in E2. subst. congruence.
      * subst pre. rewrite length_app in Hle. simpl in Hle. lia.
    + destruct l as [|x l].
      * rewrite app_nil_r in E1. simpl in E2. subst. congruence.
      * specialize (Hnone pre x l E1). subst rest.
        change ((x :: l) ++ rest') with (x :: l ++ rest') in *.
        rewrite Hnone in Hm. discriminate.
  - rewrite re_search_start in E.
    apply search_from_none with (before := []) (mid := pre) (rest' := rest) in E; auto.
    simpl in E. congruence.
Qed.

Lemma slice_shift (pre s : str) a b :
  slice (pre ++ s) (a + length pre) (b + length pre) = slice s a b.
Proof.
  unfold slice. replace (b + length pre - (a + length pre)) with (b - a) by lia.
  rewrite skipn_app, skipn_all2 by lia. simpl.
  replace (a + length pre - length pre) with a by lia. reflexivity.
Qed.
End Evaluation.

(** Unfold a sequence at the head of the run. *)
Ltac seq := rewrite sre_match_Seq_eq; cbv beta.

Section Registry.
Context {U : UnicodeData}.

Lemma stops_digit post :
  isdecimal_opt (hd_error post) = false -> stops (in_ignore [Digit]) post.
Proof. destruct post; simpl; auto. intro H. rewrite in_ignore_Digit. exact H. Qed.

Ltac run_set r rs :=
  eapply MAX_REPEAT_run with (run := r) (rest := rs);
  [apply single_IN | reflexivity | repeat constructor | simpl; lia | | cbv beta].

Lemma registry_run_CRM_SP b p post :
  isword_opt b = false -> isdecimal_opt (hd_error post) = false ->
  sre_match pattern {| pos := p; behind := b; ahead := py "CRM/SP 123456" ++ post |} [] accept
  = Some ({| pos := 13 + p; behind := Some (ch "6"); ahead := post |},
          [(3, (7 + p, 13 + p)); (2, (4 + p, 6 + p)); (1, (p, 3 + p))]).
Proof.
  intros Hb Hpost. unfold pattern. py_compute. simpl app.
  seq. rewrite sre_match_AT_BOUNDARY
    by (unfold at_boundary, boundary; simpl; rewrite Hb; vm_compute; reflexivity).
  seq. rewrite sre_match_SUBPATTERN_eq. unfold registry_types. apply BRANCH_first.
  py_compute.
  rewrite literals_run with (run := [67; 82; 77]%N) (rest := ([47; 83; 80; 32; 49; 50; 51; 52; 53; 54] ++ post)%N);
    [|reflexivity | repeat constructor].
  seq. rewrite sre_match_AT_BOUNDARY by (vm_compute; reflexivity).
  seq. unfold Star. run_set [47%N] ([83; 80; 32; 49; 50; 51; 52; 53; 54] ++ post)%N.
  { vm_compute. reflexivity. }
  seq. apply Optional_take. rewrite sre_match_SUBPATTERN_eq.
  run_set [83; 80]%N ([32; 49; 50; 51; 52; 53; 54] ++ post)%N.
  { left. reflexivity. }
  rewrite progress_skip by (discriminate || reflexivity).
  seq. run_set [32%N] ([49; 50; 51; 52; 53; 54] ++ post)%N.
  { vm_compute. reflexivity. }
  rewrite sre_match_SUBPATTERN_eq. unfold Plus.
  run_set [49; 50; 51; 52; 53; 54]%N post.
  { apply stops_digit. exact Hpost. }
  reflexivity.
Qed.

Lemma registry_run_CRM b p post :
  isword_opt b = false -> isdecimal_opt (hd_error post) = false ->
  sre_match pattern {| pos := p; behind := b; ahead := py "CRM 123456" ++ post |} [] accept
  = Some ({| pos := 10 + p; behind := Some (ch "6"); ahead := post |},
          [(3, (4 + p, 10 + p)); (1, (p, 3 + p))]).
Proof.
  intros Hb Hpost. unfold pattern. py_compute. simpl app.
  seq. rewrite sre_match_AT_BOUNDARY
    by (unfold at_boundary, boundary; simpl; rewrite Hb; vm_compute; reflexivity).
  seq. rewrite sre_match_SUBPATTERN_eq. unfold registry_types. apply BRANCH_first.
  py_compute.
  rewrite literals_run with (run := [67; 82; 77]%N) (rest := ([32; 49; 50; 51; 52; 53; 54] ++ post)%N);
    [|reflexivity | repeat constructor].
  seq. rewrite sre_match_AT_BOUNDARY by (vm_compute; reflexivity).
  seq. unfold Star. run_set [32%N] ([49; 50; 51; 52; 53; 54] ++ post)%N.
  { vm_compute. reflexivity. }
  seq. rewrite Optional_skip.
  2:{ intro k'. rewrite sre_match_SUBPATTERN_eq.
      eapply MAX_REPEAT_fail; [apply single_IN | vm_compute; reflexivity]. }
  seq. run_set (@nil N) ([49; 50; 51; 52; 53; 54] ++ post)%N.
  { vm_compute. reflexivity. }
  rewrite sre_match_SUBPATTERN_eq. unfold Plus.
  run_set [49; 50; 51; 52; 53; 54]%N post.
  { apply stops_digit. exact Hpost. }
  reflexivity.
Qed.

(** C4, as amended.  When "CRM/SP 123456" stands in the text where the
    first match of the registry pattern starts, with no word character
    right before it and no digit right after it, [extract_registry]
    returns the label "CRM/SP 123456" and the status 'Ativo'; in the
    same place "CRM 123456" gives the label "CRM/ 123456", with an
    empty state, and 'Ativo'. *)
Theorem extract_registry_first text pre post :
  isword_opt (last_char None pre) = false ->
  isdecimal_opt (hd_error post) = false ->
  first_start pattern text pre ->
  (text = pre ++ py "CRM/SP 123456" ++ post ->
   extract_registry text = Ok (Some (py "CRM/SP 123456"), Some (py "Ativo"))) /\
  (text = pre ++ py "CRM 123456" ++ post ->
   extract_registry text = Ok (Some (py "CRM/ 123456"), Some (py "Ativo"))).
Proof.
  intros Hpre Hpost Hfirst. split; intros ->; unfold extract_registry.
  - erewrite re_search_at; [|exact Hfirst|].
    2:{ unfold match_at, cursor_at. rewrite registry_run_CRM_SP by assumption. reflexivity. }
    unfold group. cbn [m_marks m_string lookup Nat.eqb].
    rewrite (slice_shift pre _ 0 3), (slice_shift pre _ 4 6), (slice_shift pre _ 7 13).
    py_compute. vm_compute. reflexivity.
  - erewrite re_search_at; [|exact Hfirst|].
    2:{ unfold match_at, cursor_at. rewrite registry_run_CRM by assumption. reflexivity. }
    unfold group. cbn [m_marks m_string lookup Nat.eqb].
    rewrite (slice_shift pre _ 0 3), (slice_shift pre _ 4 10).
    py_compute. vm_compute. reflexivity.
Qed.
End Registry.

(** ** The diagnosis code *)

Lemma In_N_range a b c : (a <= c <= b)%N -> In c (N_range a b).
Proof.
  intro H. unfold N_range. apply in_map_iff. exists (N.to_nat c).
  split; [apply N2Nat.id|]. apply in_seq. lia.
Qed.

(** A property of the ASCII code points is checked by running over them. *)
Lemma ascii_forall (P : N -> bool) :
  forallb P (N_range 0 127) = true -> forall c, (c < 128)%N -> P c = true.
Proof.
  intros H c Hc. rewrite forallb_forall in H. apply H. apply In_N_range. lia.
Qed.

Section Code.
Context {U : UnicodeData}.

Lemma take_digits_spec n : forall s,
  s = take_digits n s ++ skipn (length (take_digits n s)) s /\
  Forall (fun x => in_ignore [Digit] x = true) (take_digits n s) /\
  (length (take_digits n s) = n \/
   length (take_digits n s) < n /\
   stops (in_ignore [Digit]) (skipn (length (take_digits n s)) s)).
Proof.
  induction n as [|n IH]; intros s; simpl.
  - destruct s; simpl; auto.
  - destruct s as [|d s]; simpl.
    + repeat split; auto. right. split; [lia | exact I].
    + destruct (isdecimal d) eqn:E; simpl.
      * destruct (IH s) as (H1 & H2 & H3). repeat split.
        -- f_equal. exact H1.
        -- constructor; [rewrite in_ignore_Digit; exact E | exact H2].
        -- destruct H3 as [H3|[H3 H4]]; [left | right; split; auto]; lia.
      * repeat split; auto. right. split; [lia|]. rewrite in_ignore_Digit. exact E.
Qed.

Lemma in_ignore_letter l :
  ascii_isalpha l = true ->
  in_ignore [SET_RANGE (ch "a") (ch "z"); SET_RANGE (ch "A") (ch "Z")] l = true.
Proof.
  intro H.
  assert (Hl : (l < 128)%N).
  { unfold ascii_isalpha, ascii_isupper, ascii_islower, between in H.
    rewrite orb_true_iff, !andb_true_iff, !N.leb_le in H. lia. }
  pose proof (ascii_forall
                (fun l => implb (ascii_isalpha l)
                            (in_ignore [SET_RANGE (ch "a") (ch "z");
                                        SET_RANGE (ch "A") (ch "Z")] l))) as Hall.
  specialize (Hall ltac:(vm_compute; reflexivity) l Hl). cbv beta in Hall.
  rewrite H in Hall. exact Hall.
Qed.

Lemma literal_ignore_dot c : literal_ignore (ch ".") c = (c =? ch ".")%N.
Proof.
  unfold literal_ignore.
  replace (sre_iscased (ch ".")) with false by (vm_compute; reflexivity). reflexivity.
Qed.

Lemma LITERAL_hit av x rest c ms k :
  ahead c = x :: rest -> literal_ignore av x = true ->
  sre_match (LITERAL av) c ms k = k (skip c [x] rest) ms.
Proof. intros Hc Hx. simpl. rewrite Hc, Hx. reflexivity. Qed.

Lemma IN_hit items x rest c ms k :
  ahead c = x :: rest -> in_ignore items x = true ->
  sre_match (IN items) c ms k = k (skip c [x] rest) ms.
Proof. intros Hc Hx. simpl. rewrite Hc, Hx. reflexivity. Qed.

(** [(\.\d{1,2})?] reads the fraction at the cursor. *)
Lemma cid_fraction_run c ms k :
  exists rest ms',
    ahead c = fraction_at (ahead c) ++ rest /\
    forall res,
      k (skip c (fraction_at (ahead c)) rest) ms' = Some res ->
      sre_match cid_fraction c ms k = Some res.
Proof.
  unfold cid_fraction.
  assert (Hskip : fraction_at (ahead c) = [] ->
                  (forall k', sre_match (SUBPATTERN 2 (Seq (LITERAL (ch "."))
                                 (MAX_REPEAT 1 (Some 2) (IN [Digit])))) c ms k' = None) ->
                  exists rest ms',
                    ahead c = fraction_at (ahead c) ++ rest /\
                    forall res,
                      k (skip c (fraction_at (ahead c)) rest) ms' = Some res ->
                      sre_match
                        (Optional (SUBPATTERN 2 (Seq (LITERAL (ch "."))
                                    (MAX_REPEAT 1 (Some 2) (IN [Digit]))))) c ms k
                      = Some res).
  { intros E Hfail. exists (ahead c), ms. rewrite E. split; [reflexivity|].
    intros res Hk. rewrite skip_nil in Hk. rewrite Optional_skip; assumption. }
  destruct (ahead c) as [|dot s3] eqn:Hc.
  - apply Hskip; [reflexivity|]. intro k'.
    rewrite sre_match_SUBPATTERN_eq. seq. rewrite (single_LITERAL (ch ".")), Hc. reflexivity.
  - destruct (dot =? ch ".")%N eqn:Edot.
    + destruct (take_digits_spec 2 s3) as (Hs3 & Hd & Hmax).
      destruct (take_digits 2 s3) as [|f0 fs0] eqn:Efs.
      * apply Hskip; [unfold fraction_at; rewrite Edot, Efs; reflexivity|].
        apply N.eqb_eq in Edot. subst dot.
        intro k'. rewrite sre_match_SUBPATTERN_eq. seq.
        rewrite LITERAL_hit with (x := ch ".") (rest := s3);
          [|exact Hc | vm_compute; reflexivity].
        eapply MAX_REPEAT_fail; [apply single_IN|]. simpl.
        destruct Hmax as [Hmax|[_ Hmax]]; [discriminate | exact Hmax].
      * assert (E : fraction_at (dot :: s3) = dot :: f0 :: fs0)
          by (unfold fraction_at; rewrite Edot, Efs; reflexivity).
        rewrite E. apply N.eqb_eq in Edot. subst dot.
        exists (skipn (length (f0 :: fs0)) s3),
               ((2, (pos c, length (ch "." :: f0 :: fs0) + pos c)) :: ms).
        split; [simpl; f_equal; exact Hs3|].
        intros res Hk. apply Optional_take. rewrite sre_match_SUBPATTERN_eq. seq.
        rewrite LITERAL_hit with (x := ch ".") (rest := s3);
          [|exact Hc | vm_compute; reflexivity].
        eapply MAX_REPEAT_run with (run := f0 :: fs0);
          [apply single_IN | exact Hs3 | exact Hd | simpl; lia | exact Hmax | cbv beta].
        rewrite skip_skip. rewrite progress_skip; [exact Hk | discriminate |].
        rewrite Hc. simpl. f_equal. exact Hs3.
    + apply Hskip; [unfold fraction_at; rewrite Edot; reflexivity|]. intro k'.
      rewrite sre_match_SUBPATTERN_eq. seq.
      rewrite (single_LITERAL (ch ".")), Hc, literal_ignore_dot, Edot. reflexivity.
Qed.

(** Group 1 reads the code at the cursor, as far as it goes. *)
Lemma cid_code_run c ms code :
  code_at (ahead c) = Some code ->
  exists rest ms',
    ahead c = code ++ rest /\
    sre_match (SUBPATTERN 1 cid_code) c ms accept
    = Some (skip c code rest, (1, (pos c, length code + pos c)) :: ms').
Proof.
  unfold code_at. destruct (ahead c) as [|l s1] eqn:Hc; [discriminate|].
  destruct (ascii_isalpha l) eqn:Hl; [|discriminate].
  destruct (take_digits_spec 2 s1) as (Hs1 & Hd & Hmax).
  destruct (take_digits 2 s1) as [|d0 ds0] eqn:Eds; [discriminate|].
  intro Hcode.
  assert (Hcode' : code = l :: (d0 :: ds0) ++ fraction_at (skipn (length (d0 :: ds0)) s1))
    by congruence.
  clear Hcode. set (ds := d0 :: ds0) in *. set (s2 := skipn (length ds) s1) in *.
  rewrite Hcode'. clear Hcode' code.
  assert (Hds : 1 <= length ds) by (simpl; lia).
  set (c2 := skip c (l :: ds) s2).
  destruct (cid_fraction_run c2 ms
              (fun c' ms' => accept c' ((1, (pos c, pos c')) :: ms')))
    as (rest & ms' & Hrest & Hrun).
  simpl ahead in Hrest, Hrun.
  exists rest, ms'. split.
  - simpl. f_equal. rewrite <- app_assoc, <- Hrest. exact Hs1.
  - rewrite sre_match_SUBPATTERN_eq. unfold cid_code. seq.
    rewrite IN_hit with (x := l) (rest := s1); [|exact Hc | apply in_ignore_letter; exact Hl].
    seq.
    eapply MAX_REPEAT_run with (run := ds) (rest := s2);
      [apply single_IN | exact Hs1 | exact Hd | exact Hds | exact Hmax | cbv beta].
    rewrite skip_skip. fold cid_fraction. apply Hrun.
    unfold c2, accept. rewrite skip_skip. reflexivity.
Qed.
End Code.

Section Cid.
Context {U : UnicodeData}.

Lemma in_ignore_dash_space x :
  in_ignore [SET_LITERAL (ch "-"); Space] x = dash_or_space x.
Proof.
  unfold in_ignore, dash_or_space, Space.
  replace (existsb item_iscased [SET_LITERAL (ch "-"); SET_CATEGORY CATEGORY_SPACE])
    with false by (vm_compute; reflexivity).
  cbn [existsb item_test in_category].
  replace (fix_set (ch "-")) with [ch "-"] by (vm_compute; reflexivity).
  cbn [mem]. rewrite !orb_false_r. reflexivity.
Qed.

Lemma in_ignore_separator x :
  in_ignore [SET_LITERAL (ch ":"); SET_LITERAL (ch "-"); Space] x = separator x.
Proof.
  unfold in_ignore, separator, Space.
  replace (existsb item_iscased
             [SET_LITERAL (ch ":"); SET_LITERAL (ch "-"); SET_CATEGORY CATEGORY_SPACE])
    with false by (vm_compute; reflexivity).
  cbn [existsb item_test in_category].
  replace (fix_set (ch ":")) with [ch ":"] by (vm_compute; reflexivity).
  replace (fix_set (ch "-")) with [ch "-"] by (vm_compute; reflexivity).
  cbn [mem]. rewrite !orb_false_r, orb_assoc. reflexivity.
Qed.

Lemma ascii_isalpha_lt l : ascii_isalpha l = true -> (l < 128)%N.
Proof.
  unfold ascii_isalpha, ascii_isupper, ascii_islower, between.
  rewrite orb_true_iff, !andb_true_iff, !N.leb_le. lia.
Qed.

(** A letter is neither white space nor a separator. *)
Lemma letter_not_separator l :
  ascii_isalpha l = true -> isspace l = false /\ separator l = false.
Proof.
  intro H. pose proof (ascii_isalpha_lt _ H) as Hl.
  pose proof (ascii_forall
                (fun l => implb (ascii_isalpha l) (negb (isspace l) && negb (separator l))))
    as Hall.
  specialize (Hall ltac:(vm_compute; reflexivity) l Hl). cbv beta in Hall.
  rewrite H in Hall. simpl in Hall. apply andb_true_iff in Hall.
  destruct Hall as [H1 H2]. apply negb_true_iff in H1, H2. auto.
Qed.

(** The separator part [\s*[:\-\s]?\s*] runs through white space, at
    most one colon or dash and white space again, up to the letter. *)
Lemma cid_separator_run c ws1 sep ws2 l tail g ms k res :
  ahead c = ws1 ++ sep ++ ws2 ++ l :: tail ->
  spaces ws1 -> optional_of separator sep -> spaces ws2 ->
  ascii_isalpha l = true ->
  sre_match g (skip c (ws1 ++ sep ++ ws2) (l :: tail)) ms k = Some res ->
  sre_match
    (Seq (Star (IN [Space]))
         (Seq (Optional (IN [SET_LITERAL (ch ":"); SET_LITERAL (ch "-"); Space]))
              (Seq (Star (IN [Space])) g)))
    c ms k = Some res.
Proof.
  intros Hc H1 Hsep H2 Hl Hk.
  destruct (letter_not_separator _ Hl) as [Hls Hlsep].
  assert (Hspaces : forall ws, spaces ws -> Forall (fun x => in_ignore [Space] x = true) ws).
  { intros ws Hws. eapply Forall_impl; [|exact Hws]. intros a Ha.
    rewrite in_ignore_Space. exact Ha. }
  (* the separator part is white space all through *)
  assert (Hall : forall j, ahead c = j ++ l :: tail -> spaces j ->
                           sre_match g (skip c j (l :: tail)) ms k = Some res ->
                           sre_match
                             (Seq (Star (IN [Space]))
                                  (Seq (Optional (IN [SET_LITERAL (ch ":");
                                                      SET_LITERAL (ch "-"); Space]))
                                       (Seq (Star (IN [Space])) g)))
                             c ms k = Some res).
  { intros j Hj Hjs Hkj. seq. unfold Star, Optional.
    eapply MAX_REPEAT_run with (run := j) (rest := l :: tail);
      [apply single_IN | exact Hj | apply Hspaces; exact Hjs | lia
       | simpl; rewrite in_ignore_Space; exact Hls | cbv beta].
    seq. eapply MAX_REPEAT_run with (run := []) (rest := l :: tail);
      [apply single_IN | reflexivity | constructor | simpl; lia
       | right; split; [simpl; lia | simpl; rewrite in_ignore_separator; exact Hlsep]
       | cbv beta].
    seq. eapply MAX_REPEAT_run with (run := []) (rest := l :: tail);
      [apply single_IN | reflexivity | constructor | simpl; lia
       | simpl; rewrite in_ignore_Space; exact Hls | cbv beta].
    rewrite !skip_skip, !app_nil_r. exact Hkj. }
  destruct Hsep as [-> | (x & -> & Hx)].
  - simpl in *. apply (Hall (ws1 ++ ws2)).
    + rewrite <- app_assoc. exact Hc.
    + apply Forall_app. auto.
    + exact Hk.
  - destruct (isspace x) eqn:Ex.
    + apply (Hall (ws1 ++ [x] ++ ws2)).
      * rewrite <- !app_assoc. exact Hc.
      * apply Forall_app. split; [exact H1|]. constructor; assumption.
      * exact Hk.
    + seq. unfold Star, Optional.
      eapply MAX_REPEAT_run with (run := ws1) (rest := [x] ++ ws2 ++ l :: tail);
        [apply single_IN | exact Hc | apply Hspaces; exact H1 | lia
         | simpl; rewrite in_ignore_Space; exact Ex | cbv beta].
      seq. eapply MAX_REPEAT_run with (run := [x]) (rest := ws2 ++ l :: tail);
        [apply single_IN | reflexivity
         | repeat constructor; rewrite in_ignore_separator; exact Hx
         | simpl; lia | left; reflexivity | cbv beta].
      seq. eapply MAX_REPEAT_run with (run := ws2) (rest := l :: tail);
        [apply single_IN | reflexivity | apply Hspaces; exact H2 | lia
         | simpl; rewrite in_ignore_Space; exact Hls | cbv beta].
      rewrite !skip_skip. exact Hk.
Qed.

(** From the marker on, the pattern reads the version, the separator
    part and then the code. *)
Lemma cid_pattern_run c marker d ws1 sep ws2 l tail code :
  ahead c = marker ++ d ++ py "10" ++ ws1 ++ sep ++ ws2 ++ l :: tail ->
  ascii_caseless (py "cid") marker ->
  optional_of dash_or_space d ->
  spaces ws1 -> optional_of separator sep -> spaces ws2 ->
  code_at (l :: tail) = Some code ->
  exists c7 w0 rest ms',
    reaches c w0 c7 /\ ahead c7 = code ++ rest /\
    sre_match cid_pattern c [] accept
    = Some (skip c7 code rest, (1, (pos c7, length code + pos c7)) :: ms').
Proof.
  intros Hc Hmarker Hd H1 Hsep H2 Hcode.
  assert (Hl : ascii_isalpha l = true).
  { unfold code_at in Hcode. destruct (ascii_isalpha l); [reflexivity | discriminate]. }
  set (w0 := marker ++ d ++ py "10" ++ ws1 ++ sep ++ ws2).
  set (c7 := skip c w0 (l :: tail)).
  destruct (@cid_code_run U c7 [] code Hcode) as (rest & ms' & Hrest & Hrun).
  exists c7, w0, rest, ms'. split; [|split; [exact Hrest | ]].
  { apply reaches_skip. unfold w0. rewrite <- !app_assoc. exact Hc. }
  unfold cid_pattern. revert Hc. py_compute. simpl app. intro Hc.
  seq. rewrite literals_run with (run := marker)
                                 (rest := d ++ 49%N :: 48%N :: ws1 ++ sep ++ ws2 ++ l :: tail);
    [|exact Hc | apply same_ignore_ascii; [reflexivity | exact Hmarker]].
  seq. unfold Optional at 1.
  eapply MAX_REPEAT_run with (run := d) (rest := 49%N :: 48%N :: ws1 ++ sep ++ ws2 ++ l :: tail);
    [apply single_IN | reflexivity | | lia | | cbv beta].
  { destruct Hd as [-> | (x & -> & Hx)]; repeat constructor.
    rewrite in_ignore_dash_space. exact Hx. }
  { destruct Hd as [-> | (x & -> & Hx)]; [right | left; reflexivity].
    split; [simpl; lia | vm_compute; reflexivity]. }
  seq. rewrite LITERAL_hit with (x := 49%N) (rest := 48%N :: ws1 ++ sep ++ ws2 ++ l :: tail);
    [|reflexivity | vm_compute; reflexivity].
  seq. unfold Optional at 1.
  eapply MAX_REPEAT_run with (run := [48%N]) (rest := ws1 ++ sep ++ ws2 ++ l :: tail);
    [apply single_LITERAL | reflexivity | repeat constructor | simpl; lia
     | left; reflexivity | cbv beta].
  rewrite !skip_skip.
  apply cid_separator_run with (ws1 := ws1) (sep := sep) (ws2 := ws2) (l := l) (tail := tail);
    auto.
  rewrite skip_skip.
  replace ((marker ++ d ++ [49%N] ++ [48%N]) ++ ws1 ++ sep ++ ws2) with w0
    by (unfold w0; rewrite <- !app_assoc; reflexivity).
  exact Hrun.
Qed.

Lemma Matches_Optional_one r l w rt :
  Matches r l w rt -> w <> [] -> Matches (Optional r) l w rt.
Proof.
  intros H Hw. unfold Optional. simpl. exists [], w, 1. simpl.
  repeat split; auto. exists w, []. rewrite app_nil_r. simpl. auto.
Qed.

Lemma Matches_cid_relaxed l w rt :
  Matches cid_pattern l w rt -> Matches cid_relaxed l w rt.
Proof.
  unfold cid_pattern, cid_relaxed.
  intros (w1 & w2 & -> & H1 & w3 & w4 & -> & H2 & w5 & w6 & -> & H3 & H4).
  exists w1, (w3 ++ w5 ++ w6). split; [reflexivity|]. split; [exact H1|].
  exists w3, (w5 ++ w6). split; [reflexivity|]. split; [exact H2|].
  exists w5, w6. split; [reflexivity|]. split; [|exact H4].
  apply Matches_Optional_one; [exact H3|].
  destruct H3 as (x & -> & _). discriminate.
Qed.

(** X17.  When the first match of the pattern starts at
    'CID' in any case, followed by an optional dash or white space,
    "10", white space, at most one colon or dash, white space and a
    code (a letter, one or two digits and, when a dot and a digit
    follow, the dot and one or two digits), [extract_cid] returns the
    code, as far as it goes, in upper case.  When the text holds no
    such run, with the digits 1 and 0 each there or not, it returns
    [None]. *)
Theorem extract_cid_after_10 text :
  (forall pre marker d ws1 sep ws2 l tail code,
      text = pre ++ marker ++ d ++ py "10" ++ ws1 ++ sep ++ ws2 ++ l :: tail ->
      ascii_caseless (py "cid") marker ->
      optional_of dash_or_space d ->
      spaces ws1 -> optional_of separator sep -> spaces ws2 ->
      code_at (l :: tail) = Some code ->
      first_start cid_pattern text pre ->
      extract_cid text = Ok (Some (py_upper code))) /\
  ((forall pre w post, text = pre ++ w ++ post -> ~ Occurs cid_relaxed pre w post) ->
   extract_cid text = Ok None).
Proof.
  split.
  - intros pre marker d ws1 sep ws2 l tail code -> Hmarker Hd H1 Hsep H2 Hcode Hfirst.
    destruct (@cid_pattern_run
                (cursor_at pre (marker ++ d ++ py "10" ++ ws1 ++ sep ++ ws2 ++ l :: tail))
                marker d ws1 sep ws2 l tail code eq_refl Hmarker Hd H1 Hsep H2 Hcode)
      as (c7 & w0 & rest & ms' & Hr & Hrest & Hrun).
    unfold extract_cid. erewrite re_search_at; [|exact Hfirst|].
    2:{ unfold match_at. rewrite Hrun. reflexivity. }
    unfold group. cbn [m_marks m_string lookup Nat.eqb].
    destruct (reaches_valid (valid_cursor_at pre _) Hr) as [Hv7 _].
    destruct (reaches_valid Hv7 (reaches_skip c7 code rest Hrest)) as [_ Hslice].
    simpl pos in Hslice. rewrite Hslice. reflexivity.
  - intro Hnone. unfold extract_cid.
    destruct (re_search cid_pattern text) as [m|] eqn:E; [exfalso | reflexivity].
    apply re_search_some in E. destruct E as (pre & w & post & Ht & Ho & _).
    apply (Hnone pre w post Ht). apply Matches_cid_relaxed. exact Ho.
Qed.
End Cid.

(* ================================================================= *)
(** ** Lemmas for concrete texts *)

Section Deciding.
Context {U : UnicodeData}.

(** The verified search decides whether a pattern occurs. *)
Lemma re_search_occurs p text :
  re_search p text <> None ->
  exists pre w post, text = pre ++ w ++ post /\ Occurs p pre w post.
Proof.
  intro H. destruct (re_search p text) as [m|] eqn:E; [|congruence].
  apply re_search_some in E. destruct E as (pre & w & post & Ht & Ho & _). eauto.
Qed.

(** The start of the match found is the first start of any match. *)
Lemma first_start_search p text pre m :
  re_search p text = Some m -> m_start m = length pre -> first_start p text pre.
Proof.
  intros E Hs. apply re_search_some in E.
  destruct E as (pre0 & w & post & _ & _ & _ & Hstart & _ & _ & Hfirst).
  intros pre' w' post' Ht Ho. rewrite <- Hs, Hstart. eauto.
Qed.

Lemma same_ignore_b_true kw w : same_ignore kw w -> same_ignore_b kw w = true.
Proof.
  unfold same_ignore. induction 1 as [|av c kw' w' Hc _ IH]; simpl.
  - reflexivity.
  - rewrite Hc, IH. reflexivity.
Qed.

Lemma same_ignore_length kw w : same_ignore kw w -> length w = length kw.
Proof. unfold same_ignore. induction 1; simpl; congruence. Qed.

(** The parts of a text cut in three are told by their lengths. *)
Lemma split_at (text pre w post : str) :
  text = pre ++ w ++ post ->
  pre = firstn (length pre) text /\
  w = firstn (length w) (skipn (length pre) text) /\
  post = skipn (length w) (skipn (length pre) text) /\
  length pre + length w <= length text.
Proof.
  intros ->. rewrite firstn_app, firstn_all, Nat.sub_diag. simpl. rewrite app_nil_r.
  rewrite skipn_app, skipn_all, Nat.sub_diag. simpl.
  rewrite firstn_app, firstn_all, Nat.sub_diag. simpl. rewrite app_nil_r.
  rewrite skipn_app, skipn_all, Nat.sub_diag. simpl.
  rewrite !length_app. repeat split. lia.
Qed.

Lemma in_middle (a : str) b c : In b (a ++ b :: c).
Proof. apply in_or_app. right. left. reflexivity. Qed.
End Deciding.

(* ================================================================= *)
(** ** The program on Portuguese text *)

Lemma latin1_toupper_full_nonempty c : @uc_toupper_full latin1 c <> [].
Proof. simpl. destruct (c =? 223)%N; discriminate. Qed.

Example scenario_approved :
  exists res,
    @analyse latin1 scenario = Ok res /\
    doc_type res = py "Laudo" /\ cid res = Some (py "J45.0") /\
    registry_info res = (Some (py "CRM/RJ 98765"), Some (py "Ativo")) /\
    afastamento res = true /\ signature res = true /\
    is_approved res = true.
Proof. eexists. split; [vm_compute; reflexivity|]. vm_compute. auto 10. Qed.

Example scenario_without_cid_rejected :
  exists res,
    @analyse latin1 scenario_without_cid = Ok res /\
    is_valid_type res = true /\ truthy (cid res) = false /\
    is_active_registry res = true /\
    afastamento res = true /\ signature res = true /\
    is_approved res = false.
Proof. eexists. split; [vm_compute; reflexivity|]. vm_compute. auto 10. Qed.

Lemma is_approved_iff_witness :
  (exists res,
      @analyse latin1 scenario = Ok res /\ well_formed res /\ is_approved res = true) /\
  well_formed inactive_record /\ is_approved inactive_record = false.
Proof.
  destruct (@is_approved_iff latin1) as (Hcode & Hmodel & Hanalyse).
  split; [|split].
  - destruct (@analyse_total latin1 scenario) as [res Hres]. exists res.
    pose proof (Hanalyse latin1_toupper_full_nonempty scenario res Hres) as Hwf.
    split; [exact Hres|]. split; [exact Hwf|].
    apply (Hmodel res Hwf). vm_compute in Hres. injection Hres as <-.
    vm_compute. repeat split; eauto. discriminate.
  - split; [right; vm_compute; eauto | right; vm_compute; eauto].
  - destruct (is_approved inactive_record) eqn:E; [exfalso | reflexivity].
    apply Hcode in E. destruct E as (_ & _ & E & _). vm_compute in E. discriminate.
Defined.

Lemma classify_document_precedence_witness :
  @classify_document latin1 (py "LAUDO com resultado de exame") = py "Laudo com Exame" /\
  @classify_document latin1 (py "Hemograma completo") = py "Exame" /\
  @classify_document latin1 (py "RELATÓRIO MÉDICO") = py "Laudo" /\
  @classify_document latin1 (py "receita") = py "Desconhecido" /\
  @mentions latin1 report_keywords (py "ver ATESTADO anexo").
Proof.
  split; [|split; [|split; [|split]]].
  - apply (@classify_document_precedence latin1).
    + apply existsb_mentions. vm_compute. reflexivity.
    + apply existsb_mentions. vm_compute. reflexivity.
  - apply (@classify_document_precedence latin1).
    + apply existsb_mentions. vm_compute. reflexivity.
    + apply existsb_not_mentions. vm_compute. reflexivity.
  - apply (@classify_document_precedence latin1).
    + apply existsb_not_mentions. vm_compute. reflexivity.
    + apply existsb_mentions. vm_compute. reflexivity.
  - apply (@classify_document_precedence latin1).
    + apply existsb_not_mentions. vm_compute. reflexivity.
    + apply existsb_not_mentions. vm_compute. reflexivity.
  - apply (@classify_document_precedence latin1 (py "ver ATESTADO anexo"))
      with (kw := py "atestado") (pre := py "ver ") (w := py "ATESTADO") (post := py " anexo").
    + vm_compute. auto.
    + vm_compute. reflexivity.
    + vm_compute. repeat constructor.
    + vm_compute. reflexivity.
Defined.

Lemma extract_registry_status_witness :
  exists registry status,
    @extract_registry latin1 (py "Dra. Ana - CRM/SP 123456") = Ok (registry, status) /\
    registry <> None /\ status = Some (py "Ativo").
Proof.
  destruct (@extract_registry_status latin1 (py "Dra. Ana - CRM/SP 123456"))
    as (registry & status & H & Hfound & _).
  exists registry, status. split; [exact H|].
  apply Hfound. apply re_search_occurs. vm_compute. discriminate.
Defined.

Lemma extract_registry_first_witness :
  @extract_registry latin1 (py "Dra. Ana - CRM/SP 123456.")
  = Ok (Some (py "CRM/SP 123456"), Some (py "Ativo")) /\
  @extract_registry latin1 (py "Dr. Rui, CRM 123456 (SP)")
  = Ok (Some (py "CRM/ 123456"), Some (py "Ativo")).
Proof.
  split.
  - apply (@extract_registry_first latin1 (py "Dra. Ana - CRM/SP 123456.")
             (py "Dra. Ana - ") (py ".")).
    + vm_compute. reflexivity.
    + vm_compute. reflexivity.
    + eapply first_start_search; vm_compute; reflexivity.
    + vm_compute. reflexivity.
  - apply (@extract_registry_first latin1 (py "Dr. Rui, CRM 123456 (SP)")
             (py "Dr. Rui, ") (py " (SP)")).
    + vm_compute. reflexivity.
    + vm_compute. reflexivity.
    + eapply first_start_search; vm_compute; reflexivity.
    + vm_compute. reflexivity.
Defined.

(** A text that holds "CRM/SP 123456" and gives another label: an
    earlier match wins, and the number takes every digit. *)
Lemma extract_registry_counterexample :
  Contains (py "CRM/SP 123456") (py "CRM 1 CRM/SP 123456") /\
  @extract_registry latin1 (py "CRM 1 CRM/SP 123456")
  = Ok (Some (py "CRM/ 1"), Some (py "Ativo")) /\
  Contains (py "CRM/SP 123456") (py "CRM/SP 1234567") /\
  @extract_registry latin1 (py "CRM/SP 1234567")
  = Ok (Some (py "CRM/SP 1234567"), Some (py "Ativo")).
Proof.
  repeat split.
  - exists (py "CRM 1 "), []. vm_compute. reflexivity.
  - exists [], (py "7"). vm_compute. reflexivity.
Qed.

Lemma check_afastamento_word_boundary_witness :
  @check_afastamento latin1 (py "necessita de AFASTAMENTO.") = true /\
  @check_afastamento latin1 (py "reafastamentos") = false.
Proof.
  split.
  - apply (@check_afastamento_word_boundary latin1 (py "necessita de AFASTAMENTO."))
      with (pre := py "necessita de ") (w := py "AFASTAMENTO") (post := py ".").
    + vm_compute. reflexivity.
    + split; vm_compute; [repeat constructor | reflexivity].
    + vm_compute. reflexivity.
    + vm_compute. reflexivity.
  - apply (@check_afastamento_word_boundary latin1 (py "reafastamentos")).
    intros keyword pre w post Hin Ht Hs.
    pose proof (same_ignore_length Hs) as Hl.
    apply same_ignore_b_true in Hs.
    apply split_at in Ht. destruct Ht as (Hpre & Hw & Hpost & Hlen).
    rewrite Hl in Hw, Hpost, Hlen. clear Hl.
    remember (length pre) as i eqn:Hi. clear Hi.
    change (length (py "reafastamentos")) with 14 in Hlen.
    simpl in Hin.
    destruct Hin as [<-|[<-|[<-|[<-|[<-|[]]]]]];
      vm_compute in Hlen;
      do 15 (try (destruct i as [|i];
                  [vm_compute in Hpre, Hw, Hpost; subst pre w post;
                   vm_compute in Hs; try discriminate Hs|]));
      try (exfalso; lia).
    right. split; vm_compute; reflexivity.
Defined.

Lemma check_signature_inside_word_witness :
  @check_signature latin1 (py "ele passou:") = true.
Proof.
  destruct (@check_signature_inside_word latin1 (py "ele passou:")) as [H _].
  apply H with (pre := py "ele p") (x := ch "a") (y := ch "s") (z := ch "s")
               (ws := py "ou") (post := []).
  - vm_compute. reflexivity.
  - repeat split; try (vm_compute; reflexivity). vm_compute. repeat constructor.
Defined.

Lemma check_signature_colon_witness :
  @check_signature latin1 (py "ASSINATURA: Dr. Silva") = true /\
  @check_signature latin1 (py "assinatura do medico") = false.
Proof.
  split.
  - destruct (@check_signature_colon latin1 (py "ASSINATURA: Dr. Silva")) as [H _].
    apply H with (pre := []) (w := py "ASSINATURA:") (post := py " Dr. Silva").
    + vm_compute. reflexivity.
    + split; vm_compute; [repeat constructor | reflexivity].
  - destruct (@check_signature_colon latin1 (py "assinatura do medico")) as [_ H].
    apply H. intros pre x y z ws post Ht _.
    assert (Hin : In (ch ":") (py "assinatura do medico")).
    { rewrite Ht.
      change (pre ++ x :: y :: z :: ws ++ ch ":" :: post)
        with (pre ++ [x; y; z] ++ ws ++ ch ":" :: post).
      rewrite !app_assoc. apply in_middle. }
    vm_compute in Hin. intuition discriminate.
Defined.

(** A text that holds "assinatura" and no word beginning with the
    stem before a colon, on which the check is true all the same. *)
Lemma check_signature_counterexample :
  Contains (py "assinatura") (py "assinatura passou:") /\
  ~ @StemWordColon latin1 (py "assinatura passou:") /\
  @check_signature latin1 (py "assinatura passou:") = true.
Proof.
  split; [|split].
  - exists [], (py " passou:"). vm_compute. reflexivity.
  - rewrite StemWordColon_search. intro H. apply H. vm_compute. reflexivity.
  - vm_compute. reflexivity.
Qed.

Lemma extract_cid_after_10_witness :
  @extract_cid latin1 (py "Diagnóstico: CID-10: M54.5 (lombalgia)") = Ok (Some (py "M54.5")) /\
  @extract_cid latin1 (py "sem diagnóstico") = Ok None.
Proof.
  split.
  - destruct (@extract_cid_after_10 latin1 (py "Diagnóstico: CID-10: M54.5 (lombalgia)"))
      as [H _].
    change (py "M54.5") with (@py_upper latin1 (py "M54.5")).
    apply H with (pre := py "Diagnóstico: ") (marker := py "CID") (d := py "-")
                 (ws1 := []) (sep := py ":") (ws2 := py " ")
                 (l := ch "M") (tail := py "54.5 (lombalgia)").
    + vm_compute. reflexivity.
    + split; vm_compute; [repeat constructor | reflexivity].
    + right. exists (ch "-"). split; vm_compute; reflexivity.
    + constructor.
    + right. exists (ch ":"). split; vm_compute; reflexivity.
    + vm_compute. repeat constructor.
    + vm_compute. reflexivity.
    + eapply first_start_search; vm_compute; reflexivity.
  - destruct (@extract_cid_after_10 latin1 (py "sem diagnóstico")) as [_ H].
    apply H. apply re_search_none. vm_compute. reflexivity.
Defined.

(** By design the pattern lets white space stand between the marker
    and "10": such a text holds no substring of the shape the
    specification words, and a code is returned. *)
Lemma extract_cid_space_before_10 :
  (forall pre w post,
      py "CID 10 M54" = pre ++ w ++ post -> ~ @Occurs latin1 cid_claimed pre w post) /\
  @extract_cid latin1 (py "CID 10 M54") = Ok (Some (py "M54")).
Proof.
  split.
  - apply re_search_none. vm_compute. reflexivity.
  - vm_compute. reflexivity.
Qed.

(** C2.  "CID: M54.5" and "CID M54.5" hold the marker, a separator and
    a code, the shape the specification words with "10" left out, and
    [extract_cid] returns [None] on both: the pattern reads [10?],
    where the question mark makes the 0 optional and the 1 stays
    mandatory.  The specification's own example "CID-10: M54.5" is of
    the same shape, and there the code is returned. *)
Lemma extract_cid_without_10 :
  @occurs_in latin1 cid_claimed (py "CID: M54.5") /\
  @extract_cid latin1 (py "CID: M54.5") = Ok None /\
  @occurs_in latin1 cid_claimed (py "CID M54.5") /\
  @extract_cid latin1 (py "CID M54.5") = Ok None /\
  @occurs_in latin1 cid_claimed (py "CID-10: M54.5") /\
  @extract_cid latin1 (py "CID-10: M54.5") = Ok (Some (py "M54.5")).
Proof.
  split; [apply re_search_occurs; vm_compute; discriminate|].
  split; [vm_compute; reflexivity|].
  split; [apply re_search_occurs; vm_compute; discriminate|].
  split; [vm_compute; reflexivity|].
  split; [apply re_search_occurs; vm_compute; discriminate|].
  vm_compute. reflexivity.
Qed.

Lemma display_uploader_error_then_success_witness :
  let r := @display_uploader latin1 bool str demo_open demo_ocr initial_state (Some false) in
  error_message (state r)
  = Some (py "Ocorreu um erro ao processar o arquivo: cannot identify image file") /\
  results (state r) = None /\
  analysis_complete (state r) = false /\
  exists res,
    state (@display_uploader latin1 bool str demo_open demo_ocr (state r) (Some true))
    = {| analysis_complete := true; results := Some res; error_message := None |} /\
    raw_text res = scenario.
Proof.
  destruct (@display_uploader_error_then_success latin1 bool str demo_open demo_ocr
              initial_state false (Exception (py "cannot identify image file"))
              (or_introl eq_refl))
    as (Hmsg & Hres & Hflag & _ & Hnext).
  cbv zeta.
  split; [rewrite Hmsg; vm_compute; reflexivity|].
  split; [rewrite Hres; reflexivity|].
  split; [rewrite Hflag; reflexivity|].
  destruct (Hnext true scenario) as (res & _ & Hstate & Hfields).
  - exists scenario. split; reflexivity.
  - exists res. split; [exact Hstate | apply Hfields].
Defined.

(* ================================================================= *)
(** * Further properties *)

(** ** Patterns without groups *)

Section PlainFacts.
Context {U : UnicodeData}.

Lemma repeat_min_plain P body :
  plain_body P body -> forall n, plain_body (Iter P false n) (repeat_min body n).
Proof.
  intros Hb n. induction n as [|n IH]; intros c ms k res H; simpl in H.
  - exists [], c. simpl. auto using reaches_refl.
  - apply Hb in H. destruct H as (w1 & c1 & HP & Hr1 & H).
    apply IH in H. destruct H as (w2 & c2 & HI & Hr2 & H).
    exists (w1 ++ w2), c2. split; [|split].
    + simpl. exists w1, w2. repeat split.
      * discriminate.
      * destruct Hr2 as (<- & _). exact HP.
      * destruct Hr1 as (_ & _ & <-). exact HI.
    + eapply reaches_trans; eauto.
    + exact H.
Qed.

Lemma repeat_max_plain P body :
  plain_body P body ->
  forall n c ms k res,
    repeat_max body n c ms k = Some res ->
    exists j w c',
      j <= n /\ Iter P true j (behind c) w (ahead c') /\ reaches c w c' /\
      k c' ms = Some res.
Proof.
  intros Hb n. induction n as [|n IH]; intros c ms k res H; simpl in H.
  - exists 0, [], c. simpl. auto using reaches_refl.
  - destruct (body c ms _) as [res'|] eqn:E.
    + injection H as ->. apply Hb in E.
      destruct E as (w1 & c1 & HP & Hr1 & H).
      destruct (progress c c1) eqn:Hlt; [|discriminate].
      apply Nat.ltb_lt in Hlt.
      apply IH in H. destruct H as (j & w2 & c2 & Hj & HI & Hr2 & H).
      exists (S j), (w1 ++ w2), c2. split; [|split; [|split]].
      * lia.
      * simpl. exists w1, w2. repeat split.
        -- intros _. eapply reaches_same_length; eauto.
        -- destruct Hr2 as (<- & _). exact HP.
        -- destruct Hr1 as (_ & _ & <-). exact HI.
      * eapply reaches_trans; eauto.
      * exact H.
    + exists 0, [], c. simpl. split; [lia|]. auto using reaches_refl.
Qed.

(** A pattern without groups leaves the marks as they are. *)
Lemma sre_match_plain r : plain r = true -> plain_body (Matches r) (sre_match r).
Proof.
  induction r as [|av|items| |r1 IH1 r2 IH2|r1 IH1 r2 IH2|lo hi r IH|g r IH];
    intros Hp c ms k res H; simpl in H, Hp.
  - exists [], c. simpl. auto using reaches_refl.
  - destruct (ahead c) as [|x rest] eqn:E; [discriminate|].
    destruct (literal_ignore av x) eqn:T; [|discriminate].
    exists [x], (step c x rest). repeat split; simpl; eauto.
  - destruct (ahead c) as [|x rest] eqn:E; [discriminate|].
    destruct (in_ignore items x) eqn:T; [|discriminate].
    exists [x], (step c x rest). repeat split; simpl; eauto.
  - destruct (at_boundary c) eqn:T; [|discriminate].
    exists [], c. simpl. auto using reaches_refl.
  - apply andb_true_iff in Hp. destruct Hp as [Hp1 Hp2].
    apply (IH1 Hp1) in H. destruct H as (w1 & c1 & HM1 & Hr1 & H).
    apply (IH2 Hp2) in H. destruct H as (w2 & c2 & HM2 & Hr2 & H).
    exists (w1 ++ w2), c2. split; [|split].
    + simpl. exists w1, w2. repeat split.
      * destruct Hr2 as (<- & _). exact HM1.
      * destruct Hr1 as (_ & _ & <-). exact HM2.
    + eapply reaches_trans; eauto.
    + exact H.
  - apply andb_true_iff in Hp. destruct Hp as [Hp1 Hp2].
    destruct (sre_match r1 c ms k) as [res'|] eqn:E.
    + injection H as ->. apply (IH1 Hp1) in E.
      destruct E as (w & c' & HM & Hr & H). exists w, c'. simpl. auto.
    + apply (IH2 Hp2) in H. destruct H as (w & c' & HM & Hr & H).
      exists w, c'. simpl. auto.
  - apply (repeat_min_plain (IH Hp)) in H.
    destruct H as (w1 & c1 & HI1 & Hr1 & H).
    apply (repeat_max_plain (IH Hp)) in H.
    destruct H as (j & w2 & c2 & Hj & HI2 & Hr2 & H).
    exists (w1 ++ w2), c2. split; [|split].
    + simpl. exists w1, w2, j. repeat split.
      * destruct Hr2 as (<- & _). exact HI1.
      * destruct hi; [exact Hj | exact I].
      * destruct Hr1 as (_ & _ & <-). exact HI2.
    + eapply reaches_trans; eauto.
    + exact H.
  - discriminate.
Qed.

(** The first part of a sequence, when it has no group. *)
Lemma sre_match_Seq_plain r1 r2 c ms k res :
  plain r1 = true ->
  sre_match (Seq r1 r2) c ms k = Some res ->
  exists w c',
    Matches r1 (behind c) w (ahead c') /\ reaches c w c' /\
    sre_match r2 c' ms k = Some res.
Proof. intros Hp H. simpl in H. apply (sre_match_plain _ Hp) in H. exact H. Qed.

(** A group around a pattern without groups adds its own span. *)
Lemma sre_match_group_plain g r c ms k res :
  plain r = true ->
  sre_match (SUBPATTERN g r) c ms k = Some res ->
  exists w c',
    Matches r (behind c) w (ahead c') /\ reaches c w c' /\
    k c' ((g, (pos c, pos c')) :: ms) = Some res.
Proof. intros Hp H. simpl in H. apply (sre_match_plain _ Hp) in H. exact H. Qed.

(** An optional part was read, or it was left out. *)
Lemma sre_match_Optional r c ms k res :
  sre_match (Optional r) c ms k = Some res ->
  sre_match r c ms (fun c' ms' => if progress c c' then k c' ms' else None) = Some res \/
  k c ms = Some res.
Proof.
  unfold Optional. simpl. intro H.
  destruct (sre_match r c ms _) as [res'|]; auto.
Qed.

(** Runs of members of a set, between [lo] and [hi] of them. *)
Lemma Matches_MAX_REPEAT_IN lo hi items l w rt :
  Matches (MAX_REPEAT lo hi (IN items)) l w rt ->
  lo <= length w /\
  match hi with Some h => length w <= lo + (h - lo) | None => True end /\
  Forall (fun c => in_ignore items c = true) w.
Proof.
  simpl. intros (w1 & w2 & n & -> & H1 & Hn & H2).
  apply (Iter_single (in_ignore items)) in H1; [|intros; simpl; tauto].
  apply (Iter_single (in_ignore items)) in H2; [|intros; simpl; tauto].
  destruct H1 as [L1 F1], H2 as [L2 F2]. rewrite length_app. repeat split.
  - lia.
  - destruct hi; [lia | exact I].
  - apply Forall_app. auto.
Qed.

Lemma Matches_registry_types l w rt :
  Matches registry_types l w rt <-> exists T, In T registry_tokens /\ same_ignore T w.
Proof.
  unfold registry_types, registry_tokens. cbn [Matches]. rewrite !Matches_literals.
  simpl In. split.
  - intros [H|[H|[H|[H|H]]]]; eauto 10.
  - intros (T & [<-|[<-|[<-|[<-|[<-|[]]]]]] & H); auto.
Qed.

Lemma cursor_eq c c' : reaches c [] c' -> c' = c.
Proof.
  intros (Ha & Hp & Hb). destruct c, c'; simpl in *. subst. reflexivity.
Qed.

Lemma Forall_digits (w : str) :
  Forall (fun c => in_ignore [Digit] c = true) w -> Forall (fun c => isdecimal c = true) w.
Proof. apply Forall_impl. intros a. rewrite in_ignore_Digit. auto. Qed.
End PlainFacts.

(** ** ASCII texts *)

Section AsciiFacts.
Context {U : UnicodeData}.

Lemma ascii_implies (P Q : N -> bool) :
  forallb (fun c => implb (P c) (Q c)) (N_range 0 127) = true ->
  forall c, (c < 128)%N -> P c = true -> Q c = true.
Proof.
  intros H c Hc HP.
  pose proof (@ascii_forall (fun c => implb (P c) (Q c)) H c Hc) as Hall.
  cbv beta in Hall. rewrite HP in Hall. exact Hall.
Qed.

Lemma ascii_agree (P Q : N -> bool) :
  forallb (fun c => Bool.eqb (P c) (Q c)) (N_range 0 127) = true ->
  forall c, (c < 128)%N -> P c = Q c.
Proof.
  intros H c Hc. apply eqb_prop.
  apply (@ascii_forall (fun c => Bool.eqb (P c) (Q c)) H c Hc).
Qed.

Lemma ascii_sep_lt c : ascii_sep c = true -> (c < 128)%N.
Proof.
  unfold ascii_sep, ascii_isspace, between.
  rewrite !orb_true_iff, !andb_true_iff, !N.leb_le, N.eqb_eq.
  change (ch "/") with 47%N. lia.
Qed.

Lemma ascii_isdigit_lt c : ascii_isdigit c = true -> (c < 128)%N.
Proof.
  unfold ascii_isdigit, between. rewrite !andb_true_iff, !N.leb_le. lia.
Qed.

Lemma isdecimal_ascii c : (c < 128)%N -> isdecimal c = ascii_isdigit c.
Proof. intro H. unfold isdecimal. apply N.ltb_lt in H. rewrite H. reflexivity. Qed.

Lemma space_or_slash_ascii c : (c < 128)%N -> space_or_slash c = ascii_sep c.
Proof. apply ascii_agree. vm_compute. reflexivity. Qed.

Lemma state_letter_ascii c : (c < 128)%N -> state_letter c = ascii_isalpha c.
Proof. apply ascii_agree. vm_compute. reflexivity. Qed.

Lemma code_letter_ascii c : (c < 128)%N -> code_letter c = ascii_isalpha c.
Proof. apply ascii_agree. vm_compute. reflexivity. Qed.

Lemma isword_ascii c :
  (c < 128)%N -> sre_isword c = ascii_isalpha c || ascii_isdigit c || (c =? 95)%N.
Proof.
  apply (@ascii_agree sre_isword (fun c => ascii_isalpha c || ascii_isdigit c || (c =? 95)%N)).
  vm_compute. reflexivity.
Qed.

Lemma alpha_word c : ascii_isalpha c = true -> sre_isword c = true.
Proof.
  intro H. rewrite isword_ascii by (apply ascii_isalpha_lt; exact H).
  rewrite H. reflexivity.
Qed.

Lemma sep_not_word c : ascii_sep c = true -> sre_isword c = false.
Proof.
  intro H. pose proof (ascii_sep_lt _ H) as Hc. apply negb_true_iff.
  revert c Hc H. apply (@ascii_implies ascii_sep (fun c => negb (sre_isword c))).
  vm_compute. reflexivity.
Qed.

Lemma alpha_not_sep c : ascii_isalpha c = true -> space_or_slash c = false.
Proof.
  intro H. pose proof (ascii_isalpha_lt _ H) as Hc. apply negb_true_iff.
  revert c Hc H. apply (@ascii_implies ascii_isalpha (fun c => negb (space_or_slash c))).
  vm_compute. reflexivity.
Qed.

Lemma digit_not_sep c : ascii_isdigit c = true -> space_or_slash c = false.
Proof.
  intro H. pose proof (ascii_isdigit_lt _ H) as Hc. apply negb_true_iff.
  revert c Hc H. apply (@ascii_implies ascii_isdigit (fun c => negb (space_or_slash c))).
  vm_compute. reflexivity.
Qed.

Lemma digit_not_letter c : ascii_isdigit c = true -> state_letter c = false.
Proof.
  intro H. pose proof (ascii_isdigit_lt _ H) as Hc. apply negb_true_iff.
  revert c Hc H. apply (@ascii_implies ascii_isdigit (fun c => negb (state_letter c))).
  vm_compute. reflexivity.
Qed.

Lemma toupper_alpha c : ascii_isupper (ascii_toupper c) = true -> ascii_isalpha c = true.
Proof.
  unfold ascii_toupper, ascii_isalpha. destruct (ascii_islower c) eqn:E.
  - intros _. apply orb_true_r.
  - intros ->. reflexivity.
Qed.

Lemma toupper_toupper c : ascii_toupper (ascii_toupper c) = ascii_toupper c.
Proof.
  unfold ascii_toupper. destruct (ascii_islower c) eqn:E; [|rewrite E; reflexivity].
  unfold ascii_islower, between in *. rewrite andb_true_iff, !N.leb_le in E.
  replace ((97 <=? c - 32)%N) with false; [reflexivity|].
  symmetry. apply N.leb_gt. lia.
Qed.

Lemma toupper_digit c : ascii_isdigit c = true -> ascii_toupper c = c.
Proof.
  unfold ascii_toupper, ascii_isdigit, ascii_islower, between.
  rewrite andb_true_iff, !N.leb_le. intros [H1 H2].
  replace ((97 <=? c)%N) with false; [reflexivity|].
  symmetry. apply N.leb_gt. lia.
Qed.

(** An upper-case ASCII letter of a pattern stands for itself and for
    its lower case, among the ASCII code points. *)
Lemma literal_ignore_upper av c :
  ascii_isupper av = true -> (c < 128)%N ->
  literal_ignore av c = (ascii_toupper c =? av)%N.
Proof.
  intros Hav Hc.
  assert (Hl : (av < 128)%N).
  { unfold ascii_isupper, between in Hav. rewrite andb_true_iff, !N.leb_le in Hav. lia. }
  pose proof (ascii_forall
                (fun av => forallb
                             (fun c => implb (ascii_isupper av)
                                             (Bool.eqb (literal_ignore av c)
                                                       (ascii_toupper c =? av)%N))
                             (N_range 0 127))) as Hall.
  specialize (Hall ltac:(vm_compute; reflexivity) av Hl). cbv beta in Hall.
  rewrite forallb_forall in Hall. specialize (Hall c (@In_N_range 0%N 127%N c ltac:(lia))).
  rewrite Hav in Hall. apply eqb_prop. exact Hall.
Qed.

Lemma py_upper_ascii s : is_ascii s -> py_upper s = map ascii_toupper s.
Proof.
  unfold py_upper, is_ascii. induction 1 as [|c s Hc _ IH]; simpl.
  - reflexivity.
  - rewrite IH. unfold toupper_full. apply N.ltb_lt in Hc. rewrite Hc. reflexivity.
Qed.

Lemma map_toupper_digits s :
  Forall (fun c => ascii_isdigit c = true) s -> map ascii_toupper s = s.
Proof.
  induction 1 as [|c s Hc _ IH]; simpl; [reflexivity|].
  rewrite toupper_digit, IH by assumption. reflexivity.
Qed.

Lemma ascii_digits s :
  is_ascii s -> Forall (fun c => isdecimal c = true) s ->
  Forall (fun c => ascii_isdigit c = true) s.
Proof.
  unfold is_ascii. induction 1 as [|c s Hc _ IH]; intro H; inversion H; subst; constructor.
  - rewrite <- isdecimal_ascii; assumption.
  - auto.
Qed.

Lemma registry_tokens_upper T :
  In T registry_tokens -> Forall (fun c => ascii_isupper c = true) T /\ T <> [].
Proof.
  unfold registry_tokens. simpl.
  intros [<-|[<-|[<-|[<-|[<-|[]]]]]]; split; try discriminate;
    vm_compute; repeat constructor.
Qed.

(** A token in any mix of upper and lower case. *)
Lemma same_ignore_upper T : forall t,
  Forall (fun c => ascii_isupper c = true) T -> is_ascii t ->
  (same_ignore T t <-> map ascii_toupper t = T).
Proof.
  unfold same_ignore, is_ascii.
  induction T as [|av T IH]; intros t HT Ht.
  - split.
    + intro H. inversion H. reflexivity.
    + destruct t; [constructor | discriminate].
  - inversion HT as [|? ? Hav HT']; subst. split.
    + intro H. inversion H as [|? c ? t' Hc H']; subst. inversion Ht; subst.
      simpl. rewrite literal_ignore_upper in Hc by assumption.
      apply N.eqb_eq in Hc. f_equal; [exact Hc | apply IH; assumption].
    + destruct t as [|c t]; [discriminate|]. simpl. intros [= Hc Hmap].
      inversion Ht; subst. constructor.
      * rewrite literal_ignore_upper by assumption. apply N.eqb_eq. reflexivity.
      * apply IH; auto.
Qed.
End AsciiFacts.

(** ** What the registry label is made of *)

Section Shapes.
Context {U : UnicodeData}.

(** What a match of the registry pattern is made of, and which spans
    its groups hold. *)
Lemma pattern_anatomy text m :
  re_search pattern text = Some m ->
  exists pre t s1 st s2 number post,
    text = pre ++ t ++ s1 ++ st ++ s2 ++ number ++ post /\
    group m 1 = Some t /\
    group m 2 = (match st with [] => None | _ => Some st end) /\
    group m 3 = Some number /\
    (exists T, In T registry_tokens /\ same_ignore T t) /\
    boundary (last_char None pre) (hd_error t) = true /\
    boundary (last_char None t) (hd_error (s1 ++ st ++ s2 ++ number)) = true /\
    Forall (fun c => space_or_slash c = true) s1 /\
    (st = [] \/ length st = 2 /\ Forall (fun c => state_letter c = true) st) /\
    Forall (fun c => space_or_slash c = true) s2 /\
    number <> [] /\ Forall (fun c => isdecimal c = true) number.
Proof.
  intro Hs. apply re_search_some in Hs.
  destruct Hs as (pre & w & post & -> & _ & Hstr & _ & _ & H & _).
  pose proof (valid_cursor_at pre (w ++ post)) as Hv0.
  set (c0 := cursor_at pre (w ++ post)) in *.
  unfold pattern in H.
  apply sre_match_Seq_plain in H; [|reflexivity].
  destruct H as (w1 & c1 & [-> Hb1] & Hr1 & H).
  apply cursor_eq in Hr1. subst c1.
  rewrite sre_match_Seq_eq in H. apply sre_match_group_plain in H; [|reflexivity].
  destruct H as (t & c2 & Ht & Hr2 & H).
  apply sre_match_Seq_plain in H; [|reflexivity].
  destruct H as (w3 & c3 & [-> Hb3] & Hr3 & H).
  apply cursor_eq in Hr3. subst c3.
  apply sre_match_Seq_plain in H; [|reflexivity].
  destruct H as (s1 & c4 & Hs1 & Hr4 & H).
  rewrite sre_match_Seq_eq in H.
  assert (Hopt : exists st c5 ms5,
             reaches c4 st c5 /\
             (st = [] \/ length st = 2 /\ Forall (fun c => state_letter c = true) st) /\
             lookup 2 ms5 = (match st with [] => None | _ => Some (pos c4, pos c5) end) /\
             lookup 1 ms5 = Some (pos c0, pos c2) /\
             sre_match (Seq (Star (IN [Space; SET_LITERAL (ch "/")]))
                            (SUBPATTERN 3 (Plus (IN [Digit])))) c5 ms5 accept
             = Some ({| pos := length pre + length w;
                        behind := last_char None (pre ++ w); ahead := post |},
                     m_marks m)).
  { apply sre_match_Optional in H. destruct H as [H|H].
    - apply sre_match_group_plain in H; [|reflexivity].
      destruct H as (st & c5 & Hst & Hr5 & H).
      destruct (progress c4 c5); [|discriminate].
      apply Matches_MAX_REPEAT_IN in Hst. destruct Hst as (L1 & L2 & Fst).
      exists st, c5, [(2, (pos c4, pos c5)); (1, (pos c0, pos c2))].
      split; [exact Hr5|]. split; [right; split; [simpl in L2; lia | exact Fst]|].
      split; [|split; [reflexivity | exact H]].
      destruct st; [simpl in L1; lia | reflexivity].
    - exists [], c4, [(1, (pos c0, pos c2))]. split; [apply reaches_refl|].
      split; [left; reflexivity|]. repeat split. exact H. }
  clear H. destruct Hopt as (st & c5 & ms5 & Hr5 & Hst & Hg2 & Hg1 & H).
  apply sre_match_Seq_plain in H; [|reflexivity].
  destruct H as (s2 & c6 & Hs2 & Hr6 & H).
  apply sre_match_group_plain in H; [|reflexivity].
  destruct H as (number & c7 & Hn & Hr7 & H).
  injection H as Hc7 Hm.
  apply Matches_Star_IN in Hs1, Hs2. apply Matches_MAX_REPEAT_IN in Hn.
  destruct Hn as (Ln & _ & Fn). apply Forall_digits in Fn.
  apply Matches_registry_types in Ht.
  destruct (reaches_valid Hv0 Hr2) as [Hv2 Sl1].
  destruct (reaches_valid Hv2 Hr4) as [Hv4 _].
  destruct (reaches_valid Hv4 Hr5) as [Hv5 Sl2].
  destruct (reaches_valid Hv5 Hr6) as [Hv6 _].
  destruct (reaches_valid Hv6 Hr7) as [_ Sl3].
  assert (Hw : w ++ post = t ++ s1 ++ st ++ s2 ++ number ++ post).
  { destruct Hr2 as (A2 & _), Hr4 as (A4 & _), Hr5 as (A5 & _), Hr6 as (A6 & _),
      Hr7 as (A7 & _).
    change (ahead c0) with (w ++ post) in A2.
    rewrite A2, A4, A5, A6, A7, Hc7. reflexivity. }
  exists pre, t, s1, st, s2, number, post.
  split; [rewrite Hw; reflexivity|].
  unfold group. rewrite Hstr, <- Hm. simpl lookup. rewrite Hg1, Hg2, Sl1, Sl3.
  split; [reflexivity|]. split; [destruct st; [reflexivity | rewrite Sl2; reflexivity]|].
  split; [reflexivity|]. split; [exact Ht|]. split.
  { unfold at_boundary in Hb1. destruct Hr2 as (A2 & _).
    change (ahead c0) with (w ++ post) in *. rewrite A2 in Hb1.
    destruct Ht as (T & HT & Hsame).
    assert (t <> []).
    { apply same_ignore_length in Hsame. intros ->.
      unfold registry_tokens in HT. simpl in HT.
      destruct HT as [<-|[<-|[<-|[<-|[<-|[]]]]]]; vm_compute in Hsame; discriminate. }
    rewrite hd_error_app in Hb1 by assumption. exact Hb1. }
  split.
  { unfold at_boundary in Hb3. destruct Hr2 as (_ & _ & B2).
    rewrite B2 in Hb3. change (behind c0) with (last_char None pre) in Hb3.
    destruct Hr4 as (A4 & _), Hr5 as (A5 & _), Hr6 as (A6 & _), Hr7 as (A7 & _).
    rewrite A4, A5, A6, A7 in Hb3.
    assert (Ht' : t <> []).
    { destruct Ht as (T & HT & Hsame). apply same_ignore_length in Hsame. intros ->.
      unfold registry_tokens in HT. simpl in HT.
      destruct HT as [<-|[<-|[<-|[<-|[<-|[]]]]]]; vm_compute in Hsame; discriminate. }
    rewrite last_char_nonempty in Hb3 by assumption.
    assert (Hn' : number <> []) by (destruct number; [simpl in Ln; lia | discriminate]).
    replace (hd_error (s1 ++ st ++ s2 ++ number ++ ahead c7))
      with (hd_error (s1 ++ st ++ s2 ++ number)) in Hb3; [exact Hb3|].
    symmetry. rewrite !app_assoc. apply hd_error_app.
    intro E. apply app_eq_nil in E. tauto. }
  split; [exact Hs1|]. split; [exact Hst|]. split; [exact Hs2|].
  split; [destruct number; [simpl in Ln; lia | discriminate] | exact Fn].
Qed.

(** X3.  Whenever [extract_registry] returns a label, the text holds
    one of the five tokens in any case, set off by word boundaries,
    then white space or slashes, then nothing or two letters, then
    white space or slashes, then one or more decimal digits; the label
    is the token in upper case, a slash, the two letters in upper case
    (or nothing), a space and the digits. *)
Theorem extract_registry_label text label status :
  extract_registry text = Ok (Some label, status) ->
  exists pre t s1 st s2 number post,
    text = pre ++ t ++ s1 ++ st ++ s2 ++ number ++ post /\
    label = py_upper t ++ py "/" ++ py_upper st ++ py " " ++ number /\
    (exists T, In T registry_tokens /\ same_ignore T t) /\
    boundary (last_char None pre) (hd_error t) = true /\
    boundary (last_char None t) (hd_error (s1 ++ st ++ s2 ++ number)) = true /\
    Forall (fun c => space_or_slash c = true) s1 /\
    (st = [] \/ length st = 2 /\ Forall (fun c => state_letter c = true) st) /\
    Forall (fun c => space_or_slash c = true) s2 /\
    number <> [] /\ Forall (fun c => isdecimal c = true) number.
Proof.
  unfold extract_registry. destruct (re_search pattern text) as [m|] eqn:E; [|discriminate].
  destruct (pattern_anatomy _ E)
    as (pre & t & s1 & st & s2 & number & post & Ht & G1 & G2 & G3 & H).
  rewrite G1, G2, G3. intros [= <- _].
  exists pre, t, s1, st, s2, number, post. split; [exact Ht|]. split; [|exact H].
  destruct st; reflexivity.
Qed.
End Shapes.

(** ** What the code is made of *)

Section CodeShape.
Context {U : UnicodeData}.

Lemma Matches_MAX_REPEAT_single (t : N -> bool) r lo hi l w rt :
  (forall l w rt, Matches r l w rt <-> exists c, w = [c] /\ t c = true) ->
  Matches (MAX_REPEAT lo hi r) l w rt ->
  lo <= length w /\
  match hi with Some h => length w <= lo + (h - lo) | None => True end /\
  Forall (fun c => t c = true) w.
Proof.
  intro Hr. simpl. intros (w1 & w2 & n & -> & H1 & Hn & H2).
  apply (Iter_single t) in H1; [|exact Hr]. apply (Iter_single t) in H2; [|exact Hr].
  destruct H1 as [L1 F1], H2 as [L2 F2]. rewrite length_app. repeat split.
  - lia.
  - destruct hi; [lia | exact I].
  - apply Forall_app. auto.
Qed.

Lemma optional_of_single (t : N -> bool) r l w rt :
  (forall l w rt, Matches r l w rt <-> exists c, w = [c] /\ t c = true) ->
  Matches (Optional r) l w rt -> optional_of t w.
Proof.
  intros Hr H. apply (Matches_MAX_REPEAT_single t) in H; [|exact Hr].
  destruct H as (_ & L & F). simpl in L. unfold optional_of.
  destruct w as [|x [|y w]]; [auto | | simpl in L; lia].
  right. exists x. inversion F; subst. auto.
Qed.

Lemma Matches_IN_iff items l w rt :
  Matches (IN items) l w rt <-> exists c, w = [c] /\ in_ignore items c = true.
Proof. reflexivity. Qed.

Lemma Matches_LITERAL_iff av l w rt :
  Matches (LITERAL av) l w rt <-> exists c, w = [c] /\ literal_ignore av c = true.
Proof. reflexivity. Qed.

Lemma literal_ignore_digit (d c : N) :
  ascii_isdigit d = true -> literal_ignore d c = true -> c = d.
Proof.
  intros Hd. unfold literal_ignore.
  assert (Hc : sre_iscased d = false).
  { assert (Hl : (d < 128)%N).
    { unfold ascii_isdigit, between in Hd. rewrite andb_true_iff, !N.leb_le in Hd. lia. }
    pose proof (ascii_forall (fun d => implb (ascii_isdigit d) (negb (sre_iscased d)))) as Hall.
    specialize (Hall ltac:(vm_compute; reflexivity) d Hl). cbv beta in Hall.
    rewrite Hd in Hall. simpl in Hall. apply negb_true_iff. exact Hall. }
  rewrite Hc. apply N.eqb_eq.
Qed.

(** The words of the code pattern. *)
Lemma Matches_cid_code l w rt :
  Matches cid_code l w rt ->
  exists x ds frac,
    w = x :: ds ++ frac /\ code_letter x = true /\ digits12 ds /\
    (frac = [] \/ exists fs, frac = ch "." :: fs /\ digits12 fs).
Proof.
  unfold cid_code.
  intros (w1 & w2 & -> & (x & -> & Hx) & ds & frac & -> & Hds & Hfrac).
  exists x, ds, frac. split; [reflexivity|]. split; [exact Hx|].
  apply Matches_MAX_REPEAT_IN in Hds. destruct Hds as (L1 & L2 & F).
  split; [split; [simpl in L2; lia | apply Forall_digits; exact F]|].
  unfold Optional in Hfrac. simpl in Hfrac.
  destruct Hfrac as (e & w & n & -> & -> & Hn & Hit). simpl.
  destruct n as [|[|n]]; simpl in Hit; [left; exact Hit | right | lia].
  destruct Hit as (v & e & -> & _ & (v1 & fs & -> & (dot & -> & Hdot) & Hfs) & ->).
  rewrite literal_ignore_dot in Hdot. apply N.eqb_eq in Hdot. subst dot.
  exists fs. rewrite app_nil_r. split; [reflexivity|].
  change (Matches (MAX_REPEAT 1 (Some 2) (IN [Digit])) (last_char (last_char (last_char l [x]) ds) [ch "."]) fs ([] ++ rt)) in Hfs.
  apply Matches_MAX_REPEAT_IN in Hfs. destruct Hfs as (M1 & M2 & G).
  split; [simpl in M2; lia | apply Forall_digits; exact G].
Qed.

Lemma Forall_spaces (w : str) :
  Forall (fun c => in_ignore [Space] c = true) w -> spaces w.
Proof. apply Forall_impl. intros a. rewrite in_ignore_Space. auto. Qed.

Lemma optional_of_ext (t t' : N -> bool) w :
  (forall x, t x = t' x) -> optional_of t w -> optional_of t' w.
Proof.
  intros E [->|(x & -> & H)]; [left; reflexivity | right].
  exists x. rewrite <- E. auto.
Qed.

(** What a match of the CID pattern is made of, and what its first
    group holds. *)
Lemma cid_pattern_anatomy text m :
  re_search cid_pattern text = Some m ->
  exists pre marker d zero ws1 sep ws2 l ds frac post,
    text = pre ++ marker ++ d ++ ch "1" :: zero ++ ws1 ++ sep ++ ws2
               ++ (l :: ds ++ frac) ++ post /\
    group m 1 = Some (l :: ds ++ frac) /\
    same_ignore (py "cid") marker /\
    optional_of dash_or_space d /\
    (zero = [] \/ zero = [ch "0"]) /\
    spaces ws1 /\ optional_of separator sep /\ spaces ws2 /\
    code_letter l = true /\ digits12 ds /\
    (frac = [] \/ exists fs, frac = ch "." :: fs /\ digits12 fs).
Proof.
  intro E. apply re_search_some in E.
  destruct E as (pre & w & post & -> & _ & Hstr & _ & _ & H & _).
  pose proof (valid_cursor_at pre (w ++ post)) as Hv0.
  set (c0 := cursor_at pre (w ++ post)) in *.
  unfold cid_pattern in H.
  apply sre_match_Seq_plain in H; [|reflexivity].
  destruct H as (marker & c1 & Hmk & Hr1 & H).
  apply sre_match_Seq_plain in H; [|reflexivity].
  destruct H as (d & c2 & Hd & Hr2 & H).
  apply sre_match_Seq_plain in H; [|reflexivity].
  destruct H as (one & c3 & (x1 & -> & Hone) & Hr3 & H).
  apply sre_match_Seq_plain in H; [|reflexivity].
  destruct H as (zero & c4 & Hzero & Hr4 & H).
  apply sre_match_Seq_plain in H; [|reflexivity].
  destruct H as (ws1 & c5 & Hws1 & Hr5 & H).
  apply sre_match_Seq_plain in H; [|reflexivity].
  destruct H as (sep & c6 & Hsep & Hr6 & H).
  apply sre_match_Seq_plain in H; [|reflexivity].
  destruct H as (ws2 & c7 & Hws2 & Hr7 & H).
  apply sre_match_SUBPATTERN in H. destruct H as (g & c8 & ms8 & Hg & Hr8 & _ & H).
  injection H as Hc8 Hm.
  destruct (reaches_valid Hv0 Hr1) as [Hv1 _].
  destruct (reaches_valid Hv1 Hr2) as [Hv2 _].
  destruct (reaches_valid Hv2 Hr3) as [Hv3 _].
  destruct (reaches_valid Hv3 Hr4) as [Hv4 _].
  destruct (reaches_valid Hv4 Hr5) as [Hv5 _].
  destruct (reaches_valid Hv5 Hr6) as [Hv6 _].
  destruct (reaches_valid Hv6 Hr7) as [Hv7 _].
  destruct (reaches_valid Hv7 Hr8) as [_ Sl].
  apply Matches_cid_code in Hg.
  destruct Hg as (l & ds & frac & -> & Hl & Hds & Hfrac).
  apply Matches_literals in Hmk.
  apply (optional_of_single (in_ignore [SET_LITERAL (ch "-"); Space])) in Hd;
    [|intros; apply Matches_IN_iff].
  apply (optional_of_single (literal_ignore (ch "0"))) in Hzero;
    [|intros; apply Matches_LITERAL_iff].
  apply (optional_of_single
           (in_ignore [SET_LITERAL (ch ":"); SET_LITERAL (ch "-"); Space])) in Hsep;
    [|intros; apply Matches_IN_iff].
  apply Matches_Star_IN in Hws1, Hws2.
  apply literal_ignore_digit in Hone; [|reflexivity]. subst x1.
  assert (Hw : w ++ post
               = marker ++ d ++ ch "1" :: zero ++ ws1 ++ sep ++ ws2
                        ++ (l :: ds ++ frac) ++ post).
  { destruct Hr1 as (A1 & _), Hr2 as (A2 & _), Hr3 as (A3 & _), Hr4 as (A4 & _),
      Hr5 as (A5 & _), Hr6 as (A6 & _), Hr7 as (A7 & _), Hr8 as (A8 & _).
    change (ahead c0) with (w ++ post) in A1.
    rewrite A1, A2, A3, A4, A5, A6, A7, A8, Hc8. reflexivity. }
  exists pre, marker, d, zero, ws1, sep, ws2, l, ds, frac, post.
  split; [rewrite Hw; reflexivity|].
  split; [unfold group; rewrite Hstr, <- Hm, lookup_head, Sl; reflexivity|].
  split; [exact Hmk|].
  split; [eapply optional_of_ext; [apply in_ignore_dash_space | exact Hd]|].
  split.
  { destruct Hzero as [->|(z & -> & Hz)]; [left; reflexivity | right].
    apply literal_ignore_digit in Hz; [|reflexivity]. subst z. reflexivity. }
  split; [apply Forall_spaces; exact Hws1|].
  split; [eapply optional_of_ext; [apply in_ignore_separator | exact Hsep]|].
  split; [apply Forall_spaces; exact Hws2|]. auto.
Qed.

(** X1.  Whenever [extract_cid] returns a code, the text holds the
    marker 'cid' in any case, at most one dash or white-space
    character, the digit 1, at most one 0, white space, at most one
    colon, dash or white-space character, white space and then a
    letter, one or two decimal digits and at most one fraction (a dot
    and one or two decimal digits); the code returned is that last
    part in upper case. *)
Theorem extract_cid_code text code :
  extract_cid text = Ok (Some code) ->
  exists pre marker d zero ws1 sep ws2 l ds frac post,
    text = pre ++ marker ++ d ++ ch "1" :: zero ++ ws1 ++ sep ++ ws2
               ++ (l :: ds ++ frac) ++ post /\
    code = py_upper (l :: ds ++ frac) /\
    same_ignore (py "cid") marker /\
    optional_of dash_or_space d /\
    (zero = [] \/ zero = [ch "0"]) /\
    spaces ws1 /\ optional_of separator sep /\ spaces ws2 /\
    code_letter l = true /\ digits12 ds /\
    (frac = [] \/ exists fs, frac = ch "." :: fs /\ digits12 fs).
Proof.
  unfold extract_cid. destruct (re_search cid_pattern text) as [m|] eqn:E; [|discriminate].
  destruct (cid_pattern_anatomy _ E)
    as (pre & marker & d & zero & ws1 & sep & ws2 & l & ds & frac & post & Ht & G & H).
  rewrite G. intros [= <-].
  exists pre, marker, d, zero, ws1, sep, ws2, l, ds, frac, post. auto.
Qed.

(** X16.  [extract_cid] finds no code in a text without the digit 1:
    the pattern asks for it after the marker, so that "CID: M54.5"
    gives [None]. *)
Theorem extract_cid_needs_one text :
  ~ In (ch "1") text -> extract_cid text = Ok None.
Proof.
  intro Hno. destruct (extract_cid_cases text) as [[E _]|(m & x & code & Hm & _ & _)];
    [exact E | exfalso].
  destruct (cid_pattern_anatomy _ Hm)
    as (pre & marker & d & zero & ws1 & sep & ws2 & l & ds & frac & post & Ht & _).
  apply Hno. rewrite Ht. do 3 (apply in_or_app; right). left. reflexivity.
Qed.
End CodeShape.

(** ** The registry pattern on any token *)

Section RegistryRun.
Context {U : UnicodeData}.

Lemma sre_match_BRANCH_eq r1 r2 c ms k :
  sre_match (BRANCH r1 r2) c ms k =
  match sre_match r1 c ms k with
  | Some res => Some res
  | None => sre_match r2 c ms k
  end.
Proof. reflexivity. Qed.

(** A run of literals fails where the text does not go on with it. *)
Lemma literals_mismatch kw : forall c ms k,
  same_ignore_b kw (firstn (length kw) (ahead c)) = false ->
  sre_match (literals kw) c ms k = None.
Proof.
  induction kw as [|a kw IH]; intros c ms k H.
  - discriminate.
  - change (sre_match (literals (a :: kw)) c ms k)
      with (sre_match (LITERAL a) c ms (fun c' ms' => sre_match (literals kw) c' ms' k)).
    rewrite (single_LITERAL a). destruct (ahead c) as [|x rest] eqn:E; [reflexivity|].
    simpl in H. destruct (literal_ignore a x); [|reflexivity].
    apply IH. exact H.
Qed.

Lemma upper_alpha t T :
  map ascii_toupper t = T -> Forall (fun c => ascii_isupper c = true) T ->
  Forall (fun c => ascii_isalpha c = true) t.
Proof.
  intros <-. induction t as [|c t IH]; simpl; intro H; inversion H; subst; constructor.
  - apply toupper_alpha. assumption.
  - auto.
Qed.

Lemma last_char_word l t :
  t <> [] -> Forall (fun c => ascii_isalpha c = true) t ->
  isword_opt (last_char l t) = true.
Proof.
  revert l. induction t as [|c t IH]; intros l Hne H; [congruence|].
  inversion H; subst. simpl. destruct t as [|d t].
  - simpl. apply alpha_word. assumption.
  - apply IH; [discriminate | assumption].
Qed.

Ltac token_chars H :=
  repeat match type of H with
         | map ascii_toupper ?t = _ :: _ =>
           let c := fresh "c" in
           let E := fresh "E" in
           destruct t as [|c t]; [discriminate|];
           simpl in H; injection H as E H
         | map ascii_toupper ?t = [] =>
           destruct t; [clear H | discriminate]
         end.

Ltac mismatch Hc :=
  try apply literals_mismatch; rewrite Hc; py_compute;
  cbn [length firstn app same_ignore_b];
  rewrite !literal_ignore_upper by (reflexivity || assumption);
  repeat match goal with E : ascii_toupper _ = _ |- _ => rewrite E; clear E end;
  reflexivity.

(** The alternation reads the token that stands at the cursor. *)
Lemma registry_types_run T t c ms k rest :
  In T registry_tokens -> map ascii_toupper t = T -> is_ascii t ->
  ahead c = t ++ rest ->
  sre_match registry_types c ms k = k (skip c t rest) ms.
Proof.
  intros HT Ht Hascii Hc.
  assert (Hsame : same_ignore T t).
  { apply same_ignore_upper; [apply registry_tokens_upper; exact HT | exact Hascii | exact Ht]. }
  unfold registry_types. rewrite !sre_match_BRANCH_eq.
  unfold registry_tokens in HT. simpl in HT.
  destruct HT as [<-|[<-|[<-|[<-|[<-|[]]]]]].
  - rewrite (@literals_run U (py "CRM") t c ms k rest Hc Hsame).
    destruct (k (skip c t rest) ms); [reflexivity|].
    revert Ht. py_compute. intro Ht. token_chars Ht.
    unfold is_ascii in *.
    repeat match goal with H : Forall _ (_ :: _) |- _ => inversion H; clear H; subst end.
    rewrite !literals_mismatch; [reflexivity | | | |]; mismatch Hc.
  - rewrite (@literals_run U (py "CRP") t c ms k rest Hc Hsame).
    revert Ht. py_compute. intro Ht. token_chars Ht.
    unfold is_ascii in *.
    repeat match goal with H : Forall _ (_ :: _) |- _ => inversion H; clear H; subst end.
    rewrite (@literals_mismatch [67; 82; 77]%N) by (mismatch Hc).
    destruct (k _ ms); [reflexivity|].
    rewrite !literals_mismatch; [reflexivity | | |]; mismatch Hc.
  - rewrite (@literals_run U (py "CREFITO") t c ms k rest Hc Hsame).
    revert Ht. py_compute. intro Ht. token_chars Ht.
    unfold is_ascii in *.
    repeat match goal with H : Forall _ (_ :: _) |- _ => inversion H; clear H; subst end.
    rewrite (@literals_mismatch [67; 82; 77]%N) by (mismatch Hc).
    rewrite (@literals_mismatch [67; 82; 80]%N) by (mismatch Hc).
    destruct (k _ ms); [reflexivity|].
    rewrite !literals_mismatch; [reflexivity | |]; mismatch Hc.
  - rewrite (@literals_run U (py "CRO") t c ms k rest Hc Hsame).
    revert Ht. py_compute. intro Ht. token_chars Ht.
    unfold is_ascii in *.
    repeat match goal with H : Forall _ (_ :: _) |- _ => inversion H; clear H; subst end.
    rewrite (@literals_mismatch [67; 82; 77]%N) by (mismatch Hc).
    rewrite (@literals_mismatch [67; 82; 80]%N) by (mismatch Hc).
    rewrite (@literals_mismatch [67; 82; 69; 70; 73; 84; 79]%N) by (mismatch Hc).
    destruct (k _ ms); [reflexivity|].
    rewrite !literals_mismatch; [reflexivity |]; mismatch Hc.
  - rewrite (@literals_run U (py "COREN") t c ms k rest Hc Hsame).
    revert Ht. py_compute. intro Ht. token_chars Ht.
    unfold is_ascii in *.
    repeat match goal with H : Forall _ (_ :: _) |- _ => inversion H; clear H; subst end.
    rewrite (@literals_mismatch [67; 82; 77]%N) by (mismatch Hc).
    rewrite (@literals_mismatch [67; 82; 80]%N) by (mismatch Hc).
    rewrite (@literals_mismatch [67; 82; 69; 70; 73; 84; 79]%N) by (mismatch Hc).
    rewrite (@literals_mismatch [67; 82; 79]%N) by (mismatch Hc).
    reflexivity.
Qed.
End RegistryRun.

Section RegistryGeneral.
Context {U : UnicodeData}.

Lemma seps_run s :
  Forall (fun x => ascii_sep x = true) s ->
  Forall (fun x => in_ignore [Space; SET_LITERAL (ch "/")] x = true) s.
Proof.
  apply Forall_impl. intros a Ha.
  change (space_or_slash a = true). rewrite space_or_slash_ascii; [exact Ha|].
  apply ascii_sep_lt. exact Ha.
Qed.

Lemma letters_run s :
  Forall (fun x => ascii_isalpha x = true) s ->
  Forall (fun x => in_ignore [SET_RANGE (ch "A") (ch "Z")] x = true) s.
Proof.
  apply Forall_impl. intros a Ha.
  change (state_letter a = true). rewrite state_letter_ascii; [exact Ha|].
  apply ascii_isalpha_lt. exact Ha.
Qed.

Lemma digits_run s :
  Forall (fun x => ascii_isdigit x = true) s ->
  Forall (fun x => in_ignore [Digit] x = true) s.
Proof.
  apply Forall_impl. intros a Ha. rewrite in_ignore_Digit, isdecimal_ascii; [exact Ha|].
  apply ascii_isdigit_lt. exact Ha.
Qed.

Lemma stops_at (t : N -> bool) x (s rest : str) :
  t x = false -> stops t ((x :: s) ++ rest).
Proof. intro H. exact H. Qed.

(** The registry pattern on a token, separators, an optional state,
    separators and digits. *)
Lemma registry_run c T t s1 st s2 number post :
  ahead c = t ++ s1 ++ st ++ s2 ++ number ++ post ->
  isword_opt (behind c) = false ->
  In T registry_tokens -> map ascii_toupper t = T -> is_ascii t ->
  s1 <> [] -> Forall (fun x => ascii_sep x = true) s1 ->
  (st = [] /\ s2 = [] \/
   length st = 2 /\ Forall (fun x => ascii_isalpha x = true) st /\
   Forall (fun x => ascii_sep x = true) s2) ->
  number <> [] -> Forall (fun x => ascii_isdigit x = true) number ->
  isdecimal_opt (hd_error post) = false ->
  exists ms,
    sre_match pattern c [] accept
    = Some (skip c (t ++ s1 ++ st ++ s2 ++ number) post, ms) /\
    lookup 1 ms = Some (pos c, length t + pos c) /\
    lookup 2 ms = match st with
                  | [] => None
                  | _ => Some (length (t ++ s1) + pos c, length (t ++ s1 ++ st) + pos c)
                  end /\
    lookup 3 ms = Some (length (t ++ s1 ++ st ++ s2) + pos c,
                        length (t ++ s1 ++ st ++ s2 ++ number) + pos c).
Proof.
  intros Hc Hb HT Ht Ha Hs1ne Hs1 Hst Hnne Hnum Hpost.
  destruct (registry_tokens_upper HT) as [Hup HTne].
  assert (Halpha : Forall (fun c => ascii_isalpha c = true) t) by (eapply upper_alpha; eauto).
  assert (Htne : t <> []) by (intros ->; apply HTne; symmetry; exact Ht).
  destruct s1 as [|x1 s1]; [congruence|]. destruct number as [|d number]; [congruence|].
  inversion Hs1 as [|? ? Hx1 Hs1']; subst x l.
  inversion Hnum as [|? ? Hd Hnum']; subst x l.
  unfold pattern.
  seq. rewrite sre_match_AT_BOUNDARY.
  2:{ unfold at_boundary, boundary. rewrite Hb, Hc.
      destruct t as [|c0 t]; [congruence|]. simpl. inversion Halpha; subst.
      apply alpha_word. assumption. }
  seq. rewrite sre_match_SUBPATTERN_eq.
  rewrite (@registry_types_run U T t c [] _ ((x1 :: s1) ++ st ++ s2 ++ (d :: number) ++ post)
             HT Ht Ha Hc).
  seq. rewrite sre_match_AT_BOUNDARY.
  2:{ unfold at_boundary, boundary. simpl ahead. simpl behind.
      rewrite last_char_word by assumption. simpl. rewrite sep_not_word by assumption.
      reflexivity. }
  seq. unfold Star at 1.
  destruct Hst as [[-> ->]|(Hlen & Hletters & Hs2)].
  - eexists. split.
    + eapply MAX_REPEAT_run with (run := x1 :: s1) (rest := (d :: number) ++ post);
        [apply single_IN | reflexivity | apply seps_run; exact Hs1 | simpl; lia
         | apply stops_at; apply digit_not_sep; exact Hd | cbv beta].
      seq. rewrite Optional_skip.
      2:{ intro k'. rewrite sre_match_SUBPATTERN_eq.
          eapply MAX_REPEAT_fail; [apply single_IN|].
          apply stops_at. apply digit_not_letter. exact Hd. }
      seq. unfold Star at 1.
      eapply MAX_REPEAT_run with (run := @nil N) (rest := (d :: number) ++ post);
        [apply single_IN | reflexivity | constructor | simpl; lia
         | apply stops_at; apply digit_not_sep; exact Hd | cbv beta].
      rewrite sre_match_SUBPATTERN_eq. unfold Plus.
      eapply MAX_REPEAT_run with (run := d :: number) (rest := post);
        [apply single_IN | reflexivity | apply digits_run; exact Hnum | simpl; lia
         | apply stops_digit; exact Hpost | cbv beta].
      unfold accept. apply f_equal. apply f_equal2; [|reflexivity].
      rewrite !skip_skip. rewrite ?app_nil_r, <- ?app_assoc. reflexivity.
    + simpl lookup. repeat split; f_equal; f_equal;
        rewrite ?length_app; simpl; rewrite ?length_app; simpl; lia.
  - destruct st as [|y1 [|y2 [|]]]; try discriminate.
    inversion Hletters as [|? ? Hy1 _]; subst.
    eexists. split.
    + eapply MAX_REPEAT_run with (run := x1 :: s1)
                                 (rest := [y1; y2] ++ s2 ++ (d :: number) ++ post);
        [apply single_IN | reflexivity | apply seps_run; exact Hs1 | simpl; lia
         | apply stops_at; apply alpha_not_sep; exact Hy1 | cbv beta].
      seq. apply Optional_take. rewrite sre_match_SUBPATTERN_eq.
      eapply MAX_REPEAT_run with (run := [y1; y2]) (rest := s2 ++ (d :: number) ++ post);
        [apply single_IN | reflexivity | apply letters_run; exact Hletters | simpl; lia
         | left; reflexivity | cbv beta].
      rewrite progress_skip by (discriminate || reflexivity).
      seq. unfold Star at 1.
      eapply MAX_REPEAT_run with (run := s2) (rest := (d :: number) ++ post);
        [apply single_IN | reflexivity | apply seps_run; exact Hs2 | simpl; lia
         | apply stops_at; apply digit_not_sep; exact Hd | cbv beta].
      rewrite sre_match_SUBPATTERN_eq. unfold Plus.
      eapply MAX_REPEAT_run with (run := d :: number) (rest := post);
        [apply single_IN | reflexivity | apply digits_run; exact Hnum | simpl; lia
         | apply stops_digit; exact Hpost | cbv beta].
      unfold accept. apply f_equal. apply f_equal2; [|reflexivity].
      rewrite !skip_skip. rewrite <- ?app_assoc. reflexivity.
    + simpl lookup. repeat split; f_equal; f_equal;
        rewrite ?length_app; simpl; rewrite ?length_app; simpl; lia.
Qed.

Lemma slice_at (text pre mid w post : str) a b :
  text = pre ++ mid ++ w ++ post ->
  a = length mid + length pre -> b = length w + a ->
  slice text a b = w.
Proof.
  intros -> -> ->.
  replace (pre ++ mid ++ w ++ post) with ((pre ++ mid) ++ w ++ post)
    by (rewrite <- app_assoc; reflexivity).
  replace (length mid + length pre) with (length (pre ++ mid)) by (rewrite length_app; lia).
  apply slice_app.
Qed.

(** The label of a registry that stands where the first match starts. *)
Lemma extract_registry_at text pre t s1 st s2 number post :
  text = pre ++ t ++ s1 ++ st ++ s2 ++ number ++ post ->
  In (map ascii_toupper t) registry_tokens -> is_ascii t ->
  isword_opt (last_char None pre) = false ->
  s1 <> [] -> Forall (fun x => ascii_sep x = true) s1 ->
  (st = [] /\ s2 = [] \/
   length st = 2 /\ Forall (fun x => ascii_isalpha x = true) st /\
   Forall (fun x => ascii_sep x = true) s2) ->
  number <> [] -> Forall (fun x => ascii_isdigit x = true) number ->
  isdecimal_opt (hd_error post) = false ->
  first_start pattern text pre ->
  extract_registry text
  = Ok (Some (map ascii_toupper t ++ py "/" ++ map ascii_toupper st ++ py " " ++ number),
        Some (py "Ativo")).
Proof.
  intros -> HT Ha Hpre Hs1ne Hs1 Hst Hnne Hnum Hpost Hfirst.
  destruct (@registry_run (cursor_at pre (t ++ s1 ++ st ++ s2 ++ number ++ post))
              _ t s1 st s2 number post eq_refl Hpre HT eq_refl Ha Hs1ne Hs1 Hst
              Hnne Hnum Hpost) as (ms & Hrun & G1 & G2 & G3).
  unfold extract_registry. erewrite re_search_at; [|exact Hfirst|].
  2:{ unfold match_at. rewrite Hrun. reflexivity. }
  unfold group. cbn [m_marks m_string]. rewrite G1, G2, G3. simpl pos.
  rewrite (@slice_at _ pre [] t (s1 ++ st ++ s2 ++ number ++ post)) by (reflexivity || lia).
  rewrite (@slice_at _ pre (t ++ s1 ++ st ++ s2) number post)
    by (rewrite <- ?app_assoc; reflexivity || (rewrite !length_app; lia)).
  rewrite py_upper_ascii by exact Ha.
  destruct Hst as [[-> ->]|(Hlen & Hletters & Hs2)].
  - reflexivity.
  - destruct st as [|y1 st']; [discriminate|].
    rewrite (@slice_at _ pre (t ++ s1) (y1 :: st') (s2 ++ number ++ post))
      by (rewrite <- ?app_assoc; reflexivity || (rewrite !length_app; simpl; lia)).
    unfold truthy, format.
    rewrite py_upper_ascii; [reflexivity|].
    eapply Forall_impl; [|exact Hletters]. intros a. apply ascii_isalpha_lt.
Qed.

(** X4.  Any of the five tokens in any mix of ASCII upper and lower
    case, not preceded by a word character, followed by at least one
    white-space character or slash, an optional state of two ASCII
    letters (with white space or slashes after it) and ASCII digits
    that no further digit follows: where the first match of the
    pattern starts there, [extract_registry] returns the token in upper
    case, a slash, the state in upper case, a space and the digits,
    with the status 'Ativo'. *)
Theorem extract_registry_general text pre t s1 st s2 number post :
  text = pre ++ t ++ s1 ++ st ++ s2 ++ number ++ post ->
  In (map ascii_toupper t) registry_tokens -> is_ascii t ->
  isword_opt (last_char None pre) = false ->
  s1 <> [] -> Forall (fun x => ascii_sep x = true) s1 ->
  (st = [] /\ s2 = [] \/
   length st = 2 /\ Forall (fun x => ascii_isalpha x = true) st /\
   Forall (fun x => ascii_sep x = true) s2) ->
  number <> [] -> Forall (fun x => ascii_isdigit x = true) number ->
  isdecimal_opt (hd_error post) = false ->
  first_start pattern text pre ->
  extract_registry text
  = Ok (Some (map ascii_toupper t ++ py "/" ++ map ascii_toupper st ++ py " " ++ number),
        Some (py "Ativo")).
Proof. apply extract_registry_at. Qed.
End RegistryGeneral.

(** ** Results in their final form *)

Section RoundTrips.
Context {U : UnicodeData}.

Lemma is_ascii_app (s t : str) : is_ascii (s ++ t) <-> is_ascii s /\ is_ascii t.
Proof. apply Forall_app. Qed.

Lemma is_ascii_cons x (s : str) : is_ascii (x :: s) <-> (x < 128)%N /\ is_ascii s.
Proof. apply Forall_cons_iff. Qed.

Lemma take_digits_run n ds rest :
  Forall (fun c => isdecimal c = true) ds ->
  length ds = n \/ length ds < n /\ stops isdecimal rest ->
  take_digits n (ds ++ rest) = ds.
Proof.
  revert n. induction ds as [|d ds IH]; intros n Hd Hn; simpl.
  - destruct n as [|n]; [reflexivity|].
    destruct Hn as [Hn|[_ Hs]]; [discriminate|].
    destruct rest as [|x rest]; [reflexivity|]. simpl in *. rewrite Hs. reflexivity.
  - inversion Hd as [|? ? Hd1 Hd']; subst.
    destruct n as [|n]; [simpl in Hn; lia|]. simpl. rewrite Hd1. f_equal.
    apply IH; [exact Hd'|]. simpl in Hn.
    destruct Hn as [Hn|[Hn Hs]]; [left; lia | right; split; [lia | exact Hs]].
Qed.

Lemma alpha_toupper c : ascii_isalpha c = true -> ascii_isalpha (ascii_toupper c) = true.
Proof.
  intro H. pose proof (ascii_isalpha_lt _ H) as Hc. revert c Hc H.
  apply (@ascii_implies ascii_isalpha (fun c => ascii_isalpha (ascii_toupper c))).
  vm_compute. reflexivity.
Qed.

(** A code in upper case reads as a code, whole. *)
Lemma code_at_code l ds frac :
  ascii_isalpha l = true -> digits12 ds ->
  (frac = [] \/ exists fs, frac = ch "." :: fs /\ digits12 fs) ->
  code_at (l :: ds ++ frac) = Some (l :: ds ++ frac).
Proof.
  intros Hl [Hlen Hds] Hfrac. unfold code_at. rewrite Hl.
  assert (Hstop : stops isdecimal frac).
  { destruct Hfrac as [->|(fs & -> & _)]; [exact I | vm_compute; reflexivity]. }
  assert (E : take_digits 2 (ds ++ frac) = ds).
  { apply take_digits_run; [exact Hds|].
    destruct (Nat.eq_dec (length ds) 2); [left; assumption | right; split; [lia | exact Hstop]]. }
  rewrite E. clear E.
  destruct ds as [|d ds]; [simpl in Hlen; lia|].
  rewrite skipn_app, skipn_all, Nat.sub_diag. simpl skipn.
  do 3 f_equal.
  destruct Hfrac as [->|(fs & -> & Hl2 & Hfs)]; [reflexivity|].
  simpl app. unfold fraction_at. rewrite N.eqb_refl.
  assert (E : take_digits 2 fs = fs).
  { rewrite <- (app_nil_r fs) at 1. apply take_digits_run; [exact Hfs|].
    destruct (Nat.eq_dec (length fs) 2); [left; assumption | right; split; [lia | exact I]]. }
  rewrite E. clear E.
  destruct fs; [simpl in Hl2; lia | reflexivity].
Qed.

(** X2.  On a text of ASCII characters the code returned is in its
    final form: upper case leaves it as it is, and [extract_cid] reads
    it back unchanged from "CID-10: " followed by the code. *)
Theorem extract_cid_round_trip text code :
  is_ascii text -> extract_cid text = Ok (Some code) ->
  py_upper code = code /\
  extract_cid (py "CID-10: " ++ code) = Ok (Some code).
Proof.
  intros Hascii. unfold extract_cid at 1.
  destruct (re_search cid_pattern text) as [m|] eqn:E; [|discriminate].
  destruct (cid_pattern_anatomy _ E)
    as (pre & marker & d & zero & ws1 & sep & ws2 & l & ds & frac & post
        & Ht & G & _ & _ & _ & _ & _ & _ & Hl & Hds & Hfrac).
  rewrite G. intro Heq.
  assert (Ecode : code = py_upper (l :: ds ++ frac)) by congruence.
  clear Heq. subst code text.
  assert (Hcode : is_ascii (l :: ds ++ frac)).
  { unfold is_ascii in *. rewrite Forall_forall in *. intros x Hx. apply Hascii.
    do 3 (apply in_or_app; right). right. do 4 (apply in_or_app; right).
    apply in_or_app. left. exact Hx. }
  pose proof Hcode as Hcode'.
  apply is_ascii_cons in Hcode'. destruct Hcode' as [Hl128 Hrest].
  apply is_ascii_app in Hrest. destruct Hrest as [Hds128 Hfrac128].
  rewrite code_letter_ascii in Hl by assumption.
  destruct Hds as [Hlen Hds].
  assert (Hds' : Forall (fun c => ascii_isdigit c = true) ds) by (apply ascii_digits; assumption).
  assert (Hfrac' : map ascii_toupper frac = frac /\
                   (frac = [] \/ exists fs, frac = ch "." :: fs /\ digits12 fs)).
  { split; [|exact Hfrac]. destruct Hfrac as [->|(fs & -> & _ & Hfs)]; [reflexivity|].
    apply is_ascii_cons in Hfrac128. destruct Hfrac128 as [_ Hfs128].
    simpl. f_equal. apply map_toupper_digits. apply ascii_digits; assumption. }
  destruct Hfrac' as [Efrac _].
  assert (Eup : py_upper (l :: ds ++ frac) = ascii_toupper l :: ds ++ frac).
  { rewrite py_upper_ascii by assumption. simpl. rewrite map_app, Efrac.
    rewrite map_toupper_digits by assumption. reflexivity. }
  rewrite Eup.
  assert (Hat : code_at (ascii_toupper l :: ds ++ frac) = Some (ascii_toupper l :: ds ++ frac)).
  { apply code_at_code; [apply alpha_toupper; exact Hl | split; assumption | exact Hfrac]. }
  assert (Eup' : py_upper (ascii_toupper l :: ds ++ frac) = ascii_toupper l :: ds ++ frac).
  { rewrite py_upper_ascii.
    - simpl. rewrite toupper_toupper, map_app, Efrac.
      rewrite map_toupper_digits by assumption. reflexivity.
    - apply is_ascii_cons. split.
      + apply ascii_isalpha_lt. apply alpha_toupper. exact Hl.
      + apply is_ascii_app. auto. }
  split; [exact Eup'|].
  set (code := ascii_toupper l :: ds ++ frac) in *.
  destruct (@cid_pattern_run U (cursor_at [] (py "CID-10: " ++ code))
              (py "CID") (py "-") [] (py ":") (py " ") (ascii_toupper l) (ds ++ frac) code)
    as (c7 & w0 & rest & ms' & Hr & Hrest & Hrun).
  - vm_compute. reflexivity.
  - split; vm_compute; [repeat constructor | reflexivity].
  - right. exists (ch "-"). split; vm_compute; reflexivity.
  - constructor.
  - right. exists (ch ":"). split; vm_compute; reflexivity.
  - vm_compute. repeat constructor.
  - exact Hat.
  - assert (Hs : exists m0, re_search cid_pattern (py "CID-10: " ++ code) = Some m0 /\
                            group m0 1 = Some code).
    { eexists. split.
      - apply (@re_search_at U cid_pattern [] (py "CID-10: " ++ code)).
        + intros. simpl. lia.
        + unfold match_at. rewrite Hrun. reflexivity.
      - unfold group. cbn [m_marks m_string lookup Nat.eqb].
        destruct (reaches_valid (valid_cursor_at [] _) Hr) as [Hv7 _].
        destruct (reaches_valid Hv7 (reaches_skip c7 code rest Hrest)) as [_ Hslice].
        f_equal. exact Hslice. }
    destruct Hs as (m0 & Hs & Hg). unfold extract_cid. rewrite Hs, Hg.
    f_equal. f_equal. exact Eup'.
Qed.

Lemma map_toupper_idem (s : str) : map ascii_toupper (map ascii_toupper s) = map ascii_toupper s.
Proof. rewrite map_map. apply map_ext. intro. apply toupper_toupper. Qed.

Lemma state_letters_upper st :
  is_ascii st -> Forall (fun c => state_letter c = true) st ->
  Forall (fun x => ascii_isalpha x = true) (map ascii_toupper st).
Proof.
  unfold is_ascii. induction 1 as [|c st Hc _ IH]; intro H; inversion H; subst; simpl;
    constructor.
  - apply alpha_toupper. rewrite <- state_letter_ascii; assumption.
  - auto.
Qed.

(** X5.  On a text of ASCII characters the label returned is in its
    final form: [extract_registry] reads the label itself back
    unchanged, with the status 'Ativo'. *)
Theorem extract_registry_round_trip text label status :
  is_ascii text -> extract_registry text = Ok (Some label, status) ->
  extract_registry label = Ok (Some label, Some (py "Ativo")).
Proof.
  intros Hascii. unfold extract_registry at 1.
  destruct (re_search pattern text) as [m|] eqn:E; [|discriminate].
  destruct (pattern_anatomy _ E)
    as (pre & t & s1 & st & s2 & number & post & Ht & G1 & G2 & G3 & (T & HT & Hsame)
        & _ & _ & _ & Hst & _ & Hnne & Hnum).
  rewrite G1, G2, G3. intro Heq.
  assert (El : label = py_upper t ++ py "/" ++ py_upper st ++ py " " ++ number).
  { destruct st; injection Heq as <- _; reflexivity. }
  clear Heq. subst text.
  assert (Hin : forall x, In x (t ++ s1 ++ st ++ s2 ++ number) -> (x < 128)%N).
  { unfold is_ascii in Hascii. rewrite Forall_forall in Hascii. intros x Hx.
    apply Hascii. apply in_or_app. right. rewrite !app_assoc. apply in_or_app. left.
    rewrite <- !app_assoc. exact Hx. }
  assert (Ha_t : is_ascii t).
  { apply Forall_forall. intros x Hx. apply Hin. apply in_or_app. auto. }
  assert (Ha_st : is_ascii st).
  { apply Forall_forall. intros x Hx. apply Hin. do 2 (apply in_or_app; right).
    apply in_or_app. auto. }
  assert (Ha_n : is_ascii number).
  { apply Forall_forall. intros x Hx. apply Hin. do 4 (apply in_or_app; right). exact Hx. }
  destruct (registry_tokens_upper HT) as [Hup _].
  assert (Emap : map ascii_toupper t = T) by (apply same_ignore_upper; assumption).
  assert (Hdigits : Forall (fun x => ascii_isdigit x = true) number)
    by (apply ascii_digits; assumption).
  rewrite !py_upper_ascii in El by assumption. rewrite Emap in El. subst label.
  assert (ET : map ascii_toupper T = T) by (rewrite <- Emap; apply map_toupper_idem).
  assert (HaT : is_ascii T).
  { eapply Forall_impl; [|exact Hup]. intros a Ha.
    unfold ascii_isupper, between in Ha. rewrite andb_true_iff, !N.leb_le in Ha. lia. }
  destruct Hst as [->|[Hlen Hletters]].
  - etransitivity.
    + eapply extract_registry_at with (pre := []) (t := T) (s1 := py "/ ") (st := [])
                                      (s2 := []) (number := number) (post := []).
      * py_compute. simpl. rewrite app_nil_r. reflexivity.
      * rewrite ET. exact HT.
      * exact HaT.
      * reflexivity.
      * discriminate.
      * vm_compute. repeat constructor.
      * left. split; reflexivity.
      * exact Hnne.
      * exact Hdigits.
      * reflexivity.
      * intros pre' w' post' _ _. simpl. lia.
    + rewrite ET. reflexivity.
  - etransitivity.
    + eapply extract_registry_at with (pre := []) (t := T) (s1 := py "/")
                                      (st := map ascii_toupper st)
                                      (s2 := py " ") (number := number) (post := []).
      * py_compute. simpl. rewrite app_nil_r. reflexivity.
      * rewrite ET. exact HT.
      * exact HaT.
      * reflexivity.
      * discriminate.
      * vm_compute. repeat constructor.
      * right. split; [rewrite length_map; exact Hlen|].
        split; [apply state_letters_upper; assumption | vm_compute; repeat constructor].
      * exact Hnne.
      * exact Hdigits.
      * reflexivity.
      * intros pre' w' post' _ _. simpl. lia.
    + rewrite ET, map_toupper_idem. reflexivity.
Qed.
End RoundTrips.

(** ** The verdict and the text *)

Section Verdict.
Context {U : UnicodeData}.

Lemma re_search_found p text : re_search p text <> None <-> occurs_in p text.
Proof.
  split.
  - apply re_search_occurs.
  - intros (pre & w & post & Ht & Ho) E. rewrite re_search_none in E. eapply E; eauto.
Qed.

Lemma is_valid_type_classify text res :
  doc_type res = classify_document text ->
  (is_valid_type res = true <-> mentions report_keywords text).
Proof.
  intro Hd. unfold is_valid_type. rewrite Hd, <- existsb_mentions.
  unfold classify_document.
  destruct (existsb _ exam_keywords); destruct (existsb _ report_keywords);
    vm_compute; split; congruence.
Qed.

(** X8.  The verdict read off the text: the result of analysing a
    text is approved exactly when the lower-cased text holds a report
    keyword, the CID pattern and the registry pattern each match
    somewhere, one of the absence phrases stands as a word of its own
    and the letters a, s, s are followed by word characters and a
    colon.  Exam keywords play no part.  (No code point has an empty
    upper case.) *)
Theorem approval_from_text text res :
  (forall c, uc_toupper_full c <> []) ->
  analyse text = Ok res ->
  (is_approved res = true <->
   mentions report_keywords text /\
   occurs_in cid_pattern text /\
   occurs_in pattern text /\
   (exists keyword pre w post,
       In keyword keywords /\ text = pre ++ w ++ post /\
       same_ignore keyword w /\ standalone pre w post) /\
   (exists pre x y z ws post,
       text = pre ++ x :: y :: z :: ws ++ ch ":" :: post /\ stem_run x y z ws)).
Proof.
  intros Hup Hres.
  destruct (analyse_fields _ Hres) as (Hd & Hc & Hr & Ha & Hs & _).
  assert (Hcid : truthy (cid res) = true <-> occurs_in cid_pattern text).
  { rewrite <- re_search_found.
    destruct (extract_cid_cases text) as [[E N]|(m & x & code & S & _ & E)];
      rewrite E in Hc; injection Hc as <-; unfold truthy.
    - rewrite N. split; congruence.
    - rewrite S. pose proof (py_upper_nonempty x code Hup) as Hne.
      change (toupper_full x ++ py_upper code) with (py_upper (x :: code)).
      destruct (py_upper (x :: code)); [congruence|]. split; congruence. }
  assert (Hreg : is_active_registry res = true <-> occurs_in pattern text).
  { rewrite <- re_search_found. unfold is_active_registry.
    destruct (extract_registry_cases text) as [[E N]|(m & label & S & E)];
      rewrite E in Hr; injection Hr as <-.
    - rewrite N. cbn. split; congruence.
    - rewrite S. cbn [registry_info]. split; [congruence | reflexivity]. }
  unfold is_approved. simpl forallb.
  rewrite !andb_true_iff, Hcid, Hreg, (@is_valid_type_classify text res Hd), Ha, Hs,
    check_afastamento_iff, check_signature_iff.
  intuition.
Qed.

(** X6.  [check_afastamento] is true exactly when one of the five
    phrases, compared as IGNORECASE compares, stands in the text with a
    word boundary on each side. *)
Theorem check_afastamento_keywords text :
  check_afastamento text = true <->
  exists keyword pre w post,
    In keyword keywords /\ text = pre ++ w ++ post /\
    same_ignore keyword w /\ standalone pre w post.
Proof. apply check_afastamento_iff. Qed.

(** X7.  Text before and after does not hide a signature line: where
    [check_signature] is true on a text it is true on every text that
    contains it. *)
Theorem check_signature_in_context text before after :
  check_signature text = true -> check_signature (before ++ text ++ after) = true.
Proof.
  rewrite !check_signature_iff.
  intros (pre & x & y & z & ws & post & -> & H).
  exists (before ++ pre), x, y, z, ws, (post ++ after). split; [|exact H].
  rewrite <- !app_assoc. simpl. rewrite <- !app_assoc. reflexivity.
Qed.
End Verdict.

(** ** The case of ASCII letters *)

Section LetterCase.
Context {U : UnicodeData}.

Lemma same_letter_refl a : same_letter a a.
Proof. left. reflexivity. Qed.

Lemma same_text_refl s : same_text s s.
Proof. induction s; constructor; auto using same_letter_refl. Qed.

Lemma same_text_b_true s : forall t, same_text_b s t = true -> same_text s t.
Proof.
  induction s as [|a s IH]; intros [|b t] H; simpl in H; try discriminate; constructor.
  - apply andb_true_iff in H. destruct H as [H _]. unfold same_letter_b in H.
    apply orb_true_iff in H. destruct H as [H|H].
    + left. apply N.eqb_eq. exact H.
    + right. rewrite !andb_true_iff, !N.ltb_lt, N.eqb_eq in H. tauto.
  - apply IH. apply andb_true_iff in H. tauto.
Qed.

Lemma same_text_length s t : same_text s t -> length s = length t.
Proof. induction 1; simpl; congruence. Qed.

(** Two different code points of the same lower case are letters. *)
Lemma same_letter_cases a b :
  same_letter a b ->
  a = b \/
  ((a < 128)%N /\ (b < 128)%N /\ ascii_tolower a = ascii_tolower b /\
   ascii_isalpha a = true /\ ascii_isalpha b = true).
Proof.
  intros [H|(Ha & Hb & H)]; [left; exact H|].
  destruct (N.eq_dec a b) as [E|E]; [left; exact E | right].
  pose proof (ascii_forall
                (fun a => forallb
                            (fun b => implb ((ascii_tolower a =? ascii_tolower b)%N
                                             && negb (a =? b)%N)
                                            (ascii_isalpha a && ascii_isalpha b))
                            (N_range 0 127))) as Hall.
  specialize (Hall ltac:(vm_compute; reflexivity) a Ha). cbv beta in Hall.
  rewrite forallb_forall in Hall. specialize (Hall b (@In_N_range 0%N 127%N b ltac:(lia))).
  apply N.eqb_eq in H. apply N.eqb_neq in E. rewrite H, E in Hall. simpl in Hall.
  apply andb_true_iff in Hall. apply N.eqb_eq in H. tauto.
Qed.

(** A test that an ASCII code point passes as its lower case does is
    blind to the case of ASCII letters. *)
Lemma same_letter_test (A : Type) (f : N -> A) a b :
  (forall c, (c < 128)%N -> f c = f (ascii_tolower c)) ->
  same_letter a b -> f a = f b.
Proof.
  intros Hf [->|(Ha & Hb & H)]; [reflexivity|].
  rewrite (Hf a Ha), (Hf b Hb), H. reflexivity.
Qed.

Lemma ascii_test_lower (f : N -> N -> bool) :
  forallb (fun c => f c (ascii_tolower c)) (N_range 0 127) = true ->
  forall c, (c < 128)%N -> f c (ascii_tolower c) = true.
Proof. intros H c Hc. apply (ascii_forall (fun c => f c (ascii_tolower c))); assumption. Qed.

Lemma tolower_same a b : same_letter a b -> tolower a = tolower b.
Proof.
  apply same_letter_test. intros c Hc. apply N.eqb_eq.
  apply (ascii_test_lower (fun c d => tolower c =? tolower d)%N); [|exact Hc].
  vm_compute. reflexivity.
Qed.

Lemma toupper_full_same a b : same_letter a b -> toupper_full a = toupper_full b.
Proof.
  intros [->|(Ha & Hb & H)]; [reflexivity|].
  unfold toupper_full. apply N.ltb_lt in Ha, Hb. rewrite Ha, Hb. f_equal.
  apply N.ltb_lt in Ha, Hb.
  assert (Hc : forall c, (c < 128)%N -> ascii_toupper c = ascii_toupper (ascii_tolower c)).
  { intros c Hc. apply N.eqb_eq.
    apply (ascii_test_lower (fun c d => ascii_toupper c =? ascii_toupper d)%N); [|exact Hc].
    vm_compute. reflexivity. }
  rewrite (Hc a Ha), (Hc b Hb), H. reflexivity.
Qed.

Lemma sre_isword_same a b : same_letter a b -> sre_isword a = sre_isword b.
Proof.
  apply same_letter_test. intros c Hc. apply eqb_prop.
  apply (ascii_test_lower (fun c d => Bool.eqb (sre_isword c) (sre_isword d))); [|exact Hc].
  vm_compute. reflexivity.
Qed.

Lemma iscased_same a b : same_letter a b -> iscased a = iscased b.
Proof.
  apply same_letter_test. intros c Hc. apply eqb_prop.
  apply (ascii_test_lower (fun c d => Bool.eqb (iscased c) (iscased d))); [|exact Hc].
  vm_compute. reflexivity.
Qed.

Lemma iscaseignorable_same a b : same_letter a b -> iscaseignorable a = iscaseignorable b.
Proof.
  apply same_letter_test. intros c Hc. apply eqb_prop.
  apply (ascii_test_lower (fun c d => Bool.eqb (iscaseignorable c) (iscaseignorable d)));
    [|exact Hc].
  vm_compute. reflexivity.
Qed.

Lemma letter_iscased c : (c < 128)%N -> ascii_isalpha c = true -> sre_iscased c = true.
Proof.
  intros Hc Ha.
  pose proof (ascii_forall (fun c => implb (ascii_isalpha c) (sre_iscased c))) as Hall.
  specialize (Hall ltac:(vm_compute; reflexivity) c Hc). cbv beta in Hall.
  rewrite Ha in Hall. exact Hall.
Qed.

Lemma letter_not_decimal c : (c < 128)%N -> ascii_isalpha c = true -> isdecimal c = false.
Proof.
  intros Hc Ha.
  pose proof (ascii_forall (fun c => implb (ascii_isalpha c) (negb (isdecimal c)))) as Hall.
  specialize (Hall ltac:(vm_compute; reflexivity) c Hc). cbv beta in Hall.
  rewrite Ha in Hall. apply negb_true_iff. exact Hall.
Qed.

Lemma literal_ignore_same av a b :
  same_letter a b -> literal_ignore av a = literal_ignore av b.
Proof.
  intro H. unfold literal_ignore. rewrite (tolower_same H).
  destruct (sre_iscased av) eqn:Hav; [reflexivity|].
  apply same_letter_cases in H. destruct H as [->|(Ha & Hb & _ & La & Lb)]; [reflexivity|].
  assert (a <> av) by (intros ->; rewrite letter_iscased in Hav; auto; discriminate).
  assert (b <> av) by (intros ->; rewrite letter_iscased in Hav; auto; discriminate).
  transitivity false; [|symmetry]; apply N.eqb_neq; assumption.
Qed.

Lemma decimal_same a b : same_letter a b -> isdecimal a = true -> a = b.
Proof.
  intros H Hd. apply same_letter_cases in H.
  destruct H as [->|(Ha & Hb & _ & La & Lb)]; [reflexivity|].
  rewrite letter_not_decimal in Hd; auto. discriminate.
Qed.

Lemma in_ignore_same items a b :
  forallb (fun c => Bool.eqb (in_ignore items c) (in_ignore items (ascii_tolower c)))
          (N_range 0 127) = true ->
  same_letter a b -> in_ignore items a = in_ignore items b.
Proof.
  intro Hb. apply same_letter_test. intros c Hc. apply eqb_prop.
  apply (ascii_forall (fun c => Bool.eqb (in_ignore items c)
                                         (in_ignore items (ascii_tolower c)))); assumption.
Qed.

Lemma py_upper_same s t : same_text s t -> py_upper s = py_upper t.
Proof.
  unfold py_upper. induction 1 as [|a b s t Hab _ IH]; simpl.
  - reflexivity.
  - rewrite (toupper_full_same Hab), IH. reflexivity.
Qed.

Lemma digits_same s t :
  same_text s t -> Forall (fun c => isdecimal c = true) s -> s = t.
Proof.
  induction 1 as [|a b s t Hab _ IH]; intro Hd.
  - reflexivity.
  - inversion Hd; subst. f_equal; [eapply decimal_same; eauto | auto].
Qed.

(** *** [str.lower] *)

Lemma skip_ignorable_same s t :
  same_text s t -> same_text (skip_ignorable s) (skip_ignorable t).
Proof.
  induction 1 as [|a b s t Hab Hst IH]; simpl.
  - constructor.
  - rewrite (iscaseignorable_same Hab).
    destruct (iscaseignorable b); [exact IH | constructor; assumption].
Qed.

Lemma final_sigma_same b1 b2 a1 a2 :
  same_text b1 b2 -> same_text a1 a2 -> final_sigma b1 a1 = final_sigma b2 a2.
Proof.
  intros Hb Ha. unfold final_sigma.
  apply skip_ignorable_same in Hb, Ha.
  destruct Hb as [|x y ? ? Hxy _]; [reflexivity|].
  rewrite (iscased_same Hxy). f_equal.
  destruct Ha as [|u v ? ? Huv _]; [reflexivity|].
  rewrite (iscased_same Huv). reflexivity.
Qed.

Lemma tolower_full_same b1 b2 c1 c2 a1 a2 :
  same_text b1 b2 -> same_letter c1 c2 -> same_text a1 a2 ->
  tolower_full b1 c1 a1 = tolower_full b2 c2 a2.
Proof.
  intros Hb [->|(H1 & H2 & H)] Ha; unfold tolower_full.
  - rewrite (final_sigma_same Hb Ha). reflexivity.
  - apply N.ltb_lt in H1, H2. rewrite H1, H2, H. reflexivity.
Qed.

Lemma lower_from_same s t :
  same_text s t ->
  forall b1 b2, same_text b1 b2 -> lower_from b1 s = lower_from b2 t.
Proof.
  induction 1 as [|a b s t Hab Hst IH]; intros b1 b2 Hb; simpl.
  - reflexivity.
  - rewrite (tolower_full_same Hb Hab Hst). f_equal.
    apply IH. constructor; assumption.
Qed.

Lemma py_lower_same s t : same_text s t -> py_lower s = py_lower t.
Proof. intro H. apply lower_from_same; [exact H | constructor]. Qed.

(** *** The matcher *)

Lemma sim_outcome_first o1 o2 o1' o2' :
  sim_outcome o1 o2 -> sim_outcome o1' o2' ->
  sim_outcome (match o1 with Some res => Some res | None => o1' end)
              (match o2 with Some res => Some res | None => o2' end).
Proof.
  destruct o1 as [[? ?]|], o2 as [[? ?]|]; simpl; tauto.
Qed.

Lemma progress_same c1 c2 c1' c2' :
  sim_cursor c1 c2 -> sim_cursor c1' c2' -> progress c1 c1' = progress c2 c2'.
Proof.
  intros (_ & _ & H) (_ & _ & H'). unfold progress.
  rewrite (same_text_length H), (same_text_length H'). reflexivity.
Qed.

Lemma repeat_min_sim body :
  sim_body body body -> forall n, sim_body (repeat_min body n) (repeat_min body n).
Proof.
  intros Hb n. induction n as [|n IH]; intros c1 c2 ms k1 k2 Hc Hk; simpl.
  - apply Hk. exact Hc.
  - apply Hb; [exact Hc|]. intros d1 d2 ms' Hd. apply IH; assumption.
Qed.

Lemma repeat_max_sim body :
  sim_body body body -> forall n, sim_body (repeat_max body n) (repeat_max body n).
Proof.
  intros Hb n. induction n as [|n IH]; intros c1 c2 ms k1 k2 Hc Hk; simpl.
  - apply Hk. exact Hc.
  - apply sim_outcome_first; [|apply Hk; exact Hc].
    apply Hb; [exact Hc|]. intros d1 d2 ms' Hd.
    rewrite (progress_same Hc Hd). destruct (progress c2 d2); [|exact I].
    apply IH; assumption.
Qed.

Lemma sim_step c1 c2 x y r1 r2 :
  sim_cursor c1 c2 -> same_letter x y -> same_text r1 r2 ->
  sim_cursor (step c1 x r1) (step c2 y r2).
Proof.
  intros (Hp & _ & _) Hxy Hr. unfold sim_cursor. simpl. rewrite Hp. auto.
Qed.

Lemma at_boundary_same c1 c2 : sim_cursor c1 c2 -> at_boundary c1 = at_boundary c2.
Proof.
  intros (_ & Hb & Ha). unfold at_boundary, boundary. f_equal.
  - destruct (behind c1), (behind c2); simpl in *; try tauto.
    apply sre_isword_same. exact Hb.
  - destruct Ha; simpl; [reflexivity | apply sre_isword_same; assumption].
Qed.

(** On two texts that differ in case only the matcher takes the same
    steps. *)
Lemma sre_match_sim r : case_blind r = true -> sim_body (sre_match r) (sre_match r).
Proof.
  unfold case_blind.
  induction r as [|av|items| |r1 IH1 r2 IH2|r1 IH1 r2 IH2|lo hi r IH|g r IH];
    intros Hblind c1 c2 ms k1 k2 Hc Hk; simpl sre_match; simpl sets_of in Hblind.
  - apply Hk. exact Hc.
  - pose proof Hc as (_ & _ & Ha). destruct Ha as [|x y s t Hxy Hst]; [exact I|].
    rewrite (literal_ignore_same av Hxy). destruct (literal_ignore av y); [|exact I].
    apply Hk. apply sim_step; assumption.
  - pose proof Hc as (_ & _ & Ha). destruct Ha as [|x y s t Hxy Hst]; [exact I|].
    simpl in Hblind. rewrite andb_true_r in Hblind.
    rewrite (in_ignore_same items Hblind Hxy). destruct (in_ignore items y); [|exact I].
    apply Hk. apply sim_step; assumption.
  - rewrite (at_boundary_same Hc). destruct (at_boundary c2); [|exact I].
    apply Hk. exact Hc.
  - rewrite forallb_app in Hblind. apply andb_true_iff in Hblind.
    destruct Hblind as [B1 B2].
    apply (IH1 B1); [exact Hc|]. intros d1 d2 ms' Hd. apply (IH2 B2); assumption.
  - rewrite forallb_app in Hblind. apply andb_true_iff in Hblind.
    destruct Hblind as [B1 B2].
    apply sim_outcome_first; [apply (IH1 B1) | apply (IH2 B2)]; assumption.
  - apply (repeat_min_sim (IH Hblind)); [exact Hc|]. intros d1 d2 ms' Hd.
    replace (length (ahead d1)) with (length (ahead d2))
      by (symmetry; apply same_text_length; apply Hd).
    apply (repeat_max_sim (IH Hblind)); assumption.
  - apply (IH Hblind); [exact Hc|]. intros d1 d2 ms' Hd.
    destruct Hc as (Hp & _), Hd as (Hp' & Hd). rewrite Hp, Hp'.
    apply Hk. split; assumption.
Qed.

Lemma search_from_sim p t1 t2 rest1 rest2 :
  case_blind p = true -> same_text rest1 rest2 ->
  forall i prev1 prev2,
    sim_behind prev1 prev2 ->
    sim_match t1 t2 (search_from p t1 i prev1 rest1) (search_from p t2 i prev2 rest2).
Proof.
  intros Hp Hrest. induction Hrest as [|x y s t Hxy Hst IH]; intros i prev1 prev2 Hprev;
    simpl; unfold match_at.
  - assert (H : sim_outcome
                  (sre_match p {| pos := i; behind := prev1; ahead := [] |} [] accept)
                  (sre_match p {| pos := i; behind := prev2; ahead := [] |} [] accept)).
    { apply (sre_match_sim _ Hp).
      - repeat split; [exact Hprev | constructor].
      - intros d1 d2 ms Hd. simpl. auto. }
    destruct (sre_match p _ [] accept) as [[d1 m1]|],
             (sre_match p _ [] accept) as [[d2 m2]|]; simpl in *; try tauto.
    destruct H as ((Hpos & _) & ->). auto.
  - assert (H : sim_outcome
                  (sre_match p {| pos := i; behind := prev1; ahead := x :: s |} [] accept)
                  (sre_match p {| pos := i; behind := prev2; ahead := y :: t |} [] accept)).
    { apply (sre_match_sim _ Hp).
      - repeat split; [exact Hprev | constructor; assumption].
      - intros d1 d2 ms Hd. simpl. auto. }
    destruct (sre_match p _ [] accept) as [[d1 m1]|],
             (sre_match p _ [] accept) as [[d2 m2]|]; simpl in H; try tauto.
    + destruct H as ((Hpos & _) & ->). simpl. auto.
    + apply IH. exact Hxy.
Qed.

Lemma re_search_sim p t1 t2 :
  case_blind p = true -> same_text t1 t2 ->
  sim_match t1 t2 (re_search p t1) (re_search p t2).
Proof. intros Hp Ht. apply search_from_sim; [exact Hp | exact Ht | exact I]. Qed.

Lemma same_text_skipn n : forall s t, same_text s t -> same_text (skipn n s) (skipn n t).
Proof.
  induction n as [|n IH]; intros s t H; simpl; [exact H|].
  destruct H; [constructor | apply IH; assumption].
Qed.

Lemma same_text_firstn n : forall s t, same_text s t -> same_text (firstn n s) (firstn n t).
Proof.
  induction n as [|n IH]; intros s t H; simpl; [constructor|].
  destruct H; constructor; [assumption | apply IH; assumption].
Qed.

(** The groups of the two matches hold texts that differ in case only. *)
Lemma group_sim t1 t2 m1 m2 g :
  same_text t1 t2 -> sim_match t1 t2 (Some m1) (Some m2) ->
  match group m1 g, group m2 g with
  | Some s1, Some s2 => same_text s1 s2
  | None, None => True
  | _, _ => False
  end.
Proof.
  intros Ht (S1 & S2 & _ & _ & Hm). unfold group. rewrite Hm, S1, S2.
  destruct (lookup g (m_marks m2)) as [[a b]|]; [|exact I].
  unfold slice. apply same_text_firstn, same_text_skipn. exact Ht.
Qed.

Lemma found_same p t1 t2 :
  case_blind p = true -> same_text t1 t2 ->
  match re_search p t1 with Some _ => true | None => false end
  = match re_search p t2 with Some _ => true | None => false end.
Proof.
  intros Hp Ht. pose proof (re_search_sim p Hp Ht) as H.
  destruct (re_search p t1), (re_search p t2); simpl in H; tauto.
Qed.
End LetterCase.

Section CaseOfLetters.
Context {U : UnicodeData}.

Lemma extract_cid_same t1 t2 : same_text t1 t2 -> extract_cid t1 = extract_cid t2.
Proof.
  intro Ht. unfold extract_cid.
  pose proof (@re_search_sim U cid_pattern t1 t2 ltac:(vm_compute; reflexivity) Ht) as H.
  destruct (re_search cid_pattern t1) as [m1|], (re_search cid_pattern t2) as [m2|];
    simpl in H; try tauto.
  pose proof (group_sim 1 Ht H) as G.
  destruct (group m1 1), (group m2 1); try tauto.
  rewrite (py_upper_same G). reflexivity.
Qed.

Lemma extract_registry_same t1 t2 :
  same_text t1 t2 -> extract_registry t1 = extract_registry t2.
Proof.
  intro Ht. unfold extract_registry.
  pose proof (@re_search_sim U pattern t1 t2 ltac:(vm_compute; reflexivity) Ht) as H.
  destruct (re_search pattern t1) as [m1|] eqn:E1,
           (re_search pattern t2) as [m2|] eqn:E2; simpl in H; try tauto.
  pose proof (group_sim 1 Ht H) as G1. pose proof (group_sim 2 Ht H) as G2.
  pose proof (group_sim 3 Ht H) as G3.
  destruct (pattern_anatomy _ E1)
    as (pre & t & s1 & st & s2 & number & post & _ & _ & _ & N3 & _ & _ & _ & _ & _ & _ & _ & Hd).
  rewrite N3 in *.
  destruct (group m1 1) as [a1|], (group m2 1) as [a2|]; try tauto.
  destruct (group m2 3) as [n2|]; [|tauto].
  rewrite (py_upper_same G1), (digits_same G3 Hd).
  destruct (group m1 2) as [b1|], (group m2 2) as [b2|]; try tauto.
  destruct G2 as [|x y b1 b2 Hxy G2]; [reflexivity|].
  unfold truthy, format. rewrite (py_upper_same (Forall2_cons _ _ Hxy G2)). reflexivity.
Qed.

Lemma keyword_pattern_blind kw : case_blind (keyword_pattern kw) = true.
Proof.
  unfold case_blind, keyword_pattern. simpl.
  replace (sets_of (literals kw)) with (@nil (list set_item)); [reflexivity|].
  induction kw; simpl; auto.
Qed.

Lemma check_afastamento_same t1 t2 :
  same_text t1 t2 -> check_afastamento t1 = check_afastamento t2.
Proof.
  intro Ht. unfold check_afastamento.
  induction keywords as [|kw kws IH]; simpl; [reflexivity|].
  rewrite IH. f_equal. apply found_same; [apply keyword_pattern_blind | exact Ht].
Qed.

Lemma check_signature_same t1 t2 :
  same_text t1 t2 -> check_signature t1 = check_signature t2.
Proof.
  intro Ht. unfold check_signature. apply found_same; [vm_compute; reflexivity | exact Ht].
Qed.

Lemma classify_document_same t1 t2 :
  same_text t1 t2 -> classify_document t1 = classify_document t2.
Proof. intro Ht. unfold classify_document. rewrite (py_lower_same Ht). reflexivity. Qed.

(** X9.  The analysis is blind to the case of ASCII letters: on two
    texts that differ in it only, the five functions return the same
    values and the verdicts agree. *)
Theorem analysis_ignores_letter_case text text' :
  same_text text text' ->
  classify_document text' = classify_document text /\
  extract_cid text' = extract_cid text /\
  extract_registry text' = extract_registry text /\
  check_afastamento text' = check_afastamento text /\
  check_signature text' = check_signature text /\
  (forall res res',
      analyse text = Ok res -> analyse text' = Ok res' ->
      is_approved res' = is_approved res).
Proof.
  intro Ht.
  pose proof (classify_document_same Ht) as H1.
  pose proof (extract_cid_same Ht) as H2.
  pose proof (extract_registry_same Ht) as H3.
  pose proof (check_afastamento_same Ht) as H4.
  pose proof (check_signature_same Ht) as H5.
  repeat split; auto.
  intros res res' Hres Hres'.
  destruct (analyse_fields _ Hres) as (Hd & Hc & Hr & Ha & Hs & _).
  destruct (analyse_fields _ Hres') as (Hd' & Hc' & Hr' & Ha' & Hs' & _).
  assert (Ec : cid res' = cid res) by congruence.
  assert (Er : registry_info res' = registry_info res) by congruence.
  unfold is_approved, is_valid_type, is_active_registry.
  rewrite Ec, Er, Hd, Hd', Ha, Ha', Hs, Hs', H1, H4, H5. reflexivity.
Qed.
End CaseOfLetters.

(** ** The checklist *)

Section Checklist.
Context {U : UnicodeData}.

(** X15.  The checklist drawn for the analysis of a text: the code and
    the registry are given as found or as "Não encontrado" and are
    marked as passed exactly when found, the registry always with
    "(Status: Ativo)"; the type item always shows the label and is
    marked by the type test; and the verdict is approval exactly when
    all five items are marked as passed.  (No code point has an empty
    upper case.) *)
Theorem checklist_of_analysis text res :
  (forall c, uc_toupper_full c <> []) ->
  analyse text = Ok res ->
  checklist res =
  item (is_valid_type res) (py "Tipo de Documento") (doc_type res)
  ++ item (present (cid res)) (py "Diagnóstico (CID)") (value_of (cid res))
  ++ item (present (fst (registry_info res))) (py "Registro Profissional")
          (value_of (option_map (fun label => label ++ py " (Status: Ativo)")
                                (fst (registry_info res))))
  ++ item (afastamento res) (py "Indicação de Afastamento") (found (afastamento res))
  ++ item (signature res) (py "Assinatura do Responsável") (found (signature res))
  ++ [10%N] ++ py "    " /\
  (is_approved res = true <->
   is_valid_type res = true /\ present (cid res) = true /\
   present (fst (registry_info res)) = true /\
   afastamento res = true /\ signature res = true).
Proof.
  intros Hup Hres.
  destruct (analyse_fields _ Hres) as (Hd & Hc & Hr & Ha & Hs & _).
  assert (Hcid : cid res = None \/ exists x code, cid res = Some (x :: code)).
  { destruct (extract_cid_cases text) as [[E _]|(m & x & code & _ & _ & E)];
      rewrite E in Hc; injection Hc as <-; [left; reflexivity | right].
    pose proof (py_upper_nonempty x code Hup) as Hne.
    change (toupper_full x ++ py_upper code) with (py_upper (x :: code)).
    destruct (py_upper (x :: code)) as [|y w]; [congruence | eauto]. }
  assert (Hreg : registry_info res = (None, None) \/
                 exists y label, registry_info res = (Some (y :: label), Some (py "Ativo"))).
  { destruct (extract_registry_cases text) as [[E _]|(m & label & Hm & E)];
      rewrite E in Hr; injection Hr as <-; [left; reflexivity | right].
    unfold extract_registry in E. rewrite Hm in E.
    destruct (group m 1) as [t|]; [|discriminate]. injection E as <-.
    destruct (py_upper t ++ _) as [|y label] eqn:El; [|eauto].
    apply app_eq_nil in El. destruct El as [_ El]. vm_compute in El. discriminate. }
  unfold is_approved. simpl forallb. unfold checklist, is_active_registry.
  destruct Hreg as [->|(y & label & ->)]; destruct Hcid as [->|(x & code & ->)];
    cbv beta iota; cbn [truthy present value_of format fst option_map];
    try replace (str_eqb (py "Ativo") (py "Ativo")) with true by (vm_compute; reflexivity);
    (split; [unfold item; rewrite <- !app_assoc; reflexivity
            |rewrite !andb_true_iff; intuition discriminate]).
Qed.
End Checklist.

(** ** The life of a session *)

Section Lifecycle.
Context {U : UnicodeData}.
Variables file image : Type.
Variable Image_open : file -> result image.
Variable image_to_string : image -> result str.


Lemma display_uploader_settled ss uploaded_file :
  settled Image_open image_to_string ss -> analysis_complete ss = false ->
  settled Image_open image_to_string (state (display_uploader Image_open image_to_string ss uploaded_file)).
Proof.
  intros Hs Hidle.
  assert (Hnone : results ss = None).
  { unfold settled in Hs. destruct (results ss); [|reflexivity].
    destruct Hs as [Hs _]. congruence. }
  unfold display_uploader. destruct uploaded_file as [f|]; [|exact Hs].
  unfold bind. destruct (Image_open f) as [img|e] eqn:Ho.
  - destruct (image_to_string img) as [text|e] eqn:Ht.
    + destruct (analyse text) as [res|e] eqn:Ha.
      * unfold settled. simpl. repeat split. exists f, img, text. auto.
      * unfold settled. simpl. rewrite Hnone. exact Hidle.
    + unfold settled. simpl. rewrite Hnone. exact Hidle.
  - unfold settled. simpl. rewrite Hnone. exact Hidle.
Qed.

Lemma reachable_settled session :
  reachable Image_open image_to_string session -> settled Image_open image_to_string (entries session).
Proof.
  induction 1 as [|session uploaded_file button r _ IH Hrun].
  - reflexivity.
  - unfold main in Hrun. fold (entries session) in Hrun.
    destruct (analysis_complete (entries session)) eqn:Hc.
    + unfold display_results in Hrun.
      destruct (results (entries session)) as [res|] eqn:Hres; [|discriminate].
      destruct button; injection Hrun as <-; simpl.
      * reflexivity.
      * exact IH.
    + injection Hrun as <-. apply display_uploader_settled; assumption.
Qed.

(** X10.  From a fresh session, whatever is uploaded and whenever the
    button is pressed, no run of [main] fails: [display_results] never
    finds the stored results missing. *)
Theorem main_never_fails session uploaded_file button :
  reachable Image_open image_to_string session -> exists r, main Image_open image_to_string session uploaded_file button = Some r.
Proof.
  intro Hreach. apply reachable_settled in Hreach.
  unfold main. fold (entries session).
  destruct (analysis_complete (entries session)) eqn:Hc; [|eauto].
  unfold display_results. unfold settled in Hreach.
  destruct (results (entries session)) as [res|]; [|congruence].
  destruct button; eauto.
Qed.

(** X11.  In every session that runs of [main] lead to, the
    completion flag is set exactly when results are stored; stored
    results are the analysis of the text read from an uploaded file,
    whole, and no error message is stored beside them. *)
Theorem stored_results_from_upload ss :
  reachable Image_open image_to_string (Some ss) ->
  (analysis_complete ss = true <-> results ss <> None) /\
  (forall res, results ss = Some res ->
               error_message ss = None /\
               exists f img text,
                 Image_open f = Ok img /\ image_to_string img = Ok text /\
                 analyse text = Ok res /\ raw_text res = text).
Proof.
  intro Hreach. apply reachable_settled in Hreach. simpl in Hreach.
  unfold settled in Hreach. destruct (results ss) as [res|].
  - destruct Hreach as (Hc & He & f & img & text & Ho & Ht & Ha). split.
    + split; [discriminate | auto].
    + intros res' [= <-]. split; [exact He|]. exists f, img, text.
      repeat split; auto. apply analyse_fields in Ha. apply Ha.
  - split.
    + split; congruence.
    + discriminate.
Qed.

(** X12.  A file that opens and reads well, uploaded while no result
    is shown: the run draws no banner and asks to be run again; the
    next run, whatever the uploader holds, shows the verdict of the
    analysis of the text read and leaves the session as it is. *)
Theorem upload_then_verdict session f img text button :
  analysis_complete (entries session) = false ->
  Image_open f = Ok img -> image_to_string img = Ok text ->
  exists res r,
    analyse text = Ok res /\
    main Image_open image_to_string session (Some f) button = Some r /\
    shown r = None /\ rerun r = true /\
    forall uploaded_file,
      main Image_open image_to_string (Some (state r)) uploaded_file false
      = Some {| state := state r; shown := Some (verdict res); rerun := false |}.
Proof.
  intros Hidle Ho Ht. destruct (analyse_total text) as [res Ha].
  exists res. eexists. split; [exact Ha|]. split.
  - unfold main. fold (entries session). rewrite Hidle.
    unfold display_uploader, bind. rewrite Ho, Ht. fold (analyse text). rewrite Ha.
    reflexivity.
  - simpl. repeat split.
Qed.

(** X13.  While a result is shown, pressing the button shows the
    verdict once more, asks for a new run and leaves the session as a
    fresh one: the next runs behave as those of a new session, and
    with no file uploaded they draw nothing. *)
Theorem reset_starts_afresh ss uploaded_file :
  reachable Image_open image_to_string (Some ss) -> analysis_complete ss = true ->
  exists res,
    results ss = Some res /\
    main Image_open image_to_string (Some ss) uploaded_file true
    = Some {| state := initial_state; shown := Some (verdict res); rerun := true |} /\
    forall uploaded_file' button,
      main Image_open image_to_string (Some initial_state) uploaded_file' button = main Image_open image_to_string None uploaded_file' button /\
      main Image_open image_to_string (Some initial_state) None button
      = Some {| state := initial_state; shown := None; rerun := false |}.
Proof.
  intros Hreach Hc. apply reachable_settled in Hreach. simpl in Hreach.
  unfold settled in Hreach. destruct (results ss) as [res|] eqn:Hres; [|congruence].
  exists res. split; [reflexivity|]. split.
  - unfold main. rewrite Hc. unfold display_results. rewrite Hres. reflexivity.
  - intros. split; reflexivity.
Qed.

Lemma error_prefix_nonempty s :
  exists x msg, py "Ocorreu um erro ao processar o arquivo: " ++ s = x :: msg.
Proof.
  destruct (py "Ocorreu um erro ao processar o arquivo: ") as [|x p] eqn:E.
  - vm_compute in E. discriminate.
  - exists x, (p ++ s). reflexivity.
Qed.

(** X14.  When opening or reading the file fails while no result is
    shown, the run draws no banner and asks to be run again; as long as
    the same file is there the next run repeats it, state and all, and
    the message is drawn, as an error banner, by the first run that
    finds no file. *)
Theorem error_banner_after_file_removed ss f e button :
  analysis_complete ss = false ->
  ingestion_fails Image_open image_to_string f e ->
  let r := display_uploader Image_open image_to_string ss (Some f) in
  shown r = None /\ rerun r = true /\
  main Image_open image_to_string (Some (state r)) (Some f) button = Some r /\
  main Image_open image_to_string (Some (state r)) None button
  = Some {| state := state r;
            shown := Some (Error (py "Ocorreu um erro ao processar o arquivo: "
                                  ++ str_of_exn e));
            rerun := false |}.
Proof.
  intros Hidle Hfail r.
  assert (Hr : r = {| state := {| analysis_complete := analysis_complete ss;
                                  results := results ss;
                                  error_message :=
                                    Some (py "Ocorreu um erro ao processar o arquivo: "
                                          ++ str_of_exn e) |};
                      shown := None; rerun := true |}).
  { subst r. unfold display_uploader, bind.
    destruct Hfail as [-> | (i & -> & ->)]; reflexivity. }
  rewrite Hr. cbn [state shown rerun]. split; [reflexivity|]. split; [reflexivity|].
  unfold main. cbn [analysis_complete]. rewrite Hidle. split.
  - unfold display_uploader, bind. cbn [analysis_complete results error_message].
    destruct Hfail as [-> | (i & -> & ->)]; reflexivity.
  - unfold display_uploader. cbn [error_message].
    destruct (error_prefix_nonempty (str_of_exn e)) as (x & msg & ->). reflexivity.
Qed.
End Lifecycle.

(** ** The further properties on concrete inputs *)

Lemma demo_session_reachable : @reachable latin1 bool str demo_open demo_ocr (Some demo_session).
Proof.
  unfold demo_session.
  eapply reachable_run with (session := None) (uploaded_file := Some true) (button := false).
  - apply reachable_fresh.
  - reflexivity.
Qed.

Lemma extract_cid_code_witness :
  exists pre marker d zero ws1 sep ws2 l ds frac post,
    py "Diagnóstico: cid 10 - j45.0, asma" =
    pre ++ marker ++ d ++ ch "1" :: zero ++ ws1 ++ sep ++ ws2 ++ (l :: ds ++ frac) ++ post /\
    py "J45.0" = @py_upper latin1 (l :: ds ++ frac).
Proof.
  destruct (@extract_cid_code latin1 (py "Diagnóstico: cid 10 - j45.0, asma") (py "J45.0"))
    as (pre & marker & d & zero & ws1 & sep & ws2 & l & ds & frac & post & H1 & H2 & _).
  - vm_compute. reflexivity.
  - exists pre, marker, d, zero, ws1, sep, ws2, l, ds, frac, post. split; assumption.
Defined.

Lemma extract_cid_needs_one_witness :
  @extract_cid latin1 (py "CID: M54.5") = Ok None.
Proof.
  apply (@extract_cid_needs_one latin1). vm_compute. intuition discriminate.
Defined.

Lemma extract_cid_round_trip_witness :
  @extract_cid latin1 (py "CID-10: J45.0") = Ok (Some (py "J45.0")).
Proof.
  apply (@extract_cid_round_trip latin1 (py "paciente com cid 10 - j45.0, asma") (py "J45.0")).
  - vm_compute. repeat constructor.
  - vm_compute. reflexivity.
Defined.

Lemma extract_registry_label_witness :
  exists pre t s1 st s2 number post,
    py "Dr. Rui - crm/sp 4321." = pre ++ t ++ s1 ++ st ++ s2 ++ number ++ post /\
    py "CRM/SP 4321" = @py_upper latin1 t ++ py "/" ++ @py_upper latin1 st ++ py " " ++ number.
Proof.
  destruct (@extract_registry_label latin1 (py "Dr. Rui - crm/sp 4321.") (py "CRM/SP 4321")
              (Some (py "Ativo")))
    as (pre & t & s1 & st & s2 & number & post & H1 & H2 & _).
  - vm_compute. reflexivity.
  - exists pre, t, s1, st, s2, number, post. split; assumption.
Defined.

Lemma extract_registry_general_witness :
  @extract_registry latin1 (py "Enf. Coren / sp 778.")
  = Ok (Some (map ascii_toupper (py "Coren") ++ py "/" ++ map ascii_toupper (py "sp")
              ++ py " " ++ py "778"),
        Some (py "Ativo")).
Proof.
  apply (@extract_registry_general latin1 (py "Enf. Coren / sp 778.") (py "Enf. ") (py "Coren")
           (py " / ") (py "sp") (py " ") (py "778") (py ".")).
  - vm_compute. reflexivity.
  - vm_compute. auto 10.
  - vm_compute. repeat constructor.
  - vm_compute. reflexivity.
  - vm_compute. discriminate.
  - vm_compute. repeat constructor.
  - right. vm_compute. repeat constructor.
  - vm_compute. discriminate.
  - vm_compute. repeat constructor.
  - vm_compute. reflexivity.
  - eapply first_start_search; vm_compute; reflexivity.
Defined.

Lemma extract_registry_round_trip_witness :
  @extract_registry latin1 (py "CREFITO/ 15") = Ok (Some (py "CREFITO/ 15"), Some (py "Ativo")).
Proof.
  apply (@extract_registry_round_trip latin1 (py "fisioterapeuta, crefito 15")
           (py "CREFITO/ 15") (Some (py "Ativo"))).
  - vm_compute. repeat constructor.
  - vm_compute. reflexivity.
Defined.

Lemma check_signature_in_context_witness :
  @check_signature latin1 (py "Local e data. " ++ py "Ass: Dra. Ana" ++ py " (carimbo)") = true.
Proof.
  apply (@check_signature_in_context latin1). vm_compute. reflexivity.
Defined.

Lemma approval_from_text_witness :
  exists res,
    @analyse latin1 scenario = Ok res /\
    (is_approved res = true <->
     @mentions latin1 report_keywords scenario /\
     @occurs_in latin1 cid_pattern scenario /\
     @occurs_in latin1 pattern scenario /\
     (exists keyword pre w post,
         In keyword keywords /\ scenario = pre ++ w ++ post /\
         @same_ignore latin1 keyword w /\ @standalone latin1 pre w post) /\
     (exists pre x y z ws post,
         scenario = pre ++ x :: y :: z :: ws ++ ch ":" :: post /\
         @stem_run latin1 x y z ws)).
Proof.
  eexists. split; [vm_compute; reflexivity|].
  apply (@approval_from_text latin1 scenario).
  - exact latin1_toupper_full_nonempty.
  - vm_compute. reflexivity.
Defined.

Lemma analysis_ignores_letter_case_witness :
  @classify_document latin1 (py "laudo: cid 10 j45, crm/rj 98765, REPOUSO. ass: dr. silva")
  = @classify_document latin1 (py "LAUDO: CID 10 J45, CRM/RJ 98765, repouso. ASS: Dr. Silva") /\
  @extract_cid latin1 (py "laudo: cid 10 j45, crm/rj 98765, REPOUSO. ass: dr. silva")
  = @extract_cid latin1 (py "LAUDO: CID 10 J45, CRM/RJ 98765, repouso. ASS: Dr. Silva") /\
  @extract_registry latin1 (py "laudo: cid 10 j45, crm/rj 98765, REPOUSO. ass: dr. silva")
  = @extract_registry latin1 (py "LAUDO: CID 10 J45, CRM/RJ 98765, repouso. ASS: Dr. Silva").
Proof.
  destruct (@analysis_ignores_letter_case latin1
              (py "LAUDO: CID 10 J45, CRM/RJ 98765, repouso. ASS: Dr. Silva")
              (py "laudo: cid 10 j45, crm/rj 98765, REPOUSO. ass: dr. silva"))
    as (H1 & H2 & H3 & _).
  - apply same_text_b_true. vm_compute. reflexivity.
  - auto.
Defined.

Lemma main_never_fails_witness :
  exists r, @main latin1 bool str demo_open demo_ocr (Some demo_session) None true = Some r.
Proof.
  apply (@main_never_fails latin1 bool str demo_open demo_ocr).
  exact demo_session_reachable.
Defined.

Lemma stored_results_from_upload_witness :
  (analysis_complete demo_session = true <-> results demo_session <> None) /\
  (forall res, results demo_session = Some res ->
               error_message demo_session = None /\
               exists f img text,
                 demo_open f = Ok img /\ demo_ocr img = Ok text /\
                 @analyse latin1 text = Ok res /\ raw_text res = text).
Proof.
  apply (@stored_results_from_upload latin1 bool str demo_open demo_ocr).
  exact demo_session_reachable.
Defined.

Lemma upload_then_verdict_witness :
  exists res r,
    @analyse latin1 scenario = Ok res /\
    @main latin1 bool str demo_open demo_ocr None (Some true) false = Some r /\
    shown r = None /\ rerun r = true /\
    forall uploaded_file,
      @main latin1 bool str demo_open demo_ocr (Some (state r)) uploaded_file false
      = Some {| state := state r; shown := Some (verdict res); rerun := false |}.
Proof.
  apply (@upload_then_verdict latin1 bool str demo_open demo_ocr None true scenario scenario false);
    reflexivity.
Defined.

Lemma reset_starts_afresh_witness :
  exists res,
    results demo_session = Some res /\
    @main latin1 bool str demo_open demo_ocr (Some demo_session) (Some false) true
    = Some {| state := initial_state; shown := Some (verdict res); rerun := true |} /\
    forall uploaded_file' button,
      @main latin1 bool str demo_open demo_ocr (Some initial_state) uploaded_file' button
      = @main latin1 bool str demo_open demo_ocr None uploaded_file' button /\
      @main latin1 bool str demo_open demo_ocr (Some initial_state) None button
      = Some {| state := initial_state; shown := None; rerun := false |}.
Proof.
  apply (@reset_starts_afresh latin1 bool str demo_open demo_ocr demo_session (Some false)).
  - exact demo_session_reachable.
  - vm_compute. reflexivity.
Defined.

Lemma error_banner_after_file_removed_witness :
  let r := @display_uploader latin1 bool str demo_open demo_ocr initial_state (Some false) in
  shown r = None /\ rerun r = true /\
  @main latin1 bool str demo_open demo_ocr (Some (state r)) (Some false) false = Some r /\
  @main latin1 bool str demo_open demo_ocr (Some (state r)) None false
  = Some {| state := state r;
            shown := Some (Error (py "Ocorreu um erro ao processar o arquivo: "
                                  ++ str_of_exn (Exception (py "cannot identify image file"))));
            rerun := false |}.
Proof.
  apply (@error_banner_after_file_removed latin1 bool str demo_open demo_ocr initial_state
           false (Exception (py "cannot identify image file")) false).
  - reflexivity.
  - left. reflexivity.
Defined.

Lemma checklist_of_analysis_witness :
  exists res,
    @analyse latin1 scenario_without_cid = Ok res /\
    checklist res =
    item true (py "Tipo de Documento") (py "Laudo")
    ++ item false (py "Diagnóstico (CID)") (py "Não encontrado")
    ++ item true (py "Registro Profissional") (py "CRM/RJ 98765 (Status: Ativo)")
    ++ item true (py "Indicação de Afastamento") (py "Encontrada")
    ++ item true (py "Assinatura do Responsável") (py "Encontrada")
    ++ [10%N] ++ py "    ".
Proof.
  destruct (@analyse_total latin1 scenario_without_cid) as [res Hres].
  exists res. split; [exact Hres|].
  destruct (@checklist_of_analysis latin1 scenario_without_cid res
              latin1_toupper_full_nonempty Hres) as [H _].
  rewrite H. vm_compute in Hres. injection Hres as <-. vm_compute. reflexivity.
Defined.
